(** * PaginatedGraphStorage: entities, relations, summary index, bounded BFS

    A shallow embedding of [src/storage/PaginatedGraphStorage.ts].

    The three MongoDB collections are modelled as lists of documents in
    insertion (natural) order; a replaced document keeps its place.
    Every asynchronous method first awaits [connect()], which has no
    effect on the stored documents; the methods
    are therefore modelled as functions from a store to a store (writes)
    or from a store to a result (reads).  [new Date()] is modelled by an
    explicit clock reading [now] handed to each operation.  The deferred
    summary refresh ([setImmediate]) is modelled by a queue of pending
    user ids that [runSummaryUpdate] consumes.  The lower-casing of the
    JavaScript runtime is a parameter of the model ([JsRuntime]): the
    properties hold for every such function, the examples at the end
    run on ASCII texts. *)

From Stdlib Require Import List String Ascii ZArith QArith Bool Arith Lia.
From Stdlib Require Import Sorting.Sorted Sorting.Permutation.
Import ListNotations.

Local Open Scope string_scope.
Local Open Scope list_scope.
Local Open Scope nat_scope.

(** JS [===] on strings. *)
Local Infix "==" := String.eqb (at level 70, no associativity).

(* ================================================================= *)
(** ** Data model *)

(** A JS [Date], as milliseconds since the epoch. *)
Definition Date := Z.

(** [metadata] of an [Entity]. *)
Record EntityMetadata := mkEntityMetadata {
  createdAt : Date;
  updatedAt : Date;
  relationCount : option Z;
  source : option string
}.

(** [interface Entity]; the optional members are options. *)
Record Entity := mkEntity {
  entityId : string;
  name : string;
  entityType : string;
  observations : list string;
  metadata : option EntityMetadata;
  tags : option (list string);
  searchText : option string
}.

(** [metadata] of a [Relation]. *)
Record RelationMetadata := mkRelationMetadata {
  relCreatedAt : Date;
  relSource : option string;
  confidence : option Q
}.

(** [interface Relation]. *)
Record Relation := mkRelation {
  relationId : string;
  fromEntityId : string;
  toEntityId : string;
  relationType : string;
  strength : option Q;
  relMetadata : option RelationMetadata
}.

(** [interface KnowledgeGraph]. *)
Record KnowledgeGraph := mkGraph {
  entities : list Entity;
  relations : list Relation
}.

(** [interface GraphSummary]; [entityTypes] is the object built by the
    [reduce] in [generateSummary], kept as an association list in
    insertion order. *)
Record GraphSummary := mkSummary {
  totalEntities : nat;
  totalRelations : nat;
  entityTypes : list (string * nat);
  recentEntities : list string;
  frequent_terms : list string;
  entity_names : list string;
  summaryUpdatedAt : Date
}.

(** Documents of the [_entities] collection, as written by [saveEntity]. *)
Record EntityDoc := mkEntityDoc {
  edoc_userId : string;
  edoc_entityId : string;
  edoc_name : string;
  edoc_entityType : string;
  edoc_observations : list string;
  edoc_metadata : EntityMetadata;
  edoc_tags : list string;
  edoc_searchText : string
}.

(** Documents of the [_relations] collection, as written by [saveRelation]. *)
Record RelationDoc := mkRelationDoc {
  rdoc_userId : string;
  rdoc_relationId : string;
  rdoc_fromEntityId : string;
  rdoc_toEntityId : string;
  rdoc_relationType : string;
  rdoc_strength : Q;
  rdoc_metadata : RelationMetadata
}.

(** Documents of the [_index] collection, as written by
    [updateSummaryIndex]. *)
Record SummaryDoc := mkSummaryDoc {
  sdoc_userId : string;
  sdoc_totalEntities : nat;
  sdoc_totalRelations : nat;
  sdoc_entityTypes : list (string * nat);
  sdoc_recentEntities : list string;
  sdoc_frequent_terms : list string;
  sdoc_entity_names : list string;
  sdoc_updatedAt : Date
}.

(** The persistent state: the three collections, and the callbacks handed
    to [setImmediate] that have not run yet (one user id each). *)
Record Store := mkStore {
  entitiesCollection : list EntityDoc;
  relationsCollection : list RelationDoc;
  indexCollection : list SummaryDoc;
  pendingUpdates : list string
}.

Definition emptyStore : Store := mkStore [] [] [] [].

(* ================================================================= *)
(** ** The document-store primitives used by the class *)

Section Collection.
Context {A : Type}.

(** [find(filter).toArray()].  None of the queries of the class asks for
    a sort, and MongoDB then promises no order: the insertion order kept
    here is one of the orders it may return. *)
Definition find (f : A -> bool) (c : list A) : list A := filter f c.

(** [findOne(filter)]: the first matching document. *)
Definition findOne (f : A -> bool) (c : list A) : option A := List.find f c.

(** [countDocuments(filter)]. *)
Definition countDocuments (f : A -> bool) (c : list A) : nat :=
  List.length (filter f c).

(** [replaceOne(filter, doc, {upsert: true})]: the first matching
    document is replaced in place; without a match [doc] is inserted. *)
Fixpoint replaceOne (f : A -> bool) (doc : A) (c : list A) : list A :=
  match c with
  | [] => [doc]
  | d :: c' => if f d then doc :: c' else d :: replaceOne f doc c'
  end.

(** [deleteOne(filter)]: the first matching document is removed. *)
Fixpoint deleteOne (f : A -> bool) (c : list A) : list A :=
  match c with
  | [] => []
  | d :: c' => if f d then c' else d :: deleteOne f c'
  end.

(** [deleteMany(filter)]. *)
Definition deleteMany (f : A -> bool) (c : list A) : list A :=
  filter (fun d => negb (f d)) c.
End Collection.

(* ================================================================= *)
(** ** Helper methods *)

(** [String.prototype.toLowerCase], the lower-casing of the JavaScript
    runtime (locale-independent, on all of Unicode).  It is no code of
    the repository: the model takes it as a parameter. *)
Class JsRuntime := mkJsRuntime {
  toLowerCase : string -> string
}.

Section Model.
Context {runtime : JsRuntime}.

(** [Array.prototype.join(' ')]. *)
Fixpoint join (parts : list string) : string :=
  match parts with
  | [] => ""
  | [p] => p
  | p :: ps => (p ++ " " ++ join ps)%string
  end.

(** [a || []] on an optional array. *)
Definition orEmpty {A} (o : option (list A)) : list A :=
  match o with Some l => l | None => [] end.

Definition generateSearchText (entity : Entity) : string :=
  toLowerCase
    (join ([name entity; entityType entity]
             ++ observations entity ++ orEmpty (tags entity))).

Definition generateRelationId (relation : Relation) : string :=
  (fromEntityId relation ++ "-" ++ relationType relation ++ "-"
     ++ toEntityId relation)%string.

(** [doc.observations || []] is [doc.observations]: an array is truthy. *)
Definition documentToEntity (doc : EntityDoc) : Entity :=
  mkEntity (edoc_entityId doc) (edoc_name doc) (edoc_entityType doc)
           (edoc_observations doc) (Some (edoc_metadata doc))
           (Some (edoc_tags doc)) (Some (edoc_searchText doc)).

Definition documentToRelation (doc : RelationDoc) : Relation :=
  mkRelation (rdoc_relationId doc) (rdoc_fromEntityId doc)
             (rdoc_toEntityId doc) (rdoc_relationType doc)
             (Some (rdoc_strength doc)) (Some (rdoc_metadata doc)).

(** [updateSummaryIndex]: only schedules the refresh. *)
Definition updateSummaryIndex (s : Store) (userId : string) : Store :=
  mkStore (entitiesCollection s) (relationsCollection s) (indexCollection s)
          (pendingUpdates s ++ [userId]).

(* ================================================================= *)
(** ** Entity operations *)

(** The [metadata] member of the document written by [saveEntity]:
    [{...entity.metadata, updatedAt: now,
      createdAt: entity.metadata?.createdAt || now}]. *)
Definition entityDocMetadata (entity : Entity) (now : Date) : EntityMetadata :=
  match metadata entity with
  | Some m => mkEntityMetadata (createdAt m) now (relationCount m) (source m)
  | None => mkEntityMetadata now now None None
  end.

Definition entityDocument (userId : string) (entity : Entity) (now : Date)
  : EntityDoc :=
  mkEntityDoc userId (entityId entity) (name entity) (entityType entity)
              (observations entity) (entityDocMetadata entity now)
              (orEmpty (tags entity)) (generateSearchText entity).

(** The filter [{ userId, entityId }]. *)
Definition entityFilter (userId eid : string) (d : EntityDoc) : bool :=
  (edoc_userId d == userId) && (edoc_entityId d == eid).

Definition saveEntity (s : Store) (userId : string) (entity : Entity)
           (now : Date) : Store :=
  updateSummaryIndex
    (mkStore (replaceOne (entityFilter userId (entityId entity))
                         (entityDocument userId entity now)
                         (entitiesCollection s))
             (relationsCollection s) (indexCollection s) (pendingUpdates s))
    userId.

Definition getEntity (s : Store) (userId eid : string) : option Entity :=
  option_map documentToEntity
             (findOne (entityFilter userId eid) (entitiesCollection s)).

(** The filter [{ userId, $or: [{fromEntityId}, {toEntityId}] }]. *)
Definition touchingFilter (userId eid : string) (d : RelationDoc) : bool :=
  (rdoc_userId d == userId)
  && ((rdoc_fromEntityId d == eid) || (rdoc_toEntityId d == eid)).

Definition deleteEntity (s : Store) (userId eid : string) : Store :=
  updateSummaryIndex
    (mkStore (deleteOne (entityFilter userId eid) (entitiesCollection s))
             (deleteMany (touchingFilter userId eid) (relationsCollection s))
             (indexCollection s) (pendingUpdates s))
    userId.

(** [bulkWrite] of one [replaceOne] per entity, applied in order. *)
Definition bulkReplace (userId : string) (now : Date) (es : list Entity)
           (c : list EntityDoc) : list EntityDoc :=
  fold_left (fun c e => replaceOne (entityFilter userId (entityId e))
                                   (entityDocument userId e now) c)
            es c.

Definition saveEntitiesBatch (s : Store) (userId : string)
           (es : list Entity) (now : Date) : Store :=
  match es with
  | [] => s
  | _ =>
    updateSummaryIndex
      (mkStore (bulkReplace userId now es (entitiesCollection s))
               (relationsCollection s) (indexCollection s) (pendingUpdates s))
      userId
  end.

(** The filter [{ userId, entityId: { $in: entityIds } }]. *)
Definition batchFilter (userId : string) (ids : list string) (d : EntityDoc)
  : bool :=
  (edoc_userId d == userId) && existsb (String.eqb (edoc_entityId d)) ids.

Definition getEntitiesBatch (s : Store) (userId : string) (ids : list string)
  : list Entity :=
  map documentToEntity (find (batchFilter userId ids) (entitiesCollection s)).

(* ================================================================= *)
(** ** Relation operations *)

(** JS truthiness of an optional number: [undefined], [0] are falsy. *)
Definition numberOr (o : option Q) (dflt : Q) : Q :=
  match o with
  | Some q => if (Qnum q =? 0)%Z then dflt else q
  | None => dflt
  end.

(** [{...relation.metadata,
      createdAt: relation.metadata?.createdAt || now}]. *)
Definition relationDocMetadata (relation : Relation) (now : Date)
  : RelationMetadata :=
  match relMetadata relation with
  | Some m => mkRelationMetadata (relCreatedAt m) (relSource m) (confidence m)
  | None => mkRelationMetadata now None None
  end.

Definition relationDocument (userId : string) (relation : Relation)
           (now : Date) : RelationDoc :=
  mkRelationDoc userId (relationId relation) (fromEntityId relation)
                (toEntityId relation) (relationType relation)
                (numberOr (strength relation) 1%Q)
                (relationDocMetadata relation now).

(** The filter [{ fromEntityId, toEntityId }] of [saveRelation]: it has no
    [userId] member. *)
Definition pairFilter (from to : string) (d : RelationDoc) : bool :=
  (rdoc_fromEntityId d == from) && (rdoc_toEntityId d == to).

Definition saveRelation (s : Store) (userId : string) (relation : Relation)
           (now : Date) : Store :=
  updateSummaryIndex
    (mkStore (entitiesCollection s)
             (replaceOne (pairFilter (fromEntityId relation)
                                     (toEntityId relation))
                         (relationDocument userId relation now)
                         (relationsCollection s))
             (indexCollection s) (pendingUpdates s))
    userId.

Definition getRelations (s : Store) (userId eid : string) : list Relation :=
  map documentToRelation
      (find (touchingFilter userId eid) (relationsCollection s)).

(** The filter [{ userId, fromEntityId, toEntityId }] of [deleteRelation]. *)
Definition userPairFilter (userId from to : string) (d : RelationDoc) : bool :=
  (rdoc_userId d == userId) && pairFilter from to d.

Definition deleteRelation (s : Store) (userId from to : string) : Store :=
  updateSummaryIndex
    (mkStore (entitiesCollection s)
             (deleteOne (userPairFilter userId from to)
                        (relationsCollection s))
             (indexCollection s) (pendingUpdates s))
    userId.

(* ================================================================= *)
(** ** Graph query: bounded breadth-first traversal *)

(** The local variables of the [while] loop of [getConnectedEntities].
    [visited] is the JS [Set] in insertion order. *)
Record BfsState := mkBfs {
  visited : list string;
  foundEntities : list Entity;
  foundRelations : list Relation;
  queue : list (string * Z)
}.

(** [visited.has(id)]. *)
Definition has (v : list string) (id : string) : bool :=
  existsb (String.eqb id) v.

(** The other endpoint, as computed inside the [for] loop. *)
Definition nextEntityId (cur : string) (relation : Relation) : string :=
  if fromEntityId relation == cur then toEntityId relation
  else fromEntityId relation.

(** The items pushed by the [for] loop for the relations [ers] of [cur];
    [visited] is not modified by that loop. *)
Definition pushes (v : list string) (cur : string) (cd : Z)
           (ers : list Relation) : list (string * Z) :=
  map (fun id => (id, (cd + 1)%Z))
      (filter (fun id => negb (has v id)) (map (nextEntityId cur) ers)).

(** One iteration of the [while] loop (the queue is not empty). *)
Definition bfsStep (s : Store) (userId : string) (depth : Z) (st : BfsState)
  : BfsState :=
  match queue st with
  | [] => st
  | (cur, cd) :: q =>
    if has (visited st) cur || (depth <? cd)%Z
    then mkBfs (visited st) (foundEntities st) (foundRelations st) q
    else
      let visited' := visited st ++ [cur] in
      let ents := match getEntity s userId cur with
                  | Some e => foundEntities st ++ [e]
                  | None => foundEntities st
                  end in
      if (cd <? depth)%Z
      then
        let ers := getRelations s userId cur in
        mkBfs visited' ents (foundRelations st ++ ers)
              (q ++ pushes visited' cur cd ers)
      else mkBfs visited' ents (foundRelations st) q
  end.

(** The [while (queue.length > 0)] loop, with a bound on its iterations. *)
Fixpoint bfsLoop (s : Store) (userId : string) (depth : Z) (fuel : nat)
         (st : BfsState) : option BfsState :=
  match fuel with
  | O => None
  | S fuel' =>
    match queue st with
    | [] => Some st
    | _ :: _ => bfsLoop s userId depth fuel' (bfsStep s userId depth st)
    end
  end.

(** The filter [{ userId }]. *)
Definition relUserFilter (userId : string) (d : RelationDoc) : bool :=
  rdoc_userId d == userId.

Definition entUserFilter (userId : string) (d : EntityDoc) : bool :=
  edoc_userId d == userId.

Definition idxUserFilter (userId : string) (d : SummaryDoc) : bool :=
  sdoc_userId d == userId.

(** A number of iterations that the loop never exceeds
    (see [bfsLoop_terminates]). *)
Definition bfsFuel (s : Store) (userId : string) : nat :=
  let r := countDocuments (relUserFilter userId) (relationsCollection s) in
  S (S ((S (2 * r)) * S r)).

Definition bfsInit (eid : string) : BfsState :=
  mkBfs [] [] [] [(eid, 0%Z)].

Definition getConnectedEntities (s : Store) (userId eid : string) (depth : Z)
  : option KnowledgeGraph :=
  option_map (fun st => mkGraph (foundEntities st) (foundRelations st))
             (bfsLoop s userId depth (bfsFuel s userId) (bfsInit eid)).

(** The nodes that the loop marks as visited, each with the depth at which
    it was dequeued, in order of visit.  This is a trace of the run of
    [bfsLoop]; it is used in statements only. *)
Fixpoint bfsTrace (s : Store) (userId : string) (depth : Z) (fuel : nat)
         (st : BfsState) : list (string * Z) :=
  match fuel with
  | O => []
  | S fuel' =>
    match queue st with
    | [] => []
    | (cur, cd) :: _ =>
      (if has (visited st) cur || (depth <? cd)%Z then [] else [(cur, cd)])
        ++ bfsTrace s userId depth fuel' (bfsStep s userId depth st)
    end
  end.

(** The nodes whose relations were fetched: those visited below [depth]. *)
Definition expandedNodes (depth : Z) (tr : list (string * Z)) : list string :=
  map fst (filter (fun p => (snd p <? depth)%Z) tr).

Definition connectedTrace (s : Store) (userId eid : string) (depth : Z)
  : list (string * Z) :=
  bfsTrace s userId depth (bfsFuel s userId) (bfsInit eid).

(* ================================================================= *)
(** ** Summary index *)

(** [{ $sort: { "metadata.updatedAt": -1 } }], as a stable insertion sort
    (the order MongoDB gives to equal keys is unspecified). *)
Fixpoint insertDesc (d : EntityDoc) (l : list EntityDoc) : list EntityDoc :=
  match l with
  | [] => [d]
  | x :: l' =>
    if (updatedAt (edoc_metadata x) <=? updatedAt (edoc_metadata d))%Z
    then d :: l
    else x :: insertDesc d l'
  end.

Definition sortByUpdatedAtDesc (l : list EntityDoc) : list EntityDoc :=
  fold_right insertDesc [] l.

(** [{ $group: { _id: "$entityType", count: { $sum: 1 } } }]: one group
    per entity type, with the number of its documents. *)
Fixpoint bump (k : string) (acc : list (string * nat)) : list (string * nat) :=
  match acc with
  | [] => [(k, 1)]
  | (k', n) :: acc' =>
    if k' == k then (k', S n) :: acc' else (k', n) :: bump k acc'
  end.

Definition groupCount (keys : list string) : list (string * nat) :=
  fold_left (fun acc k => bump k acc) keys [].

(** The [reduce] that builds the [entityTypes] object from the groups,
    [acc[type._id] = type.count] on a plain object: every key becomes a
    property of its own but ["__proto__"], for which the assignment
    stores nothing (a number is no prototype). *)
Definition toPlainObject (groups : list (string * nat))
  : list (string * nat) :=
  filter (fun g => negb (fst g == "__proto__")) groups.

(** The [recentEntities] facet: sort, [{ $limit: 10 }]. *)
Definition recentDocs (s : Store) (userId : string) : list EntityDoc :=
  firstn 10 (sortByUpdatedAtDesc
               (find (entUserFilter userId) (entitiesCollection s))).

Definition generateSummary (s : Store) (userId : string) (now : Date)
  : GraphSummary :=
  let recent := map edoc_entityId (recentDocs s userId) in
  mkSummary
    (countDocuments (entUserFilter userId) (entitiesCollection s))
    (countDocuments (relUserFilter userId) (relationsCollection s))
    (toPlainObject
       (groupCount (map edoc_entityType
                        (find (entUserFilter userId)
                              (entitiesCollection s)))))
    recent [] recent now.

Definition summaryOfDoc (d : SummaryDoc) : GraphSummary :=
  mkSummary (sdoc_totalEntities d) (sdoc_totalRelations d)
            (sdoc_entityTypes d) (sdoc_recentEntities d)
            (sdoc_frequent_terms d) (sdoc_entity_names d) (sdoc_updatedAt d).

Definition getUserSummary (s : Store) (userId : string) (now : Date)
  : GraphSummary :=
  match findOne (idxUserFilter userId) (indexCollection s) with
  | Some d => summaryOfDoc d
  | None => generateSummary s userId now
  end.

(** The callback that [updateSummaryIndex] hands to [setImmediate], run
    for the oldest pending request. *)
Definition runSummaryUpdate (s : Store) (now : Date) : Store :=
  match pendingUpdates s with
  | [] => s
  | userId :: rest =>
    let g := generateSummary s userId now in
    mkStore (entitiesCollection s) (relationsCollection s)
            (replaceOne (idxUserFilter userId)
                        (mkSummaryDoc userId (totalEntities g)
                                      (totalRelations g) (entityTypes g)
                                      (recentEntities g) (frequent_terms g)
                                      (entity_names g) now)
                        (indexCollection s))
            rest
  end.

(* ================================================================= *)
(** ** Per-user lifecycle *)

Definition loadForUser (s : Store) (userId : string) : KnowledgeGraph :=
  mkGraph
    (map documentToEntity (find (entUserFilter userId) (entitiesCollection s)))
    (map documentToRelation
         (find (relUserFilter userId) (relationsCollection s))).

Definition existsForUser (s : Store) (userId : string) : bool :=
  0 <? countDocuments (entUserFilter userId) (entitiesCollection s).

Definition clearForUser (s : Store) (userId : string) : Store :=
  mkStore (deleteMany (entUserFilter userId) (entitiesCollection s))
          (deleteMany (relUserFilter userId) (relationsCollection s))
          (deleteMany (idxUserFilter userId) (indexCollection s))
          (pendingUpdates s).

(* ================================================================= *)
(** ** The unique indexes *)

(** [userId_entityId_unique] on the entity collection. *)
Definition entityIndexUnique (c : list EntityDoc) : Prop :=
  NoDup (map (fun d => (edoc_userId d, edoc_entityId d)) c).

(** [fromEntityId_toEntityId_unique] on the relation collection: the key
    has no [userId] member. *)
Definition relationIndexUnique (c : list RelationDoc) : Prop :=
  NoDup (map (fun d => (rdoc_fromEntityId d, rdoc_toEntityId d)) c).

(** A store on which [createIndexes] succeeded. *)
Definition indexed (s : Store) : Prop :=
  entityIndexUnique (entitiesCollection s)
  /\ relationIndexUnique (relationsCollection s).

(* ================================================================= *)
(** ** Notions used in the statements *)

(** What [getEntity] returns for an entity saved at time [now]. *)
Definition storedEntity (e : Entity) (now : Date) : Entity :=
  mkEntity (entityId e) (name e) (entityType e) (observations e)
           (Some (entityDocMetadata e now)) (Some (orEmpty (tags e)))
           (Some (generateSearchText e)).

(** The [metadata.createdAt] and [metadata.updatedAt] that a fetch shows. *)
Definition fetchedCreatedAt (s : Store) (u id : string) : option Date :=
  match getEntity s u id with
  | Some e => option_map createdAt (metadata e)
  | None => None
  end.

Definition fetchedUpdatedAt (s : Store) (u id : string) : option Date :=
  match getEntity s u id with
  | Some e => option_map updatedAt (metadata e)
  | None => None
  end.

(** [entity.metadata?.createdAt]. *)
Definition suppliedCreatedAt (e : Entity) : option Date :=
  option_map createdAt (metadata e).

(** Equality of two entities on everything but [searchText] and
    [metadata.updatedAt]. *)
Definition sameExceptSearchTextAndUpdatedAt (e e' : Entity) : Prop :=
  entityId e' = entityId e
  /\ name e' = name e
  /\ entityType e' = entityType e
  /\ observations e' = observations e
  /\ tags e' = tags e
  /\ option_map createdAt (metadata e') = option_map createdAt (metadata e)
  /\ option_map relationCount (metadata e')
     = option_map relationCount (metadata e)
  /\ option_map source (metadata e') = option_map source (metadata e).

(** [a] was updated no earlier than [b]. *)
Definition notOlder (a b : EntityDoc) : Prop :=
  (updatedAt (edoc_metadata b) <= updatedAt (edoc_metadata a))%Z.

(** The documents of one user in the three collections. *)
Definition userView (s : Store) (u : string)
  : list EntityDoc * list RelationDoc * list SummaryDoc :=
  (find (entUserFilter u) (entitiesCollection s),
   find (relUserFilter u) (relationsCollection s),
   find (idxUserFilter u) (indexCollection s)).

(** [if (entity) entities.push(entity)], as the list that is appended. *)
Definition entityList (s : Store) (u id : string) : list Entity :=
  match getEntity s u id with Some e => [e] | None => [] end.

(** The number of relation documents of the user, and the ids they
    mention. *)
Definition relCount (s : Store) (u : string) : nat :=
  countDocuments (relUserFilter u) (relationsCollection s).

Definition endpoints (s : Store) (u : string) : list string :=
  flat_map (fun d => [rdoc_fromEntityId d; rdoc_toEntityId d])
           (find (relUserFilter u) (relationsCollection s)).

(** The ids that a traversal from [eid] can ever put in its queue. *)
Definition universe (s : Store) (u eid : string) : list string :=
  nodup string_dec (eid :: endpoints s u).

(** The loop invariant behind the iteration bound. *)
Definition bounded (s : Store) (u eid : string) (st : BfsState) : Prop :=
  NoDup (visited st)
  /\ incl (visited st) (universe s u eid)
  /\ forall id cd, In (id, cd) (queue st) -> In id (universe s u eid).

(** The quantity that every iteration decreases. *)
Definition remaining (s : Store) (u eid : string) (st : BfsState) : nat :=
  (List.length (universe s u eid) - List.length (visited st))
  * S (relCount s u)
  + List.length (queue st).

(** Decidable equality of relations, to count occurrences. *)
Definition Q_eq_dec (a b : Q) : {a = b} + {a <> b}.
Proof. decide equality; [apply Pos.eq_dec | apply Z.eq_dec]. Defined.

Definition RelationMetadata_eq_dec (a b : RelationMetadata)
  : {a = b} + {a <> b}.
Proof.
  decide equality.
  - decide equality. apply Q_eq_dec.
  - decide equality. apply string_dec.
  - apply Z.eq_dec.
Defined.

Definition Relation_eq_dec (a b : Relation) : {a = b} + {a <> b}.
Proof.
  decide equality; try apply string_dec.
  - decide equality. apply RelationMetadata_eq_dec.
  - decide equality. apply Q_eq_dec.
Defined.

(** Number of occurrences of [r] in a list of relations. *)
Definition occurrences (r : Relation) (l : list Relation) : nat :=
  count_occ Relation_eq_dec l r.

(** [r] has [n] as an endpoint. *)
Definition touches (r : Relation) (n : string) : bool :=
  (fromEntityId r == n) || (toEntityId r == n).

(* ================================================================= *)
(** ** Sample data *)

(** A runtime for the examples, whose texts are ASCII: on ASCII text
    [String.prototype.toLowerCase] turns the letters [A] to [Z] into [a]
    to [z] and leaves every other character as it is. *)
Definition lowerAscii (c : ascii) : ascii :=
  let n := nat_of_ascii c in
  if (65 <=? n) && (n <=? 90) then ascii_of_nat (n + 32) else c.

Fixpoint asciiToLowerCase (s : string) : string :=
  match s with
  | EmptyString => EmptyString
  | String c s' => String (lowerAscii c) (asciiToLowerCase s')
  end.

Definition asciiRuntime : JsRuntime := mkJsRuntime asciiToLowerCase.

Definition plainEntity (id ty : string) : Entity :=
  mkEntity id id ty [] None None None.

Definition plainRelation (from ty to : string) : Relation :=
  mkRelation "" from to ty None None.

(** The store of the end-to-end scenario of the specification, once [A],
    [B] and the edge [A -visited-> B] are saved. *)
Definition scenarioStore : Store :=
  saveRelation
    (saveEntity (saveEntity emptyStore "u" (plainEntity "A" "person") 1%Z)
                "u" (plainEntity "B" "place") 2%Z)
    "u" (plainRelation "A" "visited" "B") 3%Z.

(** Three entities and the edges [A -> B], [A -> C], [B -> C]. *)
Definition triangleStore : Store :=
  saveRelation
    (saveRelation
       (saveRelation
          (saveEntitiesBatch emptyStore "u"
                             [plainEntity "A" "person";
                              plainEntity "B" "person";
                              plainEntity "C" "person"] 1%Z)
          "u" (plainRelation "A" "knows" "B") 2%Z)
       "u" (plainRelation "A" "knows" "C") 3%Z)
    "u" (plainRelation "B" "knows" "C") 4%Z.

(** A single edge from [A] to itself. *)
Definition selfLoopStore : Store :=
  saveRelation (saveEntity emptyStore "u" (plainEntity "A" "person") 1%Z)
               "u" (plainRelation "A" "self" "A") 2%Z.

(** Two persons and one entity whose type is ["__proto__"]. *)
Definition protoStore : Store :=
  saveEntitiesBatch emptyStore "u"
                    [plainEntity "A" "person";
                     plainEntity "B" "person";
                     plainEntity "C" "__proto__"] 1%Z.

(* ================================================================= *)
(** ** Further operations of the class *)

(** [distinct(field)]: the distinct values of a field, here in order of
    first occurrence (MongoDB leaves the order open). *)
Fixpoint distinct (l : list string) : list string :=
  match l with
  | [] => []
  | x :: l' => x :: filter (fun y => negb (y == x)) (distinct l')
  end.

Definition listUsers (s : Store) : list string :=
  distinct (map edoc_userId (entitiesCollection s)).

(** [{...relation, relationId: this.generateRelationId(relation)}]. *)
Definition withGeneratedId (relation : Relation) : Relation :=
  mkRelation (generateRelationId relation) (fromEntityId relation)
             (toEntityId relation) (relationType relation)
             (strength relation) (relMetadata relation).

(** The [for] loop of [saveForUser]; [clock i] is what [new Date()] gives
    inside the [saveRelation] call for the relation at position [i]. *)
Fixpoint saveRelationsFrom (s : Store) (userId : string)
         (rels : list Relation) (clock : nat -> Date) (i : nat) : Store :=
  match rels with
  | [] => s
  | r :: rels' =>
    saveRelationsFrom (saveRelation s userId (withGeneratedId r) (clock i))
                      userId rels' clock (S i)
  end.

Definition saveForUser (s : Store) (userId : string) (graph : KnowledgeGraph)
           (now : Date) (clock : nat -> Date) : Store :=
  saveRelationsFrom (saveEntitiesBatch s userId (entities graph) now)
                    userId (relations graph) clock 0.

(** The filter
    [{ $or: [{fromEntityId: {$nin: ids}}, {toEntityId: {$nin: ids}}] }]
    of [cleanup]. *)
Definition orphanFilter (ids : list string) (d : RelationDoc) : bool :=
  negb (has ids (rdoc_fromEntityId d)) || negb (has ids (rdoc_toEntityId d)).

(** [cleanup]: orphaned relations are removed, then a refresh is scheduled
    for every listed user. *)
Definition cleanup (s : Store) : Store :=
  let ids := distinct (map edoc_entityId (entitiesCollection s)) in
  let s1 := mkStore (entitiesCollection s)
                    (deleteMany (orphanFilter ids) (relationsCollection s))
                    (indexCollection s) (pendingUpdates s) in
  fold_left updateSummaryIndex (listUsers s1) s1.

(** The event loop running [n] of the callbacks queued by
    [updateSummaryIndex], oldest first; [clock i] is the time of the
    [i]-th run. *)
Fixpoint runSummaryUpdates (n : nat) (s : Store) (clock : nat -> Date)
         (i : nat) : Store :=
  match n with
  | O => s
  | S n' => runSummaryUpdates n' (runSummaryUpdate s (clock i)) clock (S i)
  end.

(** All the callbacks queued so far have run. *)
Definition drainSummaryUpdates (s : Store) (clock : nat -> Date) : Store :=
  runSummaryUpdates (List.length (pendingUpdates s)) s clock 0.

(** [userId_unique] on the index collection. *)
Definition summaryIndexUnique (c : list SummaryDoc) : Prop :=
  NoDup (map sdoc_userId c).

(** ** Notions used in the further statements *)

(** Some relation of the user joins [a] and [b], in either direction. *)
Definition adjacent (s : Store) (u a b : string) : Prop :=
  exists d, In d (relationsCollection s) /\ rdoc_userId d = u
            /\ ((rdoc_fromEntityId d = a /\ rdoc_toEntityId d = b)
                \/ (rdoc_fromEntityId d = b /\ rdoc_toEntityId d = a)).

(** [b] is reached from [a] along [n] relations of the user. *)
Inductive walk (s : Store) (u a : string) : nat -> string -> Prop :=
| walk_here : walk s u a 0 a
| walk_step : forall n p b,
    walk s u a n p -> adjacent s u p b -> walk s u a (S n) b.

(** The count that [entityTypes] holds for a type; 0 without an entry. *)
Fixpoint countFor (k : string) (acc : list (string * nat)) : nat :=
  match acc with
  | [] => 0
  | (k', n) :: acc' => if k' == k then n else countFor k acc'
  end.


(* ================================================================= *)
(** ** The storage factory that constructs the class
    ([StorageFactory] and [StorageConfigUtils]) *)

Record JsonStorageConfig := mkJsonStorageConfig {
  baseDir : string;
  createDirIfNotExists : option bool;
  backupEnabled : option bool;
  compressionEnabled : option bool
}.

Record MongoStorageConfig := mkMongoStorageConfig {
  connectionString : string;
  databaseName : option string;
  collectionName : string;
  mongoEncryptionKey : option string;
  connectionTimeout : option Z;
  maxRetries : option Z
}.

(** The [paginatedGraph] member of the configuration. *)
Record PaginatedGraphConfig := mkPaginatedGraphConfig {
  graphConnectionString : string;
  graphDatabaseName : option string;
  graphCollectionPrefix : option string
}.

(** [interface UnifiedStorageConfig]; [storageType] is its [type]
    member, any string at run time. *)
Record UnifiedStorageConfig := mkUnifiedStorageConfig {
  storageType : string;
  json : option JsonStorageConfig;
  mongodb : option MongoStorageConfig;
  paginatedGraph : option PaginatedGraphConfig;
  encryptionKey : option string;
  environment : option string
}.

(** The [defaultData] argument, as far as the factory inspects it: its
    kind and, for an object, the names of its properties. *)
Inductive JsValue :=
| JsUndefined
| JsNull
| JsBoolean (b : bool)
| JsNumber (z : Z)
| JsString (str : string)
| JsFunction
| JsObject (properties : list string).

(** The constructor calls that the factory can make. *)
Inductive StorageInstance :=
| NewJsonUserStorage (config : JsonStorageConfig)
| NewMongodbUserStorage (config : MongoStorageConfig)
| NewPaginatedGraphStorage (connection : string)
                           (database prefix : option string).

(** Truthiness of an optional string. *)
Definition truthyString (o : option string) : bool :=
  match o with
  | Some str => negb (str == "")
  | None => false
  end.

(** [defaultData && typeof defaultData === 'object' &&
     ('entities' in defaultData || 'relations' in defaultData)]. *)
Definition looksLikeGraph (defaultData : JsValue) : bool :=
  match defaultData with
  | JsObject properties => has properties "entities"
                           || has properties "relations"
  | _ => false
  end.

(** [StorageFactory.createUserStorage], up to the constructor call:
    [inl] is the constructor that is called with its arguments, [inr] the
    message of the [Error] thrown before any constructor is called. *)
Definition createUserStorage (config : UnifiedStorageConfig)
           (defaultData : JsValue) : StorageInstance + string :=
  if storageType config == "json" then
    match json config with
    | None => inr "JSON storage selected but no JSON configuration provided"
    | Some c => inl (NewJsonUserStorage c)
    end
  else if storageType config == "mongodb" then
    match mongodb config with
    | None =>
      inr "MongoDB storage selected but no MongoDB configuration provided"
    | Some c =>
      inl (NewMongodbUserStorage
             (if truthyString (encryptionKey config)
              then mkMongoStorageConfig
                     (connectionString c) (databaseName c) (collectionName c)
                     (encryptionKey config) (connectionTimeout c)
                     (maxRetries c)
              else c))
    end
  else if storageType config == "paginated-graph" then
    match paginatedGraph config with
    | None =>
      inr "Paginated graph storage selected but no configuration provided"
    | Some c =>
      if looksLikeGraph defaultData
      then inl (NewPaginatedGraphStorage (graphConnectionString c)
                                         (graphDatabaseName c)
                                         (graphCollectionPrefix c))
      else inr "Paginated graph storage only supports KnowledgeGraph data type"
    end
  else inr ("Unknown storage type: " ++ storageType config)%string.

(** [StorageConfigUtils.validateConfig]. *)
Definition validateConfig (config : UnifiedStorageConfig) : bool :=
  if storageType config == "" then false
  else if (storageType config == "mongodb")
          && negb (truthyString (option_map connectionString
                                            (mongodb config)))
  then false
  else if (storageType config == "json")
          && negb (truthyString (option_map baseDir (json config)))
  then false
  else true.

(** The names of the three collections that the constructor of
    [PaginatedGraphStorage] opens; an absent prefix is ['mcp_memory']. *)
Definition collectionNames (collectionPrefix : option string) : list string :=
  let prefix := match collectionPrefix with
                | Some p => p
                | None => "mcp_memory"
                end in
  [(prefix ++ "_entities")%string; (prefix ++ "_relations")%string;
   (prefix ++ "_index")%string].

(* ================================================================= *)
(** ** Histories of calls *)

(** A call of a write method of the class, or the run of the oldest
    queued refresh, with the clock readings it makes. *)
Inductive Operation :=
| CallSaveEntity (userId : string) (entity : Entity) (now : Date)
| CallSaveEntitiesBatch (userId : string) (es : list Entity) (now : Date)
| CallDeleteEntity (userId eid : string)
| CallSaveRelation (userId : string) (relation : Relation) (now : Date)
| CallDeleteRelation (userId from to : string)
| CallSaveForUser (userId : string) (graph : KnowledgeGraph) (now : Date)
                  (clock : nat -> Date)
| CallClearForUser (userId : string)
| CallCleanup
| RunSummaryUpdate (now : Date).

Definition perform (s : Store) (op : Operation) : Store :=
  match op with
  | CallSaveEntity u e now => saveEntity s u e now
  | CallSaveEntitiesBatch u es now => saveEntitiesBatch s u es now
  | CallDeleteEntity u id => deleteEntity s u id
  | CallSaveRelation u r now => saveRelation s u r now
  | CallDeleteRelation u a b => deleteRelation s u a b
  | CallSaveForUser u g now clock => saveForUser s u g now clock
  | CallClearForUser u => clearForUser s u
  | CallCleanup => cleanup s
  | RunSummaryUpdate now => runSummaryUpdate s now
  end.

(** The store after a history of calls on the empty store. *)
Definition storeAfter (history : list Operation) : Store :=
  fold_left perform history emptyStore.

(* ================================================================= *)
(** ** More notions and sample data for the further statements *)

(** The relation documents that [saveForUser] writes for relations on
    fresh, pairwise different ordered pairs. *)
Definition relationDocsFrom (u : string) (rels : list Relation)
           (clock : nat -> Date) (i : nat) : list RelationDoc :=
  map (fun p => relationDocument u (withGeneratedId (fst p)) (clock (snd p)))
      (combine rels (seq i (List.length rels))).

(** The summary record of [u] in [c] is what [generateSummary] computes
    on [s]. *)
Definition summaryRecordFresh (s : Store) (u : string) (c : list SummaryDoc)
  : Prop :=
  exists d t, findOne (idxUserFilter u) c = Some d
              /\ summaryOfDoc d = generateSummary s u t.

(** The depths in the queue never decrease, and exceed the first one by
    at most 1. *)
Definition ordered (q : list (string * Z)) : Prop :=
  StronglySorted Z.le (map snd q)
  /\ forall id0 c0 id cd,
      hd_error q = Some (id0, c0) -> In (id, cd) q -> (cd <= c0 + 1)%Z.

(** [id] lies [cd] relations of [u] away from [X]. *)
Definition reached (s : Store) (u X id : string) (cd : Z) : Prop :=
  exists n, cd = Z.of_nat n /\ walk s u X n id.

(** Two opposite edges between [A] and [B]. *)
Definition twoWayStore : Store :=
  saveRelation (saveRelation emptyStore "u" (plainRelation "A" "to" "B") 1%Z)
               "u" (plainRelation "B" "back" "A") 2%Z.

(** An edge of user ["u"] between ids that only user ["v"] has entities
    for, and an edge to an id that nobody has an entity for. *)
Definition crossUserStore : Store :=
  saveRelation
    (saveRelation
       (saveEntitiesBatch emptyStore "v"
                          [plainEntity "A" "x"; plainEntity "B" "x"] 1%Z)
       "u" (plainRelation "A" "kept" "B") 2%Z)
    "u" (plainRelation "A" "orphan" "Z") 3%Z.

(** The scenario store after its three queued refreshes have run. *)
Definition refreshedStore : Store :=
  drainSummaryUpdates scenarioStore (fun _ => 4%Z).

End Model.

(* ================================================================= *)
(** * Properties *)

Section Properties.
Context {runtime : JsRuntime}.

(** ** Facts about the collection primitives *)

Section CollectionFacts.
Context {A K : Type}.
Variable key : A -> K.
Variable k : K.
Variable f : A -> bool.
Hypothesis f_key : forall d, f d = true <-> key d = k.

Lemma no_match_if_key_absent (c : list A) :
  ~ In k (map key c) -> forall d, In d c -> f d = false.
Proof.
  intros Hk d Hd. destruct (f d) eqn:E; [|reflexivity].
  exfalso. apply Hk. apply f_key in E. rewrite <- E. now apply in_map.
Qed.

Lemma filter_no_match (c : list A) :
  (forall d, In d c -> f d = false) -> filter f c = [].
Proof.
  induction c as [|d c IH]; intros H; simpl; [reflexivity|].
  rewrite (H d (or_introl eq_refl)). apply IH.
  intros x Hx. apply H. now right.
Qed.

Lemma find_no_match (c : list A) :
  (forall d, In d c -> f d = false) -> List.find f c = None.
Proof.
  induction c as [|d c IH]; intros H; simpl; [reflexivity|].
  rewrite (H d (or_introl eq_refl)). apply IH.
  intros x Hx. apply H. now right.
Qed.

(** After an upsert the key is present exactly once. *)
Lemma filter_replaceOne_unique (doc : A) (c : list A) :
  key doc = k -> NoDup (map key c) ->
  filter f (replaceOne f doc c) = [doc].
Proof.
  intros Hdoc. assert (Hf : f doc = true) by now apply f_key.
  induction c as [|d c IH]; intros Hnd; simpl.
  - now rewrite Hf.
  - simpl in Hnd; apply NoDup_cons_iff in Hnd as [Hnotin Hnd'].
    destruct (f d) eqn:E; simpl.
    + rewrite Hf. f_equal. apply filter_no_match.
      apply no_match_if_key_absent.
      apply f_key in E. now rewrite <- E.
    + rewrite E. now apply IH.
Qed.

Lemma map_key_replaceOne (doc : A) (c : list A) :
  key doc = k ->
  map key (replaceOne f doc c)
  = if existsb f c then map key c else map key c ++ [k].
Proof.
  intros Hdoc. induction c as [|d c IH]; simpl.
  - now rewrite Hdoc.
  - destruct (f d) eqn:E; simpl.
    + apply f_key in E. now rewrite Hdoc, E.
    + rewrite IH. now destruct (existsb f c).
Qed.

Lemma existsb_false_key_absent (c : list A) :
  existsb f c = false -> ~ In k (map key c).
Proof.
  intros He Hin. apply in_map_iff in Hin as (d & Hd & Hin).
  apply f_key in Hd.
  assert (existsb f c = true) by (apply existsb_exists; eauto).
  congruence.
Qed.

(** An upsert keeps a unique index unique. *)
Lemma replaceOne_keeps_unique (doc : A) (c : list A) :
  key doc = k -> NoDup (map key c) -> NoDup (map key (replaceOne f doc c)).
Proof.
  intros Hdoc Hnd. rewrite map_key_replaceOne by assumption.
  destruct (existsb f c) eqn:E; [assumption|].
  apply NoDup_app; [assumption | repeat constructor; intros [] | ].
  intros x Hx [<-|[]]. now apply existsb_false_key_absent in Hx.
Qed.

Lemma find_replaceOne_same (doc : A) (c : list A) :
  key doc = k -> List.find f (replaceOne f doc c) = Some doc.
Proof.
  intros Hdoc. assert (Hf : f doc = true) by now apply f_key.
  induction c as [|d c IH]; simpl.
  - now rewrite Hf.
  - destruct (f d) eqn:E; simpl; [now rewrite Hf | now rewrite E].
Qed.

Lemma find_deleteOne_unique (c : list A) :
  NoDup (map key c) -> List.find f (deleteOne f c) = None.
Proof.
  induction c as [|d c IH]; intros Hnd; simpl; [reflexivity|].
  simpl in Hnd; apply NoDup_cons_iff in Hnd as [Hnotin Hnd'].
  destruct (f d) eqn:E; simpl.
  - apply find_no_match. apply no_match_if_key_absent.
    apply f_key in E. now rewrite <- E.
  - rewrite E. now apply IH.
Qed.

Lemma replaceOne_twice (doc1 doc2 : A) (c : list A) :
  key doc1 = k ->
  replaceOne f doc2 (replaceOne f doc1 c) = replaceOne f doc2 c.
Proof.
  intros Hdoc. assert (Hf : f doc1 = true) by now apply f_key.
  induction c as [|d c IH]; simpl.
  - now rewrite Hf.
  - destruct (f d) eqn:E; simpl; [now rewrite Hf | now rewrite E, IH].
Qed.
End CollectionFacts.

Section CollectionFrame.
Context {A : Type}.
Variables f g : A -> bool.
Hypothesis disjoint : forall d, f d = true -> g d = false.

(** Writes selected by [f] are invisible to reads selected by [g]. *)
Lemma filter_replaceOne_other (doc : A) (c : list A) :
  g doc = false -> filter g (replaceOne f doc c) = filter g c.
Proof.
  intros Hdoc. induction c as [|d c IH]; simpl.
  - now rewrite Hdoc.
  - destruct (f d) eqn:E; simpl.
    + now rewrite Hdoc, (disjoint d E).
    + now rewrite IH.
Qed.

Lemma find_replaceOne_other (doc : A) (c : list A) :
  g doc = false -> List.find g (replaceOne f doc c) = List.find g c.
Proof.
  intros Hdoc. induction c as [|d c IH]; simpl.
  - now rewrite Hdoc.
  - destruct (f d) eqn:E; simpl.
    + now rewrite Hdoc, (disjoint d E).
    + now rewrite IH.
Qed.

Lemma filter_deleteOne_other (c : list A) :
  filter g (deleteOne f c) = filter g c.
Proof.
  induction c as [|d c IH]; simpl; [reflexivity|].
  destruct (f d) eqn:E; simpl.
  - now rewrite (disjoint d E).
  - now rewrite IH.
Qed.

Lemma filter_deleteMany_other (c : list A) :
  filter g (deleteMany f c) = filter g c.
Proof.
  unfold deleteMany. induction c as [|d c IH]; simpl; [reflexivity|].
  destruct (f d) eqn:E; simpl.
  - now rewrite (disjoint d E).
  - now rewrite IH.
Qed.
End CollectionFrame.

Lemma length_replaceOne {A} (f : A -> bool) (doc : A) (c : list A) :
  List.length (replaceOne f doc c)
  = if existsb f c then List.length c else S (List.length c).
Proof.
  induction c as [|d c IH]; simpl; [reflexivity|].
  destruct (f d); simpl; [reflexivity|].
  rewrite IH. now destruct (existsb f c).
Qed.

Lemma existsb_replaceOne {A} (f : A -> bool) (doc : A) (c : list A) :
  f doc = true -> existsb f (replaceOne f doc c) = true.
Proof.
  intros Hf. induction c as [|d c IH]; simpl.
  - now rewrite Hf.
  - destruct (f d) eqn:E; simpl; [now rewrite Hf | now rewrite E].
Qed.

Lemma NoDup_map_filter {A K} (key : A -> K) (g : A -> bool) (c : list A) :
  NoDup (map key c) -> NoDup (map key (filter g c)).
Proof.
  induction c as [|d c IH]; intros Hnd; simpl; [constructor|].
  simpl in Hnd; apply NoDup_cons_iff in Hnd as [Hnotin Hnd'].
  destruct (g d); simpl; [|now apply IH].
  constructor; [|now apply IH].
  intros Hin. apply Hnotin. apply in_map_iff in Hin as (x & Hx & Hin).
  apply filter_In in Hin as [Hin _]. rewrite <- Hx. now apply in_map.
Qed.

Lemma In_deleteOne {A} (f : A -> bool) (c : list A) (x : A) :
  In x (deleteOne f c) -> In x c.
Proof.
  induction c as [|d c IH]; simpl; [tauto|].
  destruct (f d); simpl; intuition.
Qed.

Lemma NoDup_map_deleteOne {A K} (key : A -> K) (f : A -> bool) (c : list A) :
  NoDup (map key c) -> NoDup (map key (deleteOne f c)).
Proof.
  induction c as [|d c IH]; intros Hnd; simpl; [constructor|].
  simpl in Hnd; apply NoDup_cons_iff in Hnd as [Hnotin Hnd'].
  destruct (f d); simpl; [assumption|].
  constructor; [|now apply IH].
  intros Hin. apply Hnotin. apply in_map_iff in Hin as (x & Hx & Hin).
  apply In_deleteOne in Hin. rewrite <- Hx. now apply in_map.
Qed.

(** ** The filters as key tests *)

Lemma entityFilter_key (u id : string) (d : EntityDoc) :
  entityFilter u id d = true <-> (edoc_userId d, edoc_entityId d) = (u, id).
Proof.
  unfold entityFilter. rewrite andb_true_iff, !String.eqb_eq.
  split; [intros [-> ->]; reflexivity | intros [= -> ->]; auto].
Qed.

Lemma pairFilter_key (a b : string) (d : RelationDoc) :
  pairFilter a b d = true
  <-> (rdoc_fromEntityId d, rdoc_toEntityId d) = (a, b).
Proof.
  unfold pairFilter. rewrite andb_true_iff, !String.eqb_eq.
  split; [intros [-> ->]; reflexivity | intros [= -> ->]; auto].
Qed.

Lemma touchingFilter_spec (u id : string) (d : RelationDoc) :
  touchingFilter u id d = true
  <-> rdoc_userId d = u
      /\ (rdoc_fromEntityId d = id \/ rdoc_toEntityId d = id).
Proof.
  unfold touchingFilter.
  now rewrite andb_true_iff, orb_true_iff, !String.eqb_eq.
Qed.

Lemma entityDocument_key (u : string) (e : Entity) (now : Date) :
  (edoc_userId (entityDocument u e now), edoc_entityId (entityDocument u e now))
  = (u, entityId e).
Proof. reflexivity. Qed.

Lemma relationDocument_key (u : string) (r : Relation) (now : Date) :
  (rdoc_fromEntityId (relationDocument u r now),
   rdoc_toEntityId (relationDocument u r now))
  = (fromEntityId r, toEntityId r).
Proof. reflexivity. Qed.

(** ** The unique indexes are invariants of every write *)

Lemma indexed_empty : indexed emptyStore.
Proof. split; constructor. Qed.

Lemma indexed_updateSummaryIndex (s : Store) (u : string) :
  indexed s -> indexed (updateSummaryIndex s u).
Proof. intros H; exact H. Qed.

Lemma indexed_saveEntity (s : Store) (u : string) (e : Entity) (now : Date) :
  indexed s -> indexed (saveEntity s u e now).
Proof.
  intros [He Hr]. split; [|exact Hr]. simpl.
  apply (replaceOne_keeps_unique _ (u, entityId e));
    auto using entityFilter_key.
Qed.

Lemma entityIndexUnique_bulkReplace (u : string) (now : Date)
      (es : list Entity) (c : list EntityDoc) :
  entityIndexUnique c -> entityIndexUnique (bulkReplace u now es c).
Proof.
  unfold bulkReplace. revert c.
  induction es as [|e es IH]; intros c Hc; simpl; [assumption|].
  apply IH.
  apply (replaceOne_keeps_unique _ (u, entityId e));
    auto using entityFilter_key.
Qed.

Lemma indexed_saveEntitiesBatch (s : Store) (u : string) (es : list Entity)
      (now : Date) :
  indexed s -> indexed (saveEntitiesBatch s u es now).
Proof.
  intros [He Hr]. destruct es as [|e es]; [now split|].
  split; [|exact Hr]. now apply entityIndexUnique_bulkReplace.
Qed.

Lemma indexed_deleteEntity (s : Store) (u id : string) :
  indexed s -> indexed (deleteEntity s u id).
Proof.
  intros [He Hr]. split; simpl.
  - now apply NoDup_map_deleteOne.
  - now apply NoDup_map_filter.
Qed.

Lemma indexed_saveRelation (s : Store) (u : string) (r : Relation)
      (now : Date) :
  indexed s -> indexed (saveRelation s u r now).
Proof.
  intros [He Hr]. split; [exact He|]. simpl.
  apply (replaceOne_keeps_unique _ (fromEntityId r, toEntityId r));
    auto using pairFilter_key.
Qed.

Lemma indexed_deleteRelation (s : Store) (u a b : string) :
  indexed s -> indexed (deleteRelation s u a b).
Proof.
  intros [He Hr]. split; [exact He|]. simpl. now apply NoDup_map_deleteOne.
Qed.

Lemma indexed_clearForUser (s : Store) (u : string) :
  indexed s -> indexed (clearForUser s u).
Proof.
  intros [He Hr]. split; simpl; now apply NoDup_map_filter.
Qed.

Lemma indexed_runSummaryUpdate (s : Store) (now : Date) :
  indexed s -> indexed (runSummaryUpdate s now).
Proof.
  intros H. unfold runSummaryUpdate. now destruct (pendingUpdates s).
Qed.

(* ================================================================= *)
(** ** Relations are keyed by their ordered pair of endpoints *)

(** C1.  On a store whose unique indexes hold, saving [r1] and then [r2]
    for the same user, where both have the same [fromEntityId] and
    [toEntityId], leaves exactly one stored edge for that ordered pair:
    the document of [r2].  The second save adds no document and erases
    every trace of the first (the resulting collection is the one that
    saving [r2] alone produces), so the stored [relationType] is that of
    [r2]: unchanged when the types agree, overwritten when they differ.
    Saving the very same relation again at the same instant, or with a
    caller-supplied [createdAt], leaves the collection as it was. *)
Theorem saveRelation_keyed_by_endpoint_pair
        (s : Store) (u : string) (r1 r2 : Relation) (now1 now2 : Date) :
  indexed s ->
  fromEntityId r1 = fromEntityId r2 ->
  toEntityId r1 = toEntityId r2 ->
  let s1 := saveRelation s u r1 now1 in
  let s2 := saveRelation s1 u r2 now2 in
  find (pairFilter (fromEntityId r1) (toEntityId r1)) (relationsCollection s2)
  = [relationDocument u r2 now2]
  /\ countDocuments (pairFilter (fromEntityId r1) (toEntityId r1))
                    (relationsCollection s2) = 1
  /\ List.length (relationsCollection s2) = List.length (relationsCollection s1)
  /\ relationsCollection s2 = relationsCollection (saveRelation s u r2 now2)
  /\ (relationType r1 = relationType r2 ->
      forall d, In d (relationsCollection s2) ->
                pairFilter (fromEntityId r1) (toEntityId r1) d = true ->
                rdoc_relationType d = relationType r1)
  /\ (relationType r1 <> relationType r2 ->
      forall d, In d (relationsCollection s2) ->
                pairFilter (fromEntityId r1) (toEntityId r1) d = true ->
                rdoc_relationType d = relationType r2
                /\ rdoc_relationType d <> relationType r1)
  /\ (r1 = r2 -> (now1 = now2 \/ relMetadata r1 <> None) ->
      relationsCollection s2 = relationsCollection s1).
Proof.
  intros Hidx Hfrom Hto s1 s2.
  assert (Hidx1 : indexed s1) by now apply indexed_saveRelation.
  assert (Hone :
    find (pairFilter (fromEntityId r1) (toEntityId r1)) (relationsCollection s2)
    = [relationDocument u r2 now2]).
  { subst s2. simpl. rewrite <- Hfrom, <- Hto.
    apply (filter_replaceOne_unique
             (fun d => (rdoc_fromEntityId d, rdoc_toEntityId d))
             (fromEntityId r1, toEntityId r1)).
    - apply pairFilter_key.
    - simpl. now rewrite Hfrom, Hto.
    - apply Hidx1. }
  assert (Hin : forall d, In d (relationsCollection s2) ->
                pairFilter (fromEntityId r1) (toEntityId r1) d = true ->
                d = relationDocument u r2 now2).
  { intros d Hd Hp.
    assert (In d (find (pairFilter (fromEntityId r1) (toEntityId r1))
                       (relationsCollection s2)))
      by (apply filter_In; auto).
    rewrite Hone in H. now destruct H as [<-|[]]. }
  repeat split.
  - exact Hone.
  - unfold countDocuments. fold (find (pairFilter (fromEntityId r1)
      (toEntityId r1)) (relationsCollection s2)). now rewrite Hone.
  - subst s2 s1. simpl. rewrite length_replaceOne.
    rewrite <- Hfrom, <- Hto, existsb_replaceOne; [reflexivity|].
    now apply pairFilter_key.
  - subst s2 s1. simpl. rewrite <- Hfrom, <- Hto.
    apply (replaceOne_twice
             (fun d => (rdoc_fromEntityId d, rdoc_toEntityId d))
             (fromEntityId r1, toEntityId r1)); auto using pairFilter_key.
  - intros Hty d Hd Hp. rewrite (Hin d Hd Hp). simpl. congruence.
  - rewrite (Hin d H0 H1). reflexivity.
  - rewrite (Hin d H0 H1). simpl. congruence.
  - intros <- Hsame. subst s2 s1. simpl.
    assert (Hdoc : relationDocument u r1 now2 = relationDocument u r1 now1).
    { unfold relationDocument, relationDocMetadata.
      destruct Hsame as [->|Hm]; [reflexivity|].
      destruct (relMetadata r1); [reflexivity|congruence]. }
    rewrite Hdoc.
    rewrite (replaceOne_twice
               (fun d => (rdoc_fromEntityId d, rdoc_toEntityId d))
               (fromEntityId r1, toEntityId r1));
      auto using pairFilter_key.
Qed.

(* ================================================================= *)
(** ** Saving and fetching an entity *)

Lemma getEntity_saveEntity (s : Store) (u : string) (e : Entity) (now : Date) :
  getEntity (saveEntity s u e now) u (entityId e) = Some (storedEntity e now).
Proof.
  unfold getEntity, findOne. simpl.
  rewrite (find_replaceOne_same
             (fun d => (edoc_userId d, edoc_entityId d)) (u, entityId e));
    auto using entityFilter_key.
Qed.

Lemma entityFilter_other_id (u id id' : string) (d : EntityDoc) :
  id <> id' -> entityFilter u id' d = true -> entityFilter u id d = false.
Proof.
  intros Hne H. apply entityFilter_key in H. injection H as Hu Hid.
  unfold entityFilter. rewrite Hid.
  apply String.eqb_neq in Hne. rewrite String.eqb_sym in Hne.
  rewrite Hne. apply andb_false_r.
Qed.

Lemma findOne_bulkReplace_other (u id : string) (now : Date)
      (es : list Entity) (c : list EntityDoc) :
  (forall e, In e es -> entityId e <> id) ->
  findOne (entityFilter u id) (bulkReplace u now es c)
  = findOne (entityFilter u id) c.
Proof.
  unfold bulkReplace, findOne. revert c.
  induction es as [|e es IH]; intros c Hes; simpl; [reflexivity|].
  rewrite IH by (intros x Hx; apply Hes; now right).
  assert (Hne : id <> entityId e)
    by (intros ->; now apply (Hes e (or_introl eq_refl))).
  apply find_replaceOne_other.
  - intros d. now apply entityFilter_other_id.
  - apply (entityFilter_other_id u id (entityId e)); [assumption|].
    now apply entityFilter_key.
Qed.

Lemma getEntity_saveEntitiesBatch (s : Store) (u : string)
      (before after : list Entity) (e : Entity) (now : Date) :
  (forall e', In e' after -> entityId e' <> entityId e) ->
  getEntity (saveEntitiesBatch s u (before ++ e :: after) now) u (entityId e)
  = Some (storedEntity e now).
Proof.
  intros Hlast. unfold saveEntitiesBatch.
  destruct (before ++ e :: after) eqn:E; [now destruct before|].
  rewrite <- E. unfold getEntity. simpl.
  unfold bulkReplace. rewrite fold_left_app. simpl.
  fold (bulkReplace u now before (entitiesCollection s)).
  set (c1 := bulkReplace u now before (entitiesCollection s)).
  fold (bulkReplace u now after
          (replaceOne (entityFilter u (entityId e))
                      (entityDocument u e now) c1)).
  rewrite findOne_bulkReplace_other by assumption.
  unfold findOne.
  rewrite (find_replaceOne_same
             (fun d => (edoc_userId d, edoc_entityId d)) (u, entityId e));
    auto using entityFilter_key.
Qed.

(** C3, amended.  After [saveEntity(u, e)] at time [now] the stored
    [metadata.createdAt] is the one the caller supplied in [e.metadata],
    and [now] when the caller supplied none, whether or not an entity was
    stored before; so a stored creation time [t] survives the save when
    the caller hands it back.  [metadata.updatedAt] is [now] in every
    case. *)
Theorem saveEntity_createdAt_from_caller
        (s : Store) (u : string) (e : Entity) (now : Date) :
  let s' := saveEntity s u e now in
  fetchedCreatedAt s' u (entityId e)
  = Some (match suppliedCreatedAt e with Some t => t | None => now end)
  /\ (forall t, fetchedCreatedAt s u (entityId e) = Some t ->
                suppliedCreatedAt e = Some t ->
                fetchedCreatedAt s' u (entityId e) = Some t)
  /\ (fetchedCreatedAt s u (entityId e) = None ->
      suppliedCreatedAt e = None ->
      fetchedCreatedAt s' u (entityId e) = Some now)
  /\ fetchedUpdatedAt s' u (entityId e) = Some now.
Proof.
  intros s'. subst s'.
  unfold fetchedCreatedAt, fetchedUpdatedAt, suppliedCreatedAt.
  rewrite getEntity_saveEntity. simpl. unfold entityDocMetadata.
  destruct (metadata e) as [m|]; simpl.
  - repeat split; intros; congruence.
  - repeat split; intros; congruence.
Qed.

(** C7, amended.  An entity saved by [saveEntity], or saved by
    [saveEntitiesBatch] as the last entity of the batch with its id, and
    then fetched by [(userId, entityId)] has the [entityId], [name],
    [entityType] and [observations] of [e]; its [tags] are those of [e],
    or the empty list when [e] has none; its [metadata] is that of [e]
    with [updatedAt] set to the time of the save, and with [createdAt]
    set to that time too when [e] has no metadata; its [searchText] is
    the lower-cased, space-joined [name], [entityType], [observations]
    and [tags], whatever [searchText] the caller supplied.  When [e]
    comes with both [metadata] and [tags], the fetched entity equals [e]
    except for [searchText] and [metadata.updatedAt].  [updatedAt] is at
    least any time that is not after the save. *)
Theorem save_then_fetch_entity
        (s : Store) (u : string) (e : Entity) (now : Date)
        (before after : list Entity) :
  (forall e', In e' after -> entityId e' <> entityId e) ->
  let fetched := storedEntity e now in
  getEntity (saveEntity s u e now) u (entityId e) = Some fetched
  /\ getEntity (saveEntitiesBatch s u (before ++ e :: after) now)
               u (entityId e) = Some fetched
  /\ entityId fetched = entityId e
  /\ name fetched = name e
  /\ entityType fetched = entityType e
  /\ observations fetched = observations e
  /\ tags fetched = Some (orEmpty (tags e))
  /\ metadata fetched = Some (entityDocMetadata e now)
  /\ searchText fetched
     = Some (toLowerCase
               (join ([name e; entityType e] ++ observations e
                        ++ orEmpty (tags e))))
  /\ searchText fetched
     = searchText (storedEntity
                     (mkEntity (entityId e) (name e) (entityType e)
                               (observations e) (metadata e) (tags e) None)
                     now)
  /\ (metadata e <> None -> tags e <> None ->
      sameExceptSearchTextAndUpdatedAt e fetched)
  /\ option_map updatedAt (metadata fetched) = Some now
  /\ (forall t, (t <= now)%Z ->
                exists t', option_map updatedAt (metadata fetched) = Some t'
                           /\ (t <= t')%Z).
Proof.
  intros Hlast fetched. subst fetched.
  split; [apply getEntity_saveEntity|].
  split; [now apply getEntity_saveEntitiesBatch|].
  assert (Hupd : option_map updatedAt (metadata (storedEntity e now))
                 = Some now).
  { simpl. unfold entityDocMetadata. now destruct (metadata e). }
  repeat match goal with |- _ /\ _ => split end;
    try reflexivity; try exact Hupd.
  - intros Hm Ht. unfold sameExceptSearchTextAndUpdatedAt. simpl.
    unfold entityDocMetadata.
    destruct (metadata e) as [m|]; [|congruence].
    destruct (tags e) as [ts|]; [|congruence].
    simpl. repeat split.
  - intros t Ht. exists now. split; [exact Hupd | exact Ht].
Qed.

(* ================================================================= *)
(** ** Deleting an entity *)

Lemma unique_key_inj {A K} (key : A -> K) (c : list A) (d d' : A) :
  NoDup (map key c) -> In d c -> In d' c -> key d = key d' -> d = d'.
Proof.
  induction c as [|x c IH]; intros Hnd Hd Hd' Hk; [destruct Hd|].
  simpl in Hnd. apply NoDup_cons_iff in Hnd as [Hnotin Hnd].
  destruct Hd as [->|Hd], Hd' as [->|Hd'].
  - reflexivity.
  - exfalso. apply Hnotin. rewrite Hk. now apply in_map.
  - exfalso. apply Hnotin. rewrite <- Hk. now apply in_map.
  - now apply IH.
Qed.

(** C4.  On a store whose unique indexes hold, after [deleteEntity(u, E)]
    no relation document of user [u] has [E] as [fromEntityId] or
    [toEntityId]; [getRelations(u, E)] is the empty list and
    [getEntity(u, E)] is the not-found result. *)
Theorem deleteEntity_cascades (s : Store) (u E : string) :
  indexed s ->
  let s' := deleteEntity s u E in
  (forall d, In d (relationsCollection s') -> rdoc_userId d = u ->
             rdoc_fromEntityId d <> E /\ rdoc_toEntityId d <> E)
  /\ getRelations s' u E = []
  /\ getEntity s' u E = None.
Proof.
  intros [He _] s'.
  assert (Hgone : forall d, In d (relationsCollection s') ->
                            touchingFilter u E d = false).
  { intros d Hd. subst s'. simpl in Hd. unfold deleteMany in Hd.
    apply filter_In in Hd as [_ Hd]. now apply negb_true_iff in Hd. }
  split; [|split].
  - intros d Hd Hu. specialize (Hgone d Hd).
    split; intros Heq;
      (assert (touchingFilter u E d = true)
        by (apply touchingFilter_spec; auto)); congruence.
  - unfold getRelations, find. now rewrite filter_no_match.
  - unfold getEntity, findOne. subst s'. simpl.
    rewrite (find_deleteOne_unique
               (fun d => (edoc_userId d, edoc_entityId d)) (u, E));
      auto using entityFilter_key.
Qed.

Lemma indexed_scenarioStore : indexed scenarioStore.
Proof.
  unfold scenarioStore.
  auto using indexed_saveRelation, indexed_saveEntity, indexed_empty.
Qed.

(* ================================================================= *)
(** ** Absence is a result, not an exception *)

Lemma documentToEntity_id (d : EntityDoc) :
  entityId (documentToEntity d) = edoc_entityId d.
Proof. reflexivity. Qed.

(** C9.  [getEntity], [getRelations] and [getEntitiesBatch] are total:
    [getEntity(u, id)] is the not-found result when no entity document
    has [(u, id)]; [getRelations(u, id)] is the empty list when no
    relation of [u] touches [id]; on a store whose unique indexes hold,
    [getEntitiesBatch(u, ids)] holds exactly the entities that
    [getEntity(u, id)] finds for some [id] of [ids], and nothing stands
    in the result for an [id] that [getEntity] does not find. *)
Theorem get_operations_absence (s : Store) (u : string) :
  (forall id,
      (forall d, In d (entitiesCollection s) ->
                 ~ (edoc_userId d = u /\ edoc_entityId d = id)) ->
      getEntity s u id = None)
  /\ (forall id,
         (forall d, In d (relationsCollection s) -> rdoc_userId d = u ->
                    rdoc_fromEntityId d <> id /\ rdoc_toEntityId d <> id) ->
         getRelations s u id = [])
  /\ (indexed s ->
      forall ids e,
        In e (getEntitiesBatch s u ids)
        <-> exists id, In id ids /\ getEntity s u id = Some e)
  /\ (forall ids id,
         getEntity s u id = None ->
         forall e, In e (getEntitiesBatch s u ids) -> entityId e <> id).
Proof.
  split; [|split; [|split]].
  - intros id Habs. unfold getEntity, findOne.
    rewrite find_no_match; [reflexivity|].
    intros d Hd. destruct (entityFilter u id d) eqn:E; [|reflexivity].
    apply entityFilter_key in E. injection E as Hu Hid.
    exfalso. now apply (Habs d Hd).
  - intros id Habs. unfold getRelations, find.
    rewrite filter_no_match; [reflexivity|].
    intros d Hd. destruct (touchingFilter u id d) eqn:E; [|reflexivity].
    apply touchingFilter_spec in E as [Hu Hends].
    destruct (Habs d Hd Hu) as [Hf Ht]. now destruct Hends.
  - intros [He _] ids e. unfold getEntitiesBatch, getEntity, find, findOne.
    rewrite in_map_iff. split.
    + intros (d & <- & Hd). apply filter_In in Hd as [Hd Hf].
      unfold batchFilter in Hf. apply andb_true_iff in Hf as [Hu Hin].
      apply String.eqb_eq in Hu.
      apply existsb_exists in Hin as (id & Hid & Heq).
      apply String.eqb_eq in Heq.
      exists id. split; [assumption|].
      destruct (List.find (entityFilter u id) (entitiesCollection s))
        as [d'|] eqn:F.
      * apply find_some in F as [Hd' Hf'].
        apply entityFilter_key in Hf'. simpl.
        rewrite (unique_key_inj
                   (fun d => (edoc_userId d, edoc_entityId d))
                   (entitiesCollection s) d d'); auto.
        now rewrite Hf', Hu, Heq.
      * exfalso.
        assert (entityFilter u id d = true)
          by (apply entityFilter_key; now rewrite Hu, Heq).
        pose proof (find_none _ _ F d Hd). congruence.
    + intros (id & Hid & Hget).
      destruct (List.find (entityFilter u id) (entitiesCollection s))
        as [d|] eqn:F; [|discriminate].
      injection Hget as <-. exists d. split; [reflexivity|].
      apply find_some in F as [Hd Hf]. apply filter_In. split; [assumption|].
      apply entityFilter_key in Hf. injection Hf as Hu Heq.
      unfold batchFilter. rewrite Hu, String.eqb_refl. simpl.
      apply existsb_exists. exists id. split; [assumption|].
      rewrite Heq. apply String.eqb_refl.
  - intros ids id Hnone e He Heq.
    unfold getEntitiesBatch, find in He.
    apply in_map_iff in He as (d & <- & Hd).
    apply filter_In in Hd as [Hd Hf].
    unfold batchFilter in Hf. apply andb_true_iff in Hf as [Hu _].
    apply String.eqb_eq in Hu. rewrite documentToEntity_id in Heq.
    unfold getEntity, findOne in Hnone.
    destruct (List.find (entityFilter u id) (entitiesCollection s)) eqn:F;
      [discriminate|].
    assert (entityFilter u id d = true)
      by (apply entityFilter_key; now rewrite Hu, Heq).
    pose proof (find_none _ _ F d Hd). congruence.
Qed.

(* ================================================================= *)
(** ** The summary *)

Lemma insertDesc_perm (d : EntityDoc) (l : list EntityDoc) :
  Permutation (insertDesc d l) (d :: l).
Proof.
  induction l as [|x l IH]; simpl; [reflexivity|].
  destruct (updatedAt (edoc_metadata x) <=? updatedAt (edoc_metadata d))%Z.
  - reflexivity.
  - rewrite IH. apply perm_swap.
Qed.

Lemma sortByUpdatedAtDesc_perm (l : list EntityDoc) :
  Permutation (sortByUpdatedAtDesc l) l.
Proof.
  induction l as [|x l IH]; simpl; [reflexivity|].
  rewrite insertDesc_perm. now constructor.
Qed.

Lemma insertDesc_sorted (d : EntityDoc) (l : list EntityDoc) :
  StronglySorted notOlder l -> StronglySorted notOlder (insertDesc d l).
Proof.
  induction l as [|x l IH]; intros Hs; simpl.
  - repeat constructor.
  - inversion Hs as [|? ? Hs' Hall]; subst.
    destruct (updatedAt (edoc_metadata x) <=? updatedAt (edoc_metadata d))%Z
      eqn:E.
    + apply Z.leb_le in E. constructor; [assumption|].
      constructor; [exact E|].
      eapply Forall_impl; [|exact Hall].
      intros y Hy. unfold notOlder in *. lia.
    + apply Z.leb_gt in E. constructor; [now apply IH|].
      eapply Permutation_Forall; [symmetry; apply insertDesc_perm|].
      constructor; [unfold notOlder; lia | assumption].
Qed.

Lemma sortByUpdatedAtDesc_sorted (l : list EntityDoc) :
  StronglySorted notOlder (sortByUpdatedAtDesc l).
Proof.
  induction l as [|x l IH]; simpl; [constructor|].
  now apply insertDesc_sorted.
Qed.

Lemma In_firstn {A} (n : nat) (l : list A) (x : A) :
  In x (firstn n l) -> In x l.
Proof.
  revert l. induction n as [|n IH]; intros [|y l]; simpl; try tauto.
  intros [->|H]; [now left | right; now apply IH].
Qed.

Lemma StronglySorted_firstn {A} (R : A -> A -> Prop) (n : nat) (l : list A) :
  StronglySorted R l -> StronglySorted R (firstn n l).
Proof.
  revert l. induction n as [|n IH]; intros l Hs; [constructor|].
  destruct l as [|x l]; [constructor|]. simpl.
  inversion Hs as [|? ? Hs' Hall]; subst.
  constructor; [now apply IH|].
  apply Forall_forall. intros y Hy. apply In_firstn in Hy.
  revert y Hy. now apply Forall_forall.
Qed.

Lemma StronglySorted_app_order {A} (R : A -> A -> Prop) (l1 l2 : list A) :
  StronglySorted R (l1 ++ l2) ->
  forall a b, In a l1 -> In b l2 -> R a b.
Proof.
  induction l1 as [|x l1 IH]; intros Hs a b Ha Hb; [destruct Ha|].
  simpl in Hs. inversion Hs as [|? ? Hs' Hall]; subst.
  destruct Ha as [->|Ha]; [|now apply IH].
  rewrite Forall_forall in Hall. apply Hall. apply in_or_app. now right.
Qed.

(** The documents behind [recentEntities]: at most ten, newest first,
    all of the user, and none of the user's other documents is newer. *)
Lemma recentDocs_spec (s : Store) (u : string) :
  List.length (recentDocs s u) <= 10
  /\ StronglySorted notOlder (recentDocs s u)
  /\ (forall d, In d (recentDocs s u) ->
                In d (entitiesCollection s) /\ edoc_userId d = u)
  /\ (forall d d', In d (recentDocs s u) ->
                   In d' (entitiesCollection s) -> edoc_userId d' = u ->
                   ~ In d' (recentDocs s u) -> notOlder d d').
Proof.
  unfold recentDocs.
  set (mine := find (entUserFilter u) (entitiesCollection s)).
  pose proof (sortByUpdatedAtDesc_sorted mine) as Hs.
  pose proof (sortByUpdatedAtDesc_perm mine) as Hp.
  split; [apply firstn_le_length|].
  split; [now apply StronglySorted_firstn|].
  split.
  - intros d Hd. apply In_firstn in Hd.
    apply (Permutation_in _ Hp) in Hd. subst mine. unfold find in Hd.
    apply filter_In in Hd as [Hd Hu]. split; [assumption|].
    now apply String.eqb_eq in Hu.
  - intros d d' Hd Hd' Hu Hnot.
    assert (Hin : In d' (sortByUpdatedAtDesc mine)).
    { apply (Permutation_in _ (Permutation_sym Hp)). subst mine.
      apply filter_In. split; [assumption|]. now apply String.eqb_eq. }
    rewrite <- (firstn_skipn 10 (sortByUpdatedAtDesc mine)) in Hin, Hs.
    apply in_app_or in Hin as [Hin|Hin]; [contradiction|].
    now apply (StronglySorted_app_order _ _ _ Hs).
Qed.

(** C8.  [getUserSummary(u)] returns the fields of the cached summary
    record when the index collection has one for [u].  Without one it
    returns the summary computed on the spot by [generateSummary]: its
    [totalEntities] and [totalRelations] are the numbers of entities and
    relations that [loadForUser(u)] returns, and its [recentEntities] are
    the ids of at most ten entity documents of [u], ordered by
    [metadata.updatedAt] descending, no other document of [u] being
    newer than any of them. *)
Theorem getUserSummary_cached_or_fresh (s : Store) (u : string) (now : Date) :
  (forall d, findOne (idxUserFilter u) (indexCollection s) = Some d ->
             getUserSummary s u now = summaryOfDoc d)
  /\ (findOne (idxUserFilter u) (indexCollection s) = None ->
      let g := getUserSummary s u now in
      g = generateSummary s u now
      /\ totalEntities g = List.length (entities (loadForUser s u))
      /\ totalRelations g = List.length (relations (loadForUser s u))
      /\ List.length (recentEntities g) <= 10
      /\ recentEntities g = map edoc_entityId (recentDocs s u)
      /\ StronglySorted notOlder (recentDocs s u)
      /\ (forall d, In d (recentDocs s u) ->
                    In d (entitiesCollection s) /\ edoc_userId d = u)
      /\ (forall d d', In d (recentDocs s u) ->
                       In d' (entitiesCollection s) -> edoc_userId d' = u ->
                       ~ In d' (recentDocs s u) -> notOlder d d')).
Proof.
  unfold getUserSummary. split.
  - intros d ->. reflexivity.
  - intros ->. simpl.
    destruct (recentDocs_spec s u) as (Hlen & Hs & Hmine & Htop).
    unfold countDocuments, find. rewrite !length_map.
    split; [reflexivity|]. split; [reflexivity|]. split; [reflexivity|].
    split; [assumption|]. split; [reflexivity|]. split; [assumption|].
    split; assumption.
Qed.

(** Once the refresh scheduled for [u] has run, and until the next write,
    the cached summary is the one [generateSummary] computed. *)
Lemma getUserSummary_after_refresh (s : Store) (u : string)
      (rest : list string) (t now : Date) :
  pendingUpdates s = u :: rest ->
  let g := getUserSummary (runSummaryUpdate s t) u now in
  totalEntities g = List.length (entities (loadForUser s u))
  /\ totalRelations g = List.length (relations (loadForUser s u))
  /\ recentEntities g = map edoc_entityId (recentDocs s u).
Proof.
  intros Hp. unfold getUserSummary, runSummaryUpdate. rewrite Hp. simpl.
  unfold findOne.
  rewrite (find_replaceOne_same sdoc_userId u).
  - simpl. unfold countDocuments, find. now rewrite !length_map.
  - intros d. unfold idxUserFilter. apply String.eqb_eq.
  - reflexivity.
Qed.

(* ================================================================= *)
(** ** User isolation *)

Lemma find_filter_and {A} (f g : A -> bool) (c : list A) :
  List.find (fun d => f d && g d) c = List.find g (filter f c).
Proof.
  induction c as [|d c IH]; simpl; [reflexivity|].
  destruct (f d); simpl; [|assumption]. now destruct (g d).
Qed.

Lemma filter_filter_and {A} (f g : A -> bool) (c : list A) :
  filter (fun d => f d && g d) c = filter g (filter f c).
Proof.
  induction c as [|d c IH]; simpl; [reflexivity|].
  destruct (f d); simpl; [|assumption]. destruct (g d); now rewrite IH.
Qed.

Lemma find_as_filter {A} (f : A -> bool) (c : list A) :
  List.find f c = List.find (fun _ => true) (filter f c).
Proof.
  induction c as [|d c IH]; simpl; [reflexivity|].
  now destruct (f d).
Qed.

(** Every read of a user is a function of that user's documents. *)
Lemma reads_depend_on_view (s s' : Store) (u : string) :
  userView s u = userView s' u ->
  (forall id, getEntity s u id = getEntity s' u id)
  /\ (forall id, getRelations s u id = getRelations s' u id)
  /\ loadForUser s u = loadForUser s' u
  /\ (forall now, getUserSummary s u now = getUserSummary s' u now).
Proof.
  unfold userView, find. intros [= He Hr Hi].
  split; [|split; [|split]].
  - intros id. unfold getEntity, findOne, entityFilter.
    rewrite !(find_filter_and (entUserFilter u)). now rewrite He.
  - intros id. unfold getRelations, find, touchingFilter.
    rewrite !(filter_filter_and (relUserFilter u)). now rewrite Hr.
  - unfold loadForUser, find. now rewrite He, Hr.
  - intros now. unfold getUserSummary, findOne.
    rewrite (find_as_filter _ (indexCollection s)),
            (find_as_filter _ (indexCollection s')), Hi.
    unfold generateSummary, recentDocs, countDocuments, find.
    now rewrite He, Hr.
Qed.

Section OtherUser.
Variables u1 u2 : string.
Hypothesis distinct : u1 <> u2.

Lemma entityFilter_other_user (id : string) (d : EntityDoc) :
  entityFilter u1 id d = true -> entUserFilter u2 d = false.
Proof.
  intros H. apply entityFilter_key in H. injection H as Hu _.
  unfold entUserFilter. rewrite Hu. now apply String.eqb_neq.
Qed.

Lemma entUserFilter_other_user (d : EntityDoc) :
  entUserFilter u1 d = true -> entUserFilter u2 d = false.
Proof.
  unfold entUserFilter. intros H. apply String.eqb_eq in H.
  rewrite H. now apply String.eqb_neq.
Qed.

Lemma relUserFilter_other_user (d : RelationDoc) :
  relUserFilter u1 d = true -> relUserFilter u2 d = false.
Proof.
  unfold relUserFilter. intros H. apply String.eqb_eq in H.
  rewrite H. now apply String.eqb_neq.
Qed.

Lemma idxUserFilter_other_user (d : SummaryDoc) :
  idxUserFilter u1 d = true -> idxUserFilter u2 d = false.
Proof.
  unfold idxUserFilter. intros H. apply String.eqb_eq in H.
  rewrite H. now apply String.eqb_neq.
Qed.

Lemma touchingFilter_other_user (id : string) (d : RelationDoc) :
  touchingFilter u1 id d = true -> relUserFilter u2 d = false.
Proof.
  intros H. apply touchingFilter_spec in H as [Hu _].
  unfold relUserFilter. rewrite Hu. now apply String.eqb_neq.
Qed.

Lemma userPairFilter_other_user (a b : string) (d : RelationDoc) :
  userPairFilter u1 a b d = true -> relUserFilter u2 d = false.
Proof.
  unfold userPairFilter. intros H. apply andb_true_iff in H as [Hu _].
  now apply relUserFilter_other_user.
Qed.

Lemma userView_saveEntity (s : Store) (e : Entity) (now : Date) :
  userView (saveEntity s u1 e now) u2 = userView s u2.
Proof.
  unfold userView, find. simpl. f_equal. f_equal.
  apply filter_replaceOne_other.
  - intros d. apply entityFilter_other_user.
  - unfold entUserFilter. simpl. now apply String.eqb_neq.
Qed.

Lemma userView_saveEntitiesBatch (s : Store) (es : list Entity)
      (now : Date) :
  userView (saveEntitiesBatch s u1 es now) u2 = userView s u2.
Proof.
  destruct es as [|e0 es0]; [reflexivity|].
  unfold saveEntitiesBatch. generalize (e0 :: es0) as es. intros es.
  unfold userView, find. simpl. f_equal. f_equal.
  unfold bulkReplace. generalize (entitiesCollection s) as c.
  induction es as [|e es IH]; intros c; simpl; [reflexivity|].
  rewrite IH. apply filter_replaceOne_other.
  - intros d. apply entityFilter_other_user.
  - unfold entUserFilter. simpl. now apply String.eqb_neq.
Qed.

Lemma userView_deleteEntity (s : Store) (id : string) :
  userView (deleteEntity s u1 id) u2 = userView s u2.
Proof.
  unfold userView, find. simpl. f_equal. f_equal.
  - apply filter_deleteOne_other. intros d.
    apply entityFilter_other_user.
  - apply filter_deleteMany_other. intros d.
    apply touchingFilter_other_user.
Qed.

Lemma userView_deleteRelation (s : Store) (a b : string) :
  userView (deleteRelation s u1 a b) u2 = userView s u2.
Proof.
  unfold userView, find. simpl. f_equal. f_equal.
  apply filter_deleteOne_other. intros d. apply userPairFilter_other_user.
Qed.

Lemma userView_clearForUser (s : Store) :
  userView (clearForUser s u1) u2 = userView s u2.
Proof.
  unfold userView, find. simpl. f_equal; [f_equal|].
  - apply filter_deleteMany_other, entUserFilter_other_user.
  - apply filter_deleteMany_other, relUserFilter_other_user.
  - apply filter_deleteMany_other, idxUserFilter_other_user.
Qed.

Lemma userView_runSummaryUpdate (s : Store) (rest : list string)
      (now : Date) :
  pendingUpdates s = u1 :: rest ->
  userView (runSummaryUpdate s now) u2 = userView s u2.
Proof.
  intros Hp. unfold userView, runSummaryUpdate, find. rewrite Hp. simpl.
  f_equal. apply filter_replaceOne_other.
  - apply idxUserFilter_other_user.
  - unfold idxUserFilter. simpl. now apply String.eqb_neq.
Qed.

(** [saveRelation] leaves the other user's entities and summary record
    alone; the other user's relations are left alone when none of them
    joins the ordered pair that is saved. *)
Lemma userView_saveRelation (s : Store) (r : Relation) (now : Date) :
  (forall d, In d (relationsCollection s) -> rdoc_userId d = u2 ->
             pairFilter (fromEntityId r) (toEntityId r) d = false) ->
  userView (saveRelation s u1 r now) u2 = userView s u2.
Proof.
  intros Hfree. unfold userView, find. simpl. f_equal. f_equal.
  induction (relationsCollection s) as [|d c IH]; simpl.
  - unfold relUserFilter. simpl.
    apply String.eqb_neq in distinct. now rewrite distinct.
  - destruct (pairFilter (fromEntityId r) (toEntityId r) d) eqn:E; simpl.
    + destruct (relUserFilter u2 d) eqn:F.
      * apply String.eqb_eq in F.
        rewrite (Hfree d (or_introl eq_refl) F) in E. discriminate.
      * unfold relUserFilter at 1. simpl.
        apply String.eqb_neq in distinct. now rewrite distinct.
    + rewrite IH; [reflexivity|].
      intros x Hx. apply Hfree. now right.
Qed.
End OtherUser.

(** C2.  [saveRelation] on behalf of one user replaces the edge that
    another user stored for the same ordered pair of endpoints: the
    filter of its [replaceOne] has no [userId] member.  User ["u2"] stores
    [A -knows-> B]; after user ["u1"] saves [A -likes-> B], [getRelations]
    and [loadForUser] show no relation to ["u2"] any more. *)
Theorem saveRelation_replaces_edge_of_other_user :
  let s := saveRelation emptyStore "u2" (plainRelation "A" "knows" "B") 1%Z in
  let s' := saveRelation s "u1" (plainRelation "A" "likes" "B") 2%Z in
  "u1" <> "u2"
  /\ indexed s
  /\ map relationType (getRelations s "u2" "A") = ["knows"]
  /\ getRelations s' "u2" "A" = []
  /\ relations (loadForUser s "u2") <> relations (loadForUser s' "u2")
  /\ map relationType (getRelations s' "u1" "A") = ["likes"].
Proof.
  intros s s'. split; [discriminate|].
  split; [apply indexed_saveRelation, indexed_empty|].
  split; [reflexivity|]. split; [reflexivity|].
  split; [discriminate | reflexivity].
Qed.

(* ================================================================= *)
(** ** The traversal *)

Lemma has_true (v : list string) (id : string) : has v id = true <-> In id v.
Proof.
  unfold has. rewrite existsb_exists. split.
  - intros (x & Hx & E). apply String.eqb_eq in E. now subst.
  - intros H. exists id. split; [assumption | apply String.eqb_refl].
Qed.

Lemma has_false (v : list string) (id : string) :
  has v id = false <-> ~ In id v.
Proof.
  rewrite <- has_true. destruct (has v id); split; congruence.
Qed.

Lemma NoDup_app_disjoint {A} (l1 l2 : list A) :
  NoDup (l1 ++ l2) -> forall a, In a l1 -> ~ In a l2.
Proof.
  induction l1 as [|x l1 IH]; intros Hnd a Ha Hb; [destruct Ha|].
  simpl in Hnd. apply NoDup_cons_iff in Hnd as [Hx Hnd].
  destruct Ha as [->|Ha]; [|now apply (IH Hnd a)].
  apply Hx. apply in_or_app. now right.
Qed.

Section Traversal.
Variable s : Store.
Variable u : string.
Variable depth : Z.

Local Abbreviation step := (bfsStep s u depth).
Local Abbreviation loop := (bfsLoop s u depth).
Local Abbreviation trace := (bfsTrace s u depth).

(** The three ways an iteration can go. *)
Lemma step_skip (st : BfsState) cur cd q :
  queue st = (cur, cd) :: q ->
  has (visited st) cur || (depth <? cd)%Z = true ->
  step st = mkBfs (visited st) (foundEntities st) (foundRelations st) q.
Proof. intros Hq Hv. unfold bfsStep. now rewrite Hq, Hv. Qed.

Lemma step_expand (st : BfsState) cur cd q :
  queue st = (cur, cd) :: q ->
  has (visited st) cur || (depth <? cd)%Z = false ->
  (cd <? depth)%Z = true ->
  step st
  = mkBfs (visited st ++ [cur])
          (foundEntities st ++ entityList s u cur)
          (foundRelations st ++ getRelations s u cur)
          (q ++ pushes (visited st ++ [cur]) cur cd (getRelations s u cur)).
Proof.
  intros Hq Hv Hd. unfold bfsStep, entityList. rewrite Hq, Hv, Hd.
  destruct (getEntity s u cur); [reflexivity | now rewrite app_nil_r].
Qed.

Lemma step_leaf (st : BfsState) cur cd q :
  queue st = (cur, cd) :: q ->
  has (visited st) cur || (depth <? cd)%Z = false ->
  (cd <? depth)%Z = false ->
  step st
  = mkBfs (visited st ++ [cur]) (foundEntities st ++ entityList s u cur)
          (foundRelations st) q.
Proof.
  intros Hq Hv Hd. unfold bfsStep, entityList. rewrite Hq, Hv, Hd.
  destruct (getEntity s u cur); [reflexivity | now rewrite app_nil_r].
Qed.

(** Case analysis on the iteration that a non-empty queue triggers. *)
Ltac iteration st cur cd q Hq Hv Hd :=
  destruct (queue st) as [|[cur cd] q] eqn:Hq;
  [| destruct (has (visited st) cur || (depth <? cd)%Z) eqn:Hv;
     [| destruct (cd <? depth)%Z eqn:Hd ] ].

(** The result lists are determined by the trace. *)
Lemma loop_by_trace (fuel : nat) :
  forall st st', loop fuel st = Some st' ->
    visited st' = visited st ++ map fst (trace fuel st)
    /\ foundEntities st'
       = foundEntities st
           ++ flat_map (entityList s u) (map fst (trace fuel st))
    /\ foundRelations st'
       = foundRelations st
           ++ flat_map (getRelations s u)
                       (expandedNodes depth (trace fuel st)).
Proof.
  induction fuel as [|fuel IH]; intros st st' H; simpl in H; [discriminate|].
  simpl. iteration st cur cd q Hq Hv Hd.
  - injection H as <-. simpl. now rewrite !app_nil_r.
  - apply IH in H. rewrite (step_skip st cur cd q Hq Hv) in *.
    simpl in H. exact H.
  - apply IH in H. rewrite (step_expand st cur cd q Hq Hv Hd) in *.
    simpl in H. destruct H as (Hvis & He & Hr).
    unfold expandedNodes in *. simpl. rewrite Hd. simpl.
    rewrite Hvis, He, Hr, <- !app_assoc. auto.
  - apply IH in H. rewrite (step_leaf st cur cd q Hq Hv Hd) in *.
    simpl in H. destruct H as (Hvis & He & Hr).
    unfold expandedNodes in *. simpl. rewrite Hd. simpl.
    rewrite Hvis, He, Hr, <- !app_assoc. auto.
Qed.
(** [visited] stays duplicate-free. *)
Lemma step_visited_NoDup (st : BfsState) :
  NoDup (visited st) -> NoDup (visited (step st)).
Proof.
  intros Hnd. iteration st cur cd q Hq Hv Hd.
  - unfold bfsStep. now rewrite Hq.
  - now rewrite (step_skip st cur cd q Hq Hv).
  - rewrite (step_expand st cur cd q Hq Hv Hd). simpl.
    apply orb_false_iff in Hv as [Hv _]. apply has_false in Hv.
    apply NoDup_app; [assumption | repeat constructor; intros [] |].
    intros x Hx [<-|[]]. contradiction.
  - rewrite (step_leaf st cur cd q Hq Hv Hd). simpl.
    apply orb_false_iff in Hv as [Hv _]. apply has_false in Hv.
    apply NoDup_app; [assumption | repeat constructor; intros [] |].
    intros x Hx [<-|[]]. contradiction.
Qed.

Lemma loop_visited_NoDup (fuel : nat) :
  forall st st', loop fuel st = Some st' ->
                 NoDup (visited st) -> NoDup (visited st').
Proof.
  induction fuel as [|fuel IH]; intros st st' H Hnd; simpl in H;
    [discriminate|].
  destruct (queue st) eqn:Hq.
  - now injection H as <-.
  - apply (IH _ _ H). now apply step_visited_NoDup.
Qed.

(** No node is visited twice. *)
Lemma trace_NoDup (fuel : nat) (st st' : BfsState) :
  loop fuel st = Some st' -> NoDup (visited st) ->
  NoDup (map fst (trace fuel st))
  /\ forall id, In id (map fst (trace fuel st)) -> ~ In id (visited st).
Proof.
  intros H Hnd. pose proof (loop_visited_NoDup fuel st st' H Hnd) as Hnd'.
  destruct (loop_by_trace fuel st st' H) as (Hvis & _).
  rewrite Hvis in Hnd'. split.
  - now apply NoDup_app_remove_l in Hnd'.
  - intros id Hin Hv. now apply (NoDup_app_disjoint _ _ Hnd' id).
Qed.

(** Every queued item within the depth bound ends up visited. *)
Lemma loop_visits_queue (fuel : nat) :
  forall st st', loop fuel st = Some st' ->
    forall id cd, In (id, cd) (queue st) -> (cd <= depth)%Z ->
                  In id (visited st').
Proof.
  induction fuel as [|fuel IH]; intros st st' H id cd0 Hin Hle;
    simpl in H; [discriminate|].
  pose proof (fun st1 H1 => proj1 (loop_by_trace fuel st1 st' H1)) as Hmono.
  iteration st cur cd q Hq Hv Hd; [destruct Hin| | |];
    specialize (Hmono _ H).
  - rewrite (step_skip st cur cd q Hq Hv) in *. simpl in Hmono.
    destruct Hin as [[= -> ->]|Hin].
    + apply orb_true_iff in Hv as [Hv|Hv].
      * apply has_true in Hv. rewrite Hmono. apply in_or_app; now left.
      * apply Z.ltb_lt in Hv. lia.
    + now apply (IH _ _ H id cd0).
  - rewrite (step_expand st cur cd q Hq Hv Hd) in *. simpl in Hmono.
    destruct Hin as [[= -> ->]|Hin].
    + rewrite Hmono. apply in_or_app. left. apply in_or_app. right.
      now left.
    + apply (IH _ _ H id cd0); [|assumption]. simpl.
      apply in_or_app. now left.
  - rewrite (step_leaf st cur cd q Hq Hv Hd) in *. simpl in Hmono.
    destruct Hin as [[= -> ->]|Hin].
    + rewrite Hmono. apply in_or_app. left. apply in_or_app. right.
      now left.
    + now apply (IH _ _ H id cd0).
Qed.

(** The other endpoint of every relation of an expanded node is
    visited. *)
Lemma loop_visits_neighbours (fuel : nat) :
  forall st st', loop fuel st = Some st' ->
    forall n k, In (n, k) (trace fuel st) -> (k < depth)%Z ->
    forall r, In r (getRelations s u n) ->
              In (nextEntityId n r) (visited st').
Proof.
  induction fuel as [|fuel IH]; intros st st' H n k Hin Hlt r Hr;
    simpl in H; [discriminate|].
  simpl in Hin.
  iteration st cur cd q Hq Hv Hd; [destruct Hin| | |].
  - now apply (IH _ _ H n k).
  - destruct Hin as [[= -> ->]|Hin]; [|now apply (IH _ _ H n k)].
    rewrite (step_expand st n k q Hq Hv Hd) in H.
    destruct (has (visited st ++ [n]) (nextEntityId n r)) eqn:Hn.
    + apply has_true in Hn.
      destruct (loop_by_trace _ _ _ H) as (Hvis & _).
      rewrite Hvis. simpl. apply in_or_app. now left.
    + apply (loop_visits_queue _ _ _ H _ (k + 1)%Z); [|lia]. simpl.
      apply in_or_app. right. unfold pushes.
      apply in_map_iff. exists (nextEntityId n r). split; [reflexivity|].
      apply filter_In. split; [now apply in_map | now rewrite Hn].
  - destruct Hin as [[= -> ->]|Hin]; [|now apply (IH _ _ H n k)].
    apply Z.ltb_ge in Hd. lia.
Qed.

(** Depths in the trace: never above [depth], and never below the
    smallest depth in the queue. *)
Lemma trace_depth_upper (fuel : nat) :
  forall st n k, In (n, k) (trace fuel st) -> (k <= depth)%Z.
Proof.
  induction fuel as [|fuel IH]; intros st n k Hin; simpl in Hin;
    [destruct Hin|].
  iteration st cur cd q Hq Hv Hd;
    [destruct Hin|now apply (IH (step st) n)| |];
    (destruct Hin as [[= -> ->]|Hin]; [|now apply (IH (step st) n)]);
    apply orb_false_iff in Hv as [_ Hv]; apply Z.ltb_ge in Hv; lia.
Qed.

Lemma trace_depth_lower (m : Z) (fuel : nat) :
  forall st, (forall id cd, In (id, cd) (queue st) -> (m <= cd)%Z) ->
             forall n k, In (n, k) (trace fuel st) -> (m <= k)%Z.
Proof.
  induction fuel as [|fuel IH]; intros st Hst n k Hin; simpl in Hin;
    [destruct Hin|].
  iteration st cur cd q Hq Hv Hd; [destruct Hin| | |].
  - eapply (IH (step st)); [|exact Hin].
    rewrite (step_skip st cur cd q Hq Hv). simpl.
    intros id cd' Hid. apply (Hst id). now right.
  - destruct Hin as [[= -> ->]|Hin]; [apply (Hst n); now left|].
    eapply (IH (step st)); [|exact Hin].
    rewrite (step_expand st cur cd q Hq Hv Hd). simpl.
    intros id cd' Hid. apply in_app_or in Hid as [Hid|Hid].
    + apply (Hst id). now right.
    + unfold pushes in Hid. apply in_map_iff in Hid as (x & [= _ <-] & _).
      specialize (Hst cur cd (or_introl eq_refl)). lia.
  - destruct Hin as [[= -> ->]|Hin]; [apply (Hst n); now left|].
    eapply (IH (step st)); [|exact Hin].
    rewrite (step_leaf st cur cd q Hq Hv Hd). simpl.
    intros id cd' Hid. apply (Hst id). now right.
Qed.

(** *** Termination *)

Lemma touching_among_user (id : string) :
  find (touchingFilter u id) (relationsCollection s)
  = filter (fun d => (rdoc_fromEntityId d == id)
                     || (rdoc_toEntityId d == id))
           (find (relUserFilter u) (relationsCollection s)).
Proof.
  unfold find. rewrite <- filter_filter_and. reflexivity.
Qed.

Lemma getRelations_length (id : string) :
  List.length (getRelations s u id) <= relCount s u.
Proof.
  unfold getRelations, relCount, countDocuments.
  rewrite length_map, touching_among_user. apply filter_length_le.
Qed.

Lemma getRelations_endpoints (id : string) (r : Relation) :
  In r (getRelations s u id) ->
  In (fromEntityId r) (endpoints s u) /\ In (toEntityId r) (endpoints s u).
Proof.
  unfold getRelations. rewrite touching_among_user.
  intros Hr. apply in_map_iff in Hr as (d & <- & Hd).
  apply filter_In in Hd as [Hd _]. unfold endpoints.
  split; apply in_flat_map; exists d; simpl; auto.
Qed.

Lemma nextEntityId_endpoint (id : string) (r : Relation) :
  In r (getRelations s u id) -> In (nextEntityId id r) (endpoints s u).
Proof.
  intros Hr. apply getRelations_endpoints in Hr as [Hf Ht].
  unfold nextEntityId. now destruct (fromEntityId r == id).
Qed.

Lemma pushes_length (v : list string) cur cd (ers : list Relation) :
  List.length (pushes v cur cd ers) <= List.length ers.
Proof.
  unfold pushes. rewrite length_map.
  etransitivity; [apply filter_length_le|]. now rewrite length_map.
Qed.

Lemma endpoints_length : List.length (endpoints s u) = 2 * relCount s u.
Proof.
  unfold endpoints, relCount, countDocuments, find.
  induction (filter (relUserFilter u) (relationsCollection s))
    as [|d c IH]; simpl; [reflexivity|].
  rewrite IH. lia.
Qed.

Lemma universe_length (eid : string) :
  List.length (universe s u eid) <= S (2 * (relCount s u)).
Proof.
  unfold universe. rewrite <- endpoints_length.
  change (S (List.length (endpoints s u)))
    with (List.length (eid :: endpoints s u)).
  apply NoDup_incl_length; [apply NoDup_nodup|].
  intros x Hx. now apply nodup_In in Hx.
Qed.

Variable eid : string.

Lemma visit_bounded (st : BfsState) (cur : string) :
  bounded s u eid st -> In cur (universe s u eid) -> ~ In cur (visited st) ->
  NoDup (visited st ++ [cur])
  /\ incl (visited st ++ [cur]) (universe s u eid)
  /\ S (List.length (visited st)) <= List.length (universe s u eid).
Proof.
  intros (Hnd & Hincl & _) Hcur Hnew.
  assert (Hnd' : NoDup (visited st ++ [cur])).
  { apply NoDup_app; [assumption | repeat constructor; intros [] |].
    intros x Hx [<-|[]]. contradiction. }
  assert (Hincl' : incl (visited st ++ [cur]) (universe s u eid)).
  { intros x Hx. apply in_app_or in Hx as [Hx|[<-|[]]]; auto. }
  split; [assumption|]. split; [assumption|].
  pose proof (NoDup_incl_length Hnd' Hincl') as Hlen.
  rewrite length_app in Hlen. simpl in Hlen. lia.
Qed.

Lemma step_decreases (st : BfsState) :
  bounded s u eid st -> queue st <> [] ->
  bounded s u eid (step st) /\ remaining s u eid (step st) < remaining s u eid st.
Proof.
  intros Hb Hne. pose proof Hb as (Hnd & Hincl & Hqueue).
  iteration st cur cd q Hq Hv Hd; [congruence| | |].
  - rewrite (step_skip st cur cd q Hq Hv). unfold bounded, remaining.
    simpl. rewrite Hq. simpl. split; [|lia].
    split; [assumption|]. split; [assumption|].
    intros id cd' Hin. apply (Hqueue id cd'). now right.
  - rewrite (step_expand st cur cd q Hq Hv Hd).
    apply orb_false_iff in Hv as [Hv _]. apply has_false in Hv.
    assert (Hcur : In cur (universe s u eid))
      by (apply (Hqueue cur cd); now left).
    destruct (visit_bounded st cur Hb Hcur Hv) as (Hnd' & Hincl' & Hlen).
    unfold bounded, remaining. simpl. rewrite Hq. split.
    + split; [assumption|]. split; [assumption|].
      intros id cd' Hin. apply in_app_or in Hin as [Hin|Hin].
      * apply (Hqueue id cd'). now right.
      * unfold pushes in Hin.
        apply in_map_iff in Hin as (x & [= <- _] & Hx).
        apply filter_In in Hx as [Hx _].
        apply in_map_iff in Hx as (r & <- & Hr).
        apply nodup_In. right. now apply nextEntityId_endpoint.
    + rewrite !length_app. simpl.
      pose proof (pushes_length (visited st ++ [cur]) cur cd
                                (getRelations s u cur)) as Hp.
      pose proof (getRelations_length cur) as Hr.
      replace (List.length (universe s u eid) - List.length (visited st))
        with (S (List.length (universe s u eid)
                 - (List.length (visited st) + 1))) by lia.
      rewrite Nat.mul_succ_l. lia.
  - rewrite (step_leaf st cur cd q Hq Hv Hd).
    apply orb_false_iff in Hv as [Hv _]. apply has_false in Hv.
    assert (Hcur : In cur (universe s u eid))
      by (apply (Hqueue cur cd); now left).
    destruct (visit_bounded st cur Hb Hcur Hv) as (Hnd' & Hincl' & Hlen).
    unfold bounded, remaining. simpl. rewrite Hq. split.
    + split; [assumption|]. split; [assumption|].
      intros id cd' Hin. apply (Hqueue id cd'). now right.
    + rewrite !length_app. simpl.
      replace (List.length (universe s u eid) - List.length (visited st))
        with (S (List.length (universe s u eid)
                 - (List.length (visited st) + 1))) by lia.
      rewrite Nat.mul_succ_l. lia.
Qed.

Lemma loop_enough_fuel (fuel : nat) :
  forall st, bounded s u eid st -> remaining s u eid st < fuel ->
             exists st', loop fuel st = Some st'.
Proof.
  induction fuel as [|fuel IH]; intros st Hb Hlt; [lia|].
  simpl. destruct (queue st) eqn:Hq; [eauto|].
  assert (Hne : queue st <> []) by congruence.
  destruct (step_decreases st Hb Hne) as [Hb' Hdec].
  apply IH; [assumption | lia].
Qed.

(** The loop of [getConnectedEntities] terminates within [bfsFuel]
    iterations. *)
Lemma bfsLoop_terminates :
  exists st', loop (bfsFuel s u) (bfsInit eid) = Some st'.
Proof.
  apply loop_enough_fuel.
  - split; [constructor|]. split; [intros x []|].
    intros id cd [[= <- _]|[]]. apply nodup_In. now left.
  - unfold remaining, bfsFuel. simpl. fold (relCount s u).
    pose proof (universe_length eid) as Hu.
    rewrite Nat.sub_0_r.
    apply (Nat.mul_le_mono_r _ _ (S (relCount s u))) in Hu. lia.
Qed.

End Traversal.

(** [getConnectedEntities] always returns. *)
Lemma getConnectedEntities_total (s : Store) (u eid : string) (depth : Z) :
  exists g, getConnectedEntities s u eid depth = Some g.
Proof.
  unfold getConnectedEntities.
  destruct (bfsLoop_terminates s u depth eid) as [st' ->].
  now exists (mkGraph (foundEntities st') (foundRelations st')).
Qed.

Lemma bfsTrace_first (s : Store) (u eid : string) (depth : Z) (fuel : nat) :
  bfsTrace s u depth (S fuel) (bfsInit eid)
  = (if (depth <? 0)%Z then [] else [(eid, 0%Z)])
      ++ bfsTrace s u depth fuel (bfsStep s u depth (bfsInit eid)).
Proof. reflexivity. Qed.

Lemma bfsStep_first_queue (s : Store) (u eid : string) (depth : Z) :
  forall id cd, In (id, cd) (queue (bfsStep s u depth (bfsInit eid))) ->
                cd = 1%Z.
Proof.
  intros id cd. unfold bfsStep, bfsInit. simpl.
  destruct (depth <? 0)%Z; simpl; [tauto|].
  destruct (0 <? depth)%Z; simpl; [|tauto].
  unfold pushes. intros Hin. now apply in_map_iff in Hin as (x & [= _ <-] & _).
Qed.

(** The traversal starts by visiting the start node at depth 0; every
    other node is visited at depth 1 or more. *)
Lemma connectedTrace_start (s : Store) (u eid : string) (depth : Z) :
  (0 <= depth)%Z ->
  exists rest,
    connectedTrace s u eid depth = (eid, 0%Z) :: rest
    /\ forall n k, In (n, k) rest -> (1 <= k)%Z.
Proof.
  intros Hd. unfold connectedTrace, bfsFuel. rewrite bfsTrace_first.
  assert (Hge : (depth <? 0)%Z = false) by now apply Z.ltb_ge.
  rewrite Hge. eexists. split; [reflexivity|].
  apply trace_depth_lower. intros id cd Hin.
  apply bfsStep_first_queue in Hin. lia.
Qed.

(** The result of [getConnectedEntities] in terms of the trace of its
    loop: which entities and relations it holds, in which order, and which
    nodes it reaches. *)
Lemma getConnectedEntities_by_trace (s : Store) (u eid : string) (depth : Z) :
  exists g,
    getConnectedEntities s u eid depth = Some g
    /\ let tr := connectedTrace s u eid depth in
       entities g = flat_map (entityList s u) (map fst tr)
       /\ relations g
          = flat_map (getRelations s u) (expandedNodes depth tr)
       /\ NoDup (map fst tr)
       /\ (forall n k, In (n, k) tr -> (k <= depth)%Z)
       /\ (forall n k r, In (n, k) tr -> (k < depth)%Z ->
                         In r (getRelations s u n) ->
                         In (nextEntityId n r) (map fst tr)).
Proof.
  unfold getConnectedEntities, connectedTrace.
  destruct (bfsLoop_terminates s u depth eid) as [st' H]. rewrite H.
  exists (mkGraph (foundEntities st') (foundRelations st')).
  split; [reflexivity|]. cbv zeta. cbn [entities relations].
  destruct (loop_by_trace _ _ _ _ _ _ H) as (Hv & He & Hr).
  change (visited (bfsInit eid)) with (@nil string) in Hv.
  change (foundEntities (bfsInit eid)) with (@nil Entity) in He.
  change (foundRelations (bfsInit eid)) with (@nil Relation) in Hr.
  rewrite app_nil_l in Hv, He, Hr.
  split; [exact He|]. split; [exact Hr|].
  split; [apply (trace_NoDup _ _ _ _ _ _ H); constructor|].
  split; [apply trace_depth_upper|].
  intros n k r Hin Hlt Hrel. rewrite <- Hv.
  now apply (loop_visits_neighbours _ _ _ _ _ _ H n k).
Qed.

Lemma expandedNodes_NoDup (depth : Z) (tr : list (string * Z)) :
  NoDup (map fst tr) -> NoDup (expandedNodes depth tr).
Proof. apply NoDup_map_filter. Qed.

Lemma in_expandedNodes (depth : Z) (tr : list (string * Z)) (n : string) :
  In n (expandedNodes depth tr)
  <-> exists k, In (n, k) tr /\ (k < depth)%Z.
Proof.
  unfold expandedNodes. rewrite in_map_iff. split.
  - intros ([n' k] & <- & Hin). apply filter_In in Hin as [Hin Hk].
    exists k. split; [assumption | now apply Z.ltb_lt].
  - intros (k & Hin & Hk). exists (n, k). split; [reflexivity|].
    apply filter_In. split; [assumption | now apply Z.ltb_lt].
Qed.

Lemma in_getRelations (s : Store) (u id : string) (r : Relation) :
  In r (getRelations s u id)
  <-> exists d, In d (relationsCollection s) /\ rdoc_userId d = u
                /\ (rdoc_fromEntityId d = id \/ rdoc_toEntityId d = id)
                /\ r = documentToRelation d.
Proof.
  unfold getRelations, find. rewrite in_map_iff. split.
  - intros (d & <- & Hd). apply filter_In in Hd as [Hd Hf].
    apply touchingFilter_spec in Hf as [Hu He]. exists d. auto.
  - intros (d & Hd & Hu & He & ->). exists d. split; [reflexivity|].
    apply filter_In. split; [assumption|]. now apply touchingFilter_spec.
Qed.

Lemma in_entityList (s : Store) (u id : string) (e : Entity) :
  In e (entityList s u id) <-> getEntity s u id = Some e.
Proof.
  unfold entityList. destruct (getEntity s u id); simpl; split;
    intros H; try tauto; try discriminate.
  - destruct H as [->|[]]. reflexivity.
  - left. congruence.
Qed.

(* ================================================================= *)
(** ** Traversal to depth 0 and depth 1 *)

(** C6.  [getConnectedEntities(u, X, 0)] returns the entity list [[X]]
    and no relation when [X] exists for [u], and two empty lists when it
    does not. *)
Theorem getConnectedEntities_depth_zero (s : Store) (u X : string) :
  getConnectedEntities s u X 0
  = Some (mkGraph (match getEntity s u X with
                   | Some e => [e]
                   | None => []
                   end) [])
  /\ (forall e, getEntity s u X = Some e ->
                getConnectedEntities s u X 0 = Some (mkGraph [e] []))
  /\ (getEntity s u X = None ->
      getConnectedEntities s u X 0 = Some (mkGraph [] [])).
Proof.
  assert (H : getConnectedEntities s u X 0
              = Some (mkGraph (match getEntity s u X with
                               | Some e => [e]
                               | None => []
                               end) [])).
  { unfold getConnectedEntities, bfsFuel. simpl.
    now destruct (getEntity s u X). }
  split; [exact H|]. split.
  - intros e He. now rewrite H, He.
  - intros He. now rewrite H, He.
Qed.

Lemma expandedNodes_depth_one (s : Store) (u X : string) :
  expandedNodes 1 (connectedTrace s u X 1) = [X].
Proof.
  destruct (connectedTrace_start s u X 1) as (rest & -> & Hrest); [lia|].
  unfold expandedNodes. simpl. rewrite filter_no_match; [reflexivity|].
  intros [n k] Hin. simpl. apply Z.ltb_ge. now apply (Hrest n k).
Qed.

Lemma nextEntityId_cases (n : string) (r : Relation) :
  fromEntityId r = n \/ toEntityId r = n ->
  (fromEntityId r = n /\ nextEntityId n r = toEntityId r)
  \/ (toEntityId r = n /\ nextEntityId n r = fromEntityId r).
Proof.
  unfold nextEntityId. intros H.
  destruct (fromEntityId r == n) eqn:E.
  - apply String.eqb_eq in E. now left.
  - apply String.eqb_neq in E. destruct H; [contradiction | now right].
Qed.

(** C5.  When [X] exists for [u], [getConnectedEntities(u, X, 1)] holds
    [X]; its relations are exactly those of [getRelations(u, X)], so
    every stored relation of [u] with [X] as an endpoint is in it,
    together with the entities stored for both endpoints, and no relation
    that has neither endpoint equal to [X] is in it, such as a relation
    between two depth-1 neighbours.  For every depth, the relations
    returned are those fetched for the nodes visited below that depth: a
    relation of a node visited at the maximum depth that touches no node
    visited below it is absent, and the relations of a node visited one
    level below the maximum are present, with their other endpoints
    visited. *)
Theorem getConnectedEntities_depth_one_and_frontier
        (s : Store) (u X : string) (eX : Entity) :
  getEntity s u X = Some eX ->
  (exists g,
      getConnectedEntities s u X 1 = Some g
      /\ In eX (entities g)
      /\ relations g = getRelations s u X
      /\ (forall d, In d (relationsCollection s) -> rdoc_userId d = u ->
                    rdoc_fromEntityId d = X \/ rdoc_toEntityId d = X ->
                    In (documentToRelation d) (relations g)
                    /\ (forall e, getEntity s u (rdoc_fromEntityId d) = Some e
                                  -> In e (entities g))
                    /\ (forall e, getEntity s u (rdoc_toEntityId d) = Some e
                                  -> In e (entities g)))
      /\ (forall r, fromEntityId r <> X -> toEntityId r <> X ->
                    ~ In r (relations g)))
  /\ (forall depth,
         exists g,
           getConnectedEntities s u X depth = Some g
           /\ let tr := connectedTrace s u X depth in
              (forall r, In r (relations g)
                         <-> exists n k, In (n, k) tr /\ (k < depth)%Z
                                         /\ In r (getRelations s u n))
              /\ (forall n r,
                     In (n, depth) tr -> In r (getRelations s u n) ->
                     (forall m k, In (m, k) tr -> (k < depth)%Z ->
                                  fromEntityId r <> m /\ toEntityId r <> m) ->
                     ~ In r (relations g))
              /\ (forall m r,
                     In (m, (depth - 1)%Z) tr -> In r (getRelations s u m) ->
                     In r (relations g)
                     /\ In (nextEntityId m r) (map fst tr))).
Proof.
  intros HX. split.
  - destruct (getConnectedEntities_by_trace s u X 1)
      as (g & Hg & He & Hr & Hnd & _ & Hnext).
    exists g. split; [exact Hg|].
    rewrite expandedNodes_depth_one in Hr. simpl in Hr.
    rewrite app_nil_r in Hr.
    assert (Hstart : In (X, 0%Z) (connectedTrace s u X 1)).
    { destruct (connectedTrace_start s u X 1) as (rest & -> & _); [lia|].
      now left. }
    assert (Hent : forall id e, In id (map fst (connectedTrace s u X 1)) ->
                                getEntity s u id = Some e ->
                                In e (entities g)).
    { intros id e Hid Hget. rewrite He. apply in_flat_map.
      exists id. split; [assumption | now apply in_entityList]. }
    assert (HXin : In X (map fst (connectedTrace s u X 1)))
      by (apply in_map_iff; now exists (X, 0%Z)).
    split; [now apply (Hent X)|]. split; [exact Hr|]. split.
    + intros d Hd Hu Hends.
      assert (Hrel : In (documentToRelation d) (getRelations s u X))
        by (apply in_getRelations; exists d; auto).
      pose proof (Hnext X 0%Z _ Hstart ltac:(lia) Hrel) as Hn.
      split; [now rewrite Hr|].
      destruct (nextEntityId_cases X (documentToRelation d) Hends)
        as [[Hf Hnx]|[Ht Hnx]]; rewrite Hnx in Hn; simpl in *.
      * split; intros e Hget; [rewrite Hf in Hget|]; eauto.
      * split; intros e Hget; [|rewrite Ht in Hget]; eauto.
    + intros r Hf Ht Hin. rewrite Hr in Hin.
      apply in_getRelations in Hin as (d & _ & _ & Hends & ->).
      simpl in Hf, Ht. tauto.
  - intros depth.
    destruct (getConnectedEntities_by_trace s u X depth)
      as (g & Hg & He & Hr & Hnd & Hup & Hnext).
    exists g. split; [exact Hg|]. cbv zeta.
    assert (Hiff : forall r,
               In r (relations g)
               <-> exists n k, In (n, k) (connectedTrace s u X depth)
                               /\ (k < depth)%Z
                               /\ In r (getRelations s u n)).
    { intros r. rewrite Hr, in_flat_map. split.
      - intros (n & Hn & Hrel). apply in_expandedNodes in Hn as (k & Hk & Hlt).
        eauto.
      - intros (n & k & Hk & Hlt & Hrel). exists n.
        split; [apply in_expandedNodes; eauto | assumption]. }
    split; [exact Hiff|]. split.
    + intros n r Hn Hrel Hfar Hin.
      apply Hiff in Hin as (m & k & Hm & Hlt & Hrm).
      apply in_getRelations in Hrm as (d & _ & _ & Hends & ->).
      destruct (Hfar m k Hm Hlt) as [Hf Ht]. simpl in Hf, Ht. tauto.
    + intros m r Hm Hrel. split.
      * apply Hiff. exists m, (depth - 1)%Z. repeat split; auto. lia.
      * apply (Hnext m (depth - 1)%Z); auto. lia.
Qed.

Lemma indexed_triangleStore : indexed triangleStore.
Proof.
  unfold triangleStore.
  auto using indexed_saveRelation, indexed_saveEntitiesBatch, indexed_empty.
Qed.

(* ================================================================= *)
(** ** Relations are collected without deduplication *)

Lemma getRelations_NoDup (s : Store) (u n : string) :
  indexed s -> NoDup (getRelations s u n).
Proof.
  intros [_ Hr]. unfold getRelations, find.
  apply (NoDup_map_filter _ (touchingFilter u n)) in Hr.
  apply (NoDup_map_inv (fun r => (fromEntityId r, toEntityId r))).
  now rewrite map_map.
Qed.

Lemma occurrences_getRelations (s : Store) (u n : string) (r : Relation) :
  indexed s -> In r (relations (loadForUser s u)) ->
  occurrences r (getRelations s u n) = if touches r n then 1 else 0.
Proof.
  intros Hidx Hr. unfold occurrences.
  destruct (touches r n) eqn:T.
  - assert (Hin : In r (getRelations s u n)).
    { simpl in Hr. apply in_map_iff in Hr as (d & <- & Hd).
      apply filter_In in Hd as [Hd Hu]. apply String.eqb_eq in Hu.
      apply in_getRelations. exists d. repeat split; auto.
      unfold touches in T. simpl in T.
      apply orb_true_iff in T. now rewrite !String.eqb_eq in T. }
    apply (count_occ_In Relation_eq_dec) in Hin.
    pose proof (getRelations_NoDup s u n Hidx) as Hnd.
    rewrite (NoDup_count_occ Relation_eq_dec) in Hnd.
    specialize (Hnd r). lia.
  - apply count_occ_not_In. intros Hin.
    apply in_getRelations in Hin as (d & _ & _ & Hends & ->).
    unfold touches in T. simpl in T. apply orb_false_iff in T as [Tf Tt].
    apply String.eqb_neq in Tf, Tt. tauto.
Qed.

Lemma occurrences_flat_map (s : Store) (u : string) (r : Relation)
      (nodes : list string) :
  indexed s -> In r (relations (loadForUser s u)) ->
  occurrences r (flat_map (getRelations s u) nodes)
  = List.length (filter (touches r) nodes).
Proof.
  intros Hidx Hr. induction nodes as [|n nodes IH]; [reflexivity|].
  simpl. unfold occurrences in *. rewrite count_occ_app, IH.
  fold (occurrences r (getRelations s u n)).
  rewrite occurrences_getRelations by assumption.
  now destruct (touches r n).
Qed.

Lemma filter_or_length {A} (f g : A -> bool) (l : list A) :
  (forall x, f x = true -> g x = false) ->
  List.length (filter (fun x => f x || g x) l)
  = List.length (filter f l) + List.length (filter g l).
Proof.
  intros Hfg. induction l as [|x l IH]; [reflexivity|]. simpl.
  destruct (f x) eqn:F; simpl.
  - rewrite (Hfg x F). simpl. now rewrite IH.
  - destruct (g x); simpl; rewrite IH; lia.
Qed.

Lemma filter_eqb_length (a : string) (l : list string) :
  NoDup l -> In a l -> List.length (filter (String.eqb a) l) = 1.
Proof.
  induction l as [|x l IH]; intros Hnd Hin; [destruct Hin|].
  apply NoDup_cons_iff in Hnd as [Hx Hnd]. simpl.
  destruct (a == x) eqn:E.
  - apply String.eqb_eq in E. subst x. simpl. f_equal.
    rewrite filter_no_match; [reflexivity|].
    intros y Hy. apply String.eqb_neq. intros ->. contradiction.
  - apply String.eqb_neq in E. destruct Hin as [->|Hin]; [congruence|].
    now apply IH.
Qed.

(** How often a stored relation occurs in the relations fetched for a
    duplicate-free list of nodes. *)
Lemma occurrences_over_nodes (s : Store) (u : string) (r : Relation)
      (nodes : list string) :
  indexed s -> In r (relations (loadForUser s u)) -> NoDup nodes ->
  (fromEntityId r <> toEntityId r ->
   In (fromEntityId r) nodes -> In (toEntityId r) nodes ->
   occurrences r (flat_map (getRelations s u) nodes) = 2)
  /\ (fromEntityId r = toEntityId r -> In (fromEntityId r) nodes ->
      occurrences r (flat_map (getRelations s u) nodes) = 1).
Proof.
  intros Hidx Hr Hnd. rewrite occurrences_flat_map by assumption. split.
  - intros Hne Hf Ht. unfold touches. rewrite filter_or_length.
    + now rewrite !filter_eqb_length.
    + intros x E. apply String.eqb_eq in E. subst x.
      apply String.eqb_neq. congruence.
  - intros Heq Hf.
    rewrite (filter_ext (touches r) (String.eqb (fromEntityId r))).
    + now apply filter_eqb_length.
    + intros x. unfold touches. rewrite <- Heq. apply orb_diag.
Qed.

(** C10, amended.  The relations returned by
    [getConnectedEntities(u, X, d)] are the concatenation, in order of
    visit and without deduplication, of [getRelations] over the nodes
    visited at a depth below [d], each of which is visited once.  On a
    store whose unique indexes hold, a stored relation with two distinct
    endpoints that are both among these nodes occurs exactly twice in the
    result, which is then not duplicate-free; a stored relation from a
    node to itself, with that node among them, occurs exactly once. *)
Theorem getConnectedEntities_relations_not_deduplicated
        (s : Store) (u X : string) (depth : Z) :
  indexed s ->
  exists g,
    getConnectedEntities s u X depth = Some g
    /\ let expanded := expandedNodes depth (connectedTrace s u X depth) in
       relations g = flat_map (getRelations s u) expanded
       /\ NoDup expanded
       /\ (forall n, In n expanded
                     <-> exists k, In (n, k) (connectedTrace s u X depth)
                                   /\ (k < depth)%Z)
       /\ (forall r, In r (relations (loadForUser s u)) ->
                     fromEntityId r <> toEntityId r ->
                     In (fromEntityId r) expanded ->
                     In (toEntityId r) expanded ->
                     occurrences r (relations g) = 2
                     /\ ~ NoDup (relations g))
       /\ (forall r, In r (relations (loadForUser s u)) ->
                     fromEntityId r = toEntityId r ->
                     In (fromEntityId r) expanded ->
                     occurrences r (relations g) = 1).
Proof.
  intros Hidx.
  destruct (getConnectedEntities_by_trace s u X depth)
    as (g & Hg & _ & Hr & Hnd & _).
  exists g. split; [exact Hg|]. cbv zeta.
  apply (expandedNodes_NoDup depth) in Hnd.
  split; [exact Hr|]. split; [exact Hnd|].
  split; [intros n; apply in_expandedNodes|]. split.
  - intros r Hstored Hne Hf Ht.
    destruct (occurrences_over_nodes s u r _ Hidx Hstored Hnd) as [Htwo _].
    specialize (Htwo Hne Hf Ht). rewrite <- Hr in Htwo.
    split; [exact Htwo|].
    intros Hdup. rewrite (NoDup_count_occ Relation_eq_dec) in Hdup.
    specialize (Hdup r). unfold occurrences in Htwo. lia.
  - intros r Hstored Heq Hf.
    destruct (occurrences_over_nodes s u r _ Hidx Hstored Hnd) as [_ Hone].
    rewrite Hr. now apply Hone.
Qed.

(* ================================================================= *)
(** * Further properties *)

(** ** More facts about the collection primitives *)

Lemma find_deleteOne_other {A} (f g : A -> bool) (c : list A) :
  (forall d, f d = true -> g d = false) ->
  List.find g (deleteOne f c) = List.find g c.
Proof.
  intros Hfg. induction c as [|d c IH]; simpl; [reflexivity|].
  destruct (f d) eqn:E; simpl.
  - now rewrite (Hfg d E).
  - now rewrite IH.
Qed.

Lemma deleteOne_no_match {A} (f : A -> bool) (c : list A) :
  (forall d, In d c -> f d = false) -> deleteOne f c = c.
Proof.
  induction c as [|d c IH]; intros H; simpl; [reflexivity|].
  rewrite (H d (or_introl eq_refl)). f_equal. apply IH.
  intros x Hx. apply H. now right.
Qed.

Lemma replaceOne_no_match {A} (f : A -> bool) (doc : A) (c : list A) :
  (forall d, In d c -> f d = false) -> replaceOne f doc c = c ++ [doc].
Proof.
  induction c as [|d c IH]; intros H; simpl; [reflexivity|].
  rewrite (H d (or_introl eq_refl)). f_equal. apply IH.
  intros x Hx. apply H. now right.
Qed.

Lemma In_replaceOne_old {A} (f : A -> bool) (doc : A) (c : list A) (x : A) :
  In x c -> f x = false -> In x (replaceOne f doc c).
Proof.
  induction c as [|d c IH]; intros Hin Hf; [destruct Hin|]. simpl.
  destruct Hin as [->|Hin].
  - rewrite Hf. now left.
  - destruct (f d); right; auto.
Qed.

Lemma In_replaceOne {A} (f : A -> bool) (doc : A) (c : list A) (x : A) :
  In x (replaceOne f doc c) -> x = doc \/ In x c.
Proof.
  induction c as [|d c IH]; simpl.
  - intros [<-|[]]. now left.
  - destruct (f d); simpl; intros [<-|H]; auto.
    destruct (IH H); auto.
Qed.

Lemma In_deleteOne_other {A} (f : A -> bool) (c : list A) (x : A) :
  In x c -> f x = false -> In x (deleteOne f c).
Proof.
  induction c as [|d c IH]; intros Hin Hf; [destruct Hin|]. simpl.
  destruct Hin as [->|Hin].
  - rewrite Hf. now left.
  - destruct (f d); [assumption | right; auto].
Qed.

(** With a unique key, nothing that matches is left after [deleteOne]. *)
Lemma deleteOne_unique_gone {A K} (key : A -> K) (k : K) (f : A -> bool)
      (c : list A) (x : A) :
  (forall d, f d = true -> key d = k) ->
  NoDup (map key c) -> In x (deleteOne f c) -> f x = false.
Proof.
  intros Hkey. induction c as [|d c IH]; intros Hnd Hin; [destruct Hin|].
  simpl in Hnd. apply NoDup_cons_iff in Hnd as [Hd Hnd]. simpl in Hin.
  destruct (f d) eqn:E.
  - destruct (f x) eqn:F; [|reflexivity]. exfalso. apply Hd.
    rewrite (Hkey d E), <- (Hkey x F). now apply in_map.
  - destruct Hin as [<-|Hin]; [assumption | now apply IH].
Qed.

Lemma length_filter_replaceOne {A} (f g : A -> bool) (doc : A) (c : list A) :
  (forall d, f d = true -> g d = true) -> g doc = true ->
  List.length (filter g (replaceOne f doc c))
  = match List.find f c with
    | Some _ => List.length (filter g c)
    | None => S (List.length (filter g c))
    end.
Proof.
  intros Hfg Hdoc. induction c as [|d c IH]; simpl.
  - now rewrite Hdoc.
  - destruct (f d) eqn:E; simpl.
    + now rewrite Hdoc, (Hfg d E).
    + destruct (g d); simpl; rewrite IH; destruct (List.find f c);
        reflexivity.
Qed.

(* ================================================================= *)
(** ** Entities: what a write leaves alone *)

Lemma entityFilter_other_key (u id u' id' : string) (d : EntityDoc) :
  (u', id') <> (u, id) ->
  entityFilter u id d = true -> entityFilter u' id' d = false.
Proof.
  intros Hne H. apply entityFilter_key in H.
  destruct (entityFilter u' id' d) eqn:E; [|reflexivity].
  apply entityFilter_key in E. congruence.
Qed.

(** X1.  [saveEntity(u, e)] changes what [getEntity] returns for no other
    [(userId, entityId)], leaves the relation collection as it is, and
    makes the number of entities of [u] grow by one exactly when [u] had
    no entity with that id. *)
Theorem saveEntity_touches_one_entity
        (s : Store) (u : string) (e : Entity) (now : Date) :
  let s' := saveEntity s u e now in
  (forall u' id', (u', id') <> (u, entityId e) ->
                  getEntity s' u' id' = getEntity s u' id')
  /\ relationsCollection s' = relationsCollection s
  /\ List.length (entities (loadForUser s' u))
     = match getEntity s u (entityId e) with
       | Some _ => List.length (entities (loadForUser s u))
       | None => S (List.length (entities (loadForUser s u)))
       end.
Proof.
  intros s'. split; [|split; [reflexivity|]].
  - intros u' id' Hne. unfold getEntity, findOne. subst s'. simpl.
    rewrite (find_replaceOne_other (entityFilter u (entityId e))
                                   (entityFilter u' id')); [reflexivity| |].
    + intros d. now apply entityFilter_other_key.
    + apply (entityFilter_other_key u (entityId e)); [assumption|].
      now apply entityFilter_key.
  - subst s'. simpl. unfold find, getEntity, findOne. rewrite !length_map.
    rewrite length_filter_replaceOne.
    + now destruct (List.find (entityFilter u (entityId e))
                              (entitiesCollection s)).
    + intros d Hd. apply entityFilter_key in Hd. injection Hd as Hu _.
      unfold entUserFilter. rewrite Hu. apply String.eqb_refl.
    + unfold entUserFilter. simpl. apply String.eqb_refl.
Qed.

(** X2.  [deleteEntity(u, E)] changes what [getEntity] returns for no
    other [(userId, entityId)]; the relation documents that remain are
    exactly those that are not relations of [u] touching [E], so the
    relations touching [E] go even when no entity [E] was stored; when
    none was stored the entity collection is unchanged. *)
Theorem deleteEntity_touches_one_entity (s : Store) (u E : string) :
  let s' := deleteEntity s u E in
  (forall u' id', (u', id') <> (u, E) ->
                  getEntity s' u' id' = getEntity s u' id')
  /\ (forall d, In d (relationsCollection s')
                <-> In d (relationsCollection s)
                    /\ ~ (rdoc_userId d = u
                          /\ (rdoc_fromEntityId d = E
                              \/ rdoc_toEntityId d = E)))
  /\ (getEntity s u E = None ->
      entitiesCollection s' = entitiesCollection s).
Proof.
  intros s'. subst s'. split; [|split].
  - intros u' id' Hne. unfold getEntity, findOne. simpl.
    rewrite find_deleteOne_other; [reflexivity|].
    intros d. now apply entityFilter_other_key.
  - intros d. simpl. unfold deleteMany. rewrite filter_In, negb_true_iff.
    rewrite <- touchingFilter_spec.
    destruct (touchingFilter u E d); split; intros [H1 H2]; split;
      auto; congruence.
  - intros Hnone. simpl. apply deleteOne_no_match. intros d Hd.
    unfold getEntity, findOne in Hnone.
    destruct (List.find (entityFilter u E) (entitiesCollection s)) eqn:F;
      [discriminate|].
    exact (find_none _ _ F d Hd).
Qed.

(** X3.  On the entity collection [saveEntitiesBatch(u, es)] does what
    saving the entities of [es] one after the other with [saveEntity]
    does, and it leaves the relations alone; but it schedules one summary
    refresh where the single saves schedule one each, and none at all for
    an empty batch, which changes nothing. *)
Theorem saveEntitiesBatch_as_single_saves
        (s : Store) (u : string) (es : list Entity) (now : Date) :
  let batch := saveEntitiesBatch s u es now in
  let singles := fold_left (fun s0 e => saveEntity s0 u e now) es s in
  entitiesCollection batch = entitiesCollection singles
  /\ relationsCollection batch = relationsCollection s
  /\ indexCollection batch = indexCollection s
  /\ pendingUpdates batch
     = pendingUpdates s ++ match es with [] => [] | _ :: _ => [u] end
  /\ pendingUpdates singles
     = pendingUpdates s ++ repeat u (List.length es)
  /\ (es = [] -> batch = s).
Proof.
  intros batch singles.
  assert (Hsingles :
    forall es0 s0,
      let r := fold_left (fun s1 e => saveEntity s1 u e now) es0 s0 in
      entitiesCollection r = bulkReplace u now es0 (entitiesCollection s0)
      /\ pendingUpdates r = pendingUpdates s0 ++ repeat u (List.length es0)).
  { induction es0 as [|e es0 IH]; intros s0; simpl.
    - now rewrite app_nil_r.
    - destruct (IH (saveEntity s0 u e now)) as [He Hp]. split.
      + exact He.
      + rewrite Hp. simpl. now rewrite <- app_assoc. }
  destruct (Hsingles es s) as [He Hp]. fold singles in He, Hp.
  subst batch. destruct es as [|e es]; simpl.
  - rewrite app_nil_r. repeat split; auto.
  - repeat split; auto. discriminate.
Qed.

(** X4.  On a store whose unique indexes hold, [getEntitiesBatch(u, ids)]
    returns no entity twice, even when [ids] repeats an id, and at most
    as many entities as [ids] has members; it returns the empty list for
    no ids, and the same list for two lists with the same members. *)
Theorem getEntitiesBatch_no_repeats
        (s : Store) (u : string) (ids : list string) :
  indexed s ->
  NoDup (map entityId (getEntitiesBatch s u ids))
  /\ NoDup (getEntitiesBatch s u ids)
  /\ List.length (getEntitiesBatch s u ids) <= List.length ids
  /\ getEntitiesBatch s u [] = []
  /\ (forall ids', (forall id, In id ids <-> In id ids') ->
                   getEntitiesBatch s u ids' = getEntitiesBatch s u ids).
Proof.
  intros [He _].
  assert (Hnd : NoDup (map entityId (getEntitiesBatch s u ids))).
  { unfold getEntitiesBatch, find. rewrite map_map. simpl.
    apply (NoDup_map_inv (fun id => (u, id))). rewrite map_map.
    rewrite (map_ext_in _ (fun d => (edoc_userId d, edoc_entityId d))).
    - now apply NoDup_map_filter.
    - intros d Hd. apply filter_In in Hd as [_ Hd].
      apply andb_true_iff in Hd as [Hu _]. apply String.eqb_eq in Hu.
      now rewrite Hu. }
  split; [exact Hnd|]. split; [now apply NoDup_map_inv in Hnd|]. split.
  - rewrite <- (length_map entityId).
    apply NoDup_incl_length; [exact Hnd|].
    intros id Hid. apply in_map_iff in Hid as (e & <- & Hin).
    unfold getEntitiesBatch, find in Hin.
    apply in_map_iff in Hin as (d & <- & Hd).
    apply filter_In in Hd as [_ Hd].
    apply andb_true_iff in Hd as [_ Hd].
    apply existsb_exists in Hd as (x & Hx & E).
    apply String.eqb_eq in E. simpl. now rewrite E.
  - split.
    + unfold getEntitiesBatch, find, batchFilter. simpl.
      rewrite filter_no_match; [reflexivity|].
      intros d _. apply andb_false_r.
    + intros ids' Hsame. unfold getEntitiesBatch, find. f_equal.
      apply filter_ext. intros d. unfold batchFilter. f_equal.
      destruct (existsb (String.eqb (edoc_entityId d)) ids) eqn:E.
      * apply existsb_exists in E as (x & Hx & E).
        apply existsb_exists. exists x. split; [now apply Hsame | exact E].
      * destruct (existsb (String.eqb (edoc_entityId d)) ids') eqn:E';
          [|reflexivity].
        apply existsb_exists in E' as (x & Hx & E').
        assert (existsb (String.eqb (edoc_entityId d)) ids = true)
          by (apply existsb_exists; exists x; split;
              [now apply Hsame | exact E']).
        congruence.
Qed.

(* ================================================================= *)
(** ** Relations: saving, looking up, deleting *)

Lemma pairFilter_false (a b : string) (d : RelationDoc) :
  pairFilter a b d = false
  <-> (rdoc_fromEntityId d, rdoc_toEntityId d) <> (a, b).
Proof.
  rewrite <- pairFilter_key. destruct (pairFilter a b d); split; congruence.
Qed.

Lemma getRelations_saveRelation_keeps
      (s : Store) (u : string) (r : Relation) (now : Date)
      (id : string) (r0 : Relation) :
  In r0 (getRelations s u id) ->
  (fromEntityId r0, toEntityId r0) <> (fromEntityId r, toEntityId r) ->
  In r0 (getRelations (saveRelation s u r now) u id).
Proof.
  intros Hin Hne.
  apply in_getRelations in Hin as (d & Hd & Hu & Hends & ->).
  apply in_getRelations. exists d. repeat split; auto.
  simpl. apply In_replaceOne_old; [assumption|].
  now apply pairFilter_false.
Qed.


(** X6.  On a store whose unique indexes hold, after
    [deleteRelation(u, a, b)] the relations that [getRelations] returns
    for [u] are those it returned before, but for the one from [a] to
    [b]: the relation from [b] to [a] stays.  When [u] holds no relation
    from [a] to [b] the collection is unchanged. *)
Theorem deleteRelation_removes_one_directed_edge
        (s : Store) (u a b : string) :
  indexed s ->
  let s' := deleteRelation s u a b in
  (forall id r0,
      In r0 (getRelations s' u id)
      <-> In r0 (getRelations s u id)
          /\ (fromEntityId r0, toEntityId r0) <> (a, b))
  /\ ((forall d, In d (relationsCollection s) -> rdoc_userId d = u ->
                 (rdoc_fromEntityId d, rdoc_toEntityId d) <> (a, b)) ->
      relationsCollection s' = relationsCollection s)
  /\ entitiesCollection s' = entitiesCollection s.
Proof.
  intros [_ Hr] s'. subst s'. split; [|split; [|reflexivity]].
  - intros id r0. rewrite !in_getRelations. simpl. split.
    + intros (d & Hd & Hu & Hends & ->).
      pose proof (deleteOne_unique_gone
                    (fun d => (rdoc_fromEntityId d, rdoc_toEntityId d))
                    (a, b) (userPairFilter u a b)
                    (relationsCollection s) d) as Hgone.
      assert (Hf : userPairFilter u a b d = false).
      { apply Hgone; auto. intros x Hx. unfold userPairFilter in Hx.
        apply andb_true_iff in Hx as [_ Hx]. now apply pairFilter_key. }
      split.
      * exists d. repeat split; auto. now apply In_deleteOne in Hd.
      * simpl. apply pairFilter_false. unfold userPairFilter in Hf.
        apply String.eqb_eq in Hu. now rewrite Hu in Hf.
    + intros [(d & Hd & Hu & Hends & ->) Hne]. exists d.
      repeat split; auto. apply In_deleteOne_other; [assumption|].
      unfold userPairFilter. simpl in Hne.
      apply pairFilter_false in Hne. rewrite Hne. apply andb_false_r.
  - intros Habs. simpl. apply deleteOne_no_match. intros d Hd.
    unfold userPairFilter.
    destruct (rdoc_userId d == u) eqn:E; [|reflexivity].
    apply String.eqb_eq in E. simpl.
    apply pairFilter_false. now apply Habs.
Qed.

(* ================================================================= *)
(** ** The per-user lifecycle *)

Lemma in_distinct (l : list string) (x : string) :
  In x (distinct l) <-> In x l.
Proof.
  induction l as [|a l IH]; simpl; [tauto|].
  rewrite filter_In, IH, negb_true_iff, String.eqb_neq.
  destruct (string_dec a x) as [->|Hne]; [tauto|].
  split; [tauto|]. intros [H|H]; [tauto|]. right. split; congruence.
Qed.

Lemma NoDup_filter {A} (g : A -> bool) (l : list A) :
  NoDup l -> NoDup (filter g l).
Proof.
  intros H. rewrite <- (map_id (filter g l)). apply NoDup_map_filter.
  now rewrite map_id.
Qed.

Lemma NoDup_distinct (l : list string) : NoDup (distinct l).
Proof.
  induction l as [|a l IH]; simpl; constructor.
  - rewrite filter_In, negb_true_iff, String.eqb_neq. tauto.
  - now apply NoDup_filter.
Qed.

Lemma filter_nonempty_iff {A} (g : A -> bool) (l : list A) :
  (0 <? List.length (filter g l)) = true
  <-> exists x, In x l /\ g x = true.
Proof.
  rewrite Nat.ltb_lt. split.
  - destruct (filter g l) as [|x l'] eqn:E; simpl; [lia|]. intros _.
    exists x. apply filter_In. rewrite E. now left.
  - intros (x & Hx & Hg).
    assert (Hin : In x (filter g l)) by (apply filter_In; auto).
    destruct (filter g l); [destruct Hin | simpl; lia].
Qed.

(** X7.  [listUsers] holds each user once, and holds [u] exactly when
    [existsForUser(u)] is true, that is when [loadForUser(u)] has an
    entity: a user who holds relations but no entity is not listed and
    does not exist. *)
Theorem listUsers_and_existsForUser (s : Store) (u : string) :
  NoDup (listUsers s)
  /\ (In u (listUsers s) <-> existsForUser s u = true)
  /\ (existsForUser s u = true <-> entities (loadForUser s u) <> [])
  /\ ((forall d, In d (entitiesCollection s) -> edoc_userId d <> u) ->
      existsForUser s u = false /\ ~ In u (listUsers s)).
Proof.
  assert (Hiff : In u (listUsers s) <-> existsForUser s u = true).
  { unfold listUsers, existsForUser, countDocuments.
    rewrite in_distinct, in_map_iff, filter_nonempty_iff.
    split; intros (d & H1 & H2); exists d.
    - split; [assumption|]. unfold entUserFilter. rewrite H1.
      apply String.eqb_refl.
    - split; [now apply String.eqb_eq | assumption]. }
  split; [apply NoDup_distinct|]. split; [exact Hiff|]. split.
  - unfold existsForUser, countDocuments. simpl. unfold find.
    rewrite Nat.ltb_lt.
    destruct (filter (entUserFilter u) (entitiesCollection s)); simpl;
      split; intros H; try lia; try discriminate; congruence.
  - intros Hnone.
    assert (Hf : existsForUser s u = false).
    { destruct (existsForUser s u) eqn:E; [|reflexivity]. exfalso.
      unfold existsForUser, countDocuments in E.
      apply filter_nonempty_iff in E as (d & Hd & Hu).
      apply String.eqb_eq in Hu. now apply (Hnone d). }
    split; [exact Hf|]. rewrite Hiff, Hf. discriminate.
Qed.

Lemma filter_deleteMany_same {A} (g : A -> bool) (c : list A) :
  filter g (deleteMany g c) = [].
Proof.
  unfold deleteMany. apply filter_no_match. intros d Hd.
  apply filter_In in Hd as [_ Hd]. now apply negb_true_iff in Hd.
Qed.

(** X8.  After [clearForUser(u)] the user has no entity, no relation and
    no summary record, so [getUserSummary(u)] computes a summary with
    zero totals; but the refreshes already scheduled stay queued, and the
    one for [u], when it runs, writes a summary record for [u] again. *)
Theorem clearForUser_empties_user (s : Store) (u : string) (now : Date) :
  let s' := clearForUser s u in
  loadForUser s' u = mkGraph [] []
  /\ existsForUser s' u = false
  /\ findOne (idxUserFilter u) (indexCollection s') = None
  /\ totalEntities (getUserSummary s' u now) = 0
  /\ totalRelations (getUserSummary s' u now) = 0
  /\ recentEntities (getUserSummary s' u now) = []
  /\ pendingUpdates s' = pendingUpdates s
  /\ (forall rest t,
         pendingUpdates s = u :: rest ->
         findOne (idxUserFilter u)
                 (indexCollection (runSummaryUpdate s' t))
         = Some (mkSummaryDoc u 0 0 [] [] [] [] t)).
Proof.
  intros s'. subst s'.
  assert (He : filter (entUserFilter u)
                      (entitiesCollection (clearForUser s u)) = [])
    by apply filter_deleteMany_same.
  assert (Hr : filter (relUserFilter u)
                      (relationsCollection (clearForUser s u)) = [])
    by apply filter_deleteMany_same.
  assert (Hi : findOne (idxUserFilter u)
                       (indexCollection (clearForUser s u)) = None).
  { unfold findOne. rewrite find_as_filter. simpl.
    now rewrite filter_deleteMany_same. }
  assert (Hg : generateSummary (clearForUser s u) u now
               = mkSummary 0 0 [] [] [] [] now).
  { unfold generateSummary, recentDocs, countDocuments, find.
    now rewrite He, Hr. }
  split; [unfold loadForUser, find; now rewrite He, Hr|].
  split; [unfold existsForUser, countDocuments; now rewrite He|].
  split; [exact Hi|].
  unfold getUserSummary. rewrite Hi, Hg. simpl.
  repeat (split; [reflexivity|]).
  intros rest t Hp. unfold runSummaryUpdate.
  change (pendingUpdates (clearForUser s u)) with (pendingUpdates s).
  rewrite Hp. cbn [indexCollection]. unfold findOne.
  rewrite (find_replaceOne_same sdoc_userId u).
  - unfold generateSummary, recentDocs, countDocuments, find. simpl.
    fold (deleteMany (entUserFilter u) (entitiesCollection s)).
    fold (deleteMany (relUserFilter u) (relationsCollection s)).
    now rewrite !filter_deleteMany_same.
  - intros d. unfold idxUserFilter. apply String.eqb_eq.
  - reflexivity.
Qed.

(* ================================================================= *)
(** ** [saveForUser] *)

Lemma saveRelationsFrom_entities (rels : list Relation) :
  forall s u clock i,
    entitiesCollection (saveRelationsFrom s u rels clock i)
    = entitiesCollection s.
Proof.
  induction rels as [|r rels IH]; intros s u clock i; simpl; [reflexivity|].
  now rewrite IH.
Qed.

Lemma saveRelationsFrom_fresh (rels : list Relation) :
  forall s u clock i,
    NoDup (map (fun r => (fromEntityId r, toEntityId r)) rels) ->
    (forall r d, In r rels -> In d (relationsCollection s) ->
                 (rdoc_fromEntityId d, rdoc_toEntityId d)
                 <> (fromEntityId r, toEntityId r)) ->
    relationsCollection (saveRelationsFrom s u rels clock i)
    = relationsCollection s ++ relationDocsFrom u rels clock i.
Proof.
  induction rels as [|r rels IH]; intros s u clock i Hnd Hfresh; simpl.
  - unfold relationDocsFrom. simpl. now rewrite app_nil_r.
  - simpl in Hnd. apply NoDup_cons_iff in Hnd as [Hr Hnd].
    rewrite IH; [|assumption|].
    + simpl. rewrite replaceOne_no_match.
      * unfold relationDocsFrom. simpl. now rewrite <- app_assoc.
      * intros d Hd. apply pairFilter_false.
        apply (Hfresh r d); [now left | assumption].
    + intros r' d Hr' Hd. simpl in Hd.
      apply In_replaceOne in Hd as [->|Hd].
      * simpl. intros E. apply Hr. rewrite E.
        now apply (in_map (fun r => (fromEntityId r, toEntityId r))).
      * apply Hfresh; [now right | assumption].
Qed.

Lemma bulkReplace_fresh (u : string) (now : Date) (es : list Entity) :
  forall c,
    NoDup (map entityId es) ->
    (forall e d, In e es -> In d c ->
                 (edoc_userId d, edoc_entityId d) <> (u, entityId e)) ->
    bulkReplace u now es c = c ++ map (fun e => entityDocument u e now) es.
Proof.
  unfold bulkReplace.
  induction es as [|e es IH]; intros c Hnd Hfresh; simpl.
  - now rewrite app_nil_r.
  - apply NoDup_cons_iff in Hnd as [He Hnd].
    rewrite IH; [|assumption|].
    + rewrite replaceOne_no_match; [now rewrite <- app_assoc|].
      intros d Hd. destruct (entityFilter u (entityId e) d) eqn:E;
        [|reflexivity].
      apply entityFilter_key in E. exfalso.
      now apply (Hfresh e d (or_introl eq_refl) Hd).
    + intros e' d He' Hd. apply In_replaceOne in Hd as [->|Hd].
      * simpl. intros [= E]. apply He. rewrite E. now apply in_map.
      * apply Hfresh; [now right | assumption].
Qed.

Lemma filter_all {A} (g : A -> bool) (l : list A) :
  (forall x, In x l -> g x = true) -> filter g l = l.
Proof.
  induction l as [|x l IH]; intros H; simpl; [reflexivity|].
  rewrite (H x (or_introl eq_refl)). f_equal. apply IH.
  intros y Hy. apply H. now right.
Qed.

Lemma map_fst_combine_seq {A B} (f : A -> B) (l : list A) :
  forall i, map (fun p : A * nat => f (fst p))
                (combine l (seq i (List.length l)))
            = map f l.
Proof.
  induction l as [|x l IH]; intros i; simpl; [reflexivity|].
  f_equal. apply IH.
Qed.

(** X9.  Saved into the empty store, a graph whose entities have pairwise
    different ids and whose relations join pairwise different ordered
    pairs is loaded back by [loadForUser], in whichever order: the
    entities loaded are, each once, the entities of the graph as
    [getEntity] returns them after a save, and the relations loaded are,
    each once, the relations of the graph with default strength and
    creation time filled in and with the [relationId] [from-type-to],
    whatever [relationId] the caller gave. *)
Theorem saveForUser_then_loadForUser
        (u : string) (es : list Entity) (rels : list Relation)
        (now : Date) (clock : nat -> Date) :
  NoDup (map entityId es) ->
  NoDup (map (fun r => (fromEntityId r, toEntityId r)) rels) ->
  let loaded :=
      loadForUser (saveForUser emptyStore u (mkGraph es rels) now clock) u in
  Permutation (entities loaded) (map (fun e => storedEntity e now) es)
  /\ Permutation (relations loaded)
                 (map documentToRelation (relationDocsFrom u rels clock 0))
  /\ Permutation (map relationId (relations loaded))
                 (map generateRelationId rels)
  /\ (forall r, In r (relations loaded) ->
                relationId r = generateRelationId r)
  /\ List.length (entities loaded) = List.length es
  /\ List.length (relations loaded) = List.length rels.
Proof.
  intros Hes Hrels loaded.
  assert (He : entities loaded = map (fun e => storedEntity e now) es).
  { subst loaded. unfold loadForUser, saveForUser. simpl.
    rewrite saveRelationsFrom_entities.
    destruct es as [|e0 es0]; [reflexivity|].
    unfold saveEntitiesBatch.
    change (entitiesCollection
              (updateSummaryIndex
                 (mkStore (bulkReplace u now (e0 :: es0)
                                       (entitiesCollection emptyStore))
                          (relationsCollection emptyStore)
                          (indexCollection emptyStore)
                          (pendingUpdates emptyStore)) u))
      with (bulkReplace u now (e0 :: es0) []).
    rewrite bulkReplace_fresh; [|assumption | intros e d _ []].
    unfold find. rewrite app_nil_l, filter_all.
    - now rewrite map_map.
    - intros d Hd. apply in_map_iff in Hd as (e & <- & _).
      unfold entUserFilter. simpl. apply String.eqb_refl. }
  assert (Hr : relations loaded
               = map documentToRelation (relationDocsFrom u rels clock 0)).
  { subst loaded. unfold loadForUser, saveForUser. simpl.
    rewrite saveRelationsFrom_fresh; [|assumption|].
    - assert (Hempty : relationsCollection
                         (saveEntitiesBatch emptyStore u es now) = [])
        by now destruct es.
      rewrite Hempty, app_nil_l. unfold find. rewrite filter_all;
        [reflexivity|].
      intros d Hd. unfold relationDocsFrom in Hd.
      apply in_map_iff in Hd as (p & <- & _).
      unfold relUserFilter. simpl. apply String.eqb_refl.
    - intros r d _ Hd. now destruct es. }
  split; [now rewrite He|]. split; [now rewrite Hr|].
  split; [|split; [|split]].
  - rewrite Hr. unfold relationDocsFrom. rewrite !map_map. simpl.
    now rewrite (map_fst_combine_seq generateRelationId).
  - intros r Hin. rewrite Hr in Hin. unfold relationDocsFrom in Hin.
    rewrite map_map in Hin. now apply in_map_iff in Hin as (p & <- & _).
  - now rewrite He, length_map.
  - rewrite Hr. unfold relationDocsFrom.
    rewrite !length_map, length_combine, length_seq. lia.
Qed.

(** X10.  [saveForUser(u, graph)] adds to what is stored and replaces
    nothing else: an entity of [u] whose id is not among the entities of
    [graph] is still returned by [getEntity], and a relation of [u] on an
    ordered pair that no relation of [graph] joins is still returned by
    [getRelations]. *)
Theorem saveForUser_keeps_the_rest
        (s : Store) (u : string) (graph : KnowledgeGraph)
        (now : Date) (clock : nat -> Date) :
  let s' := saveForUser s u graph now clock in
  (forall id, ~ In id (map entityId (entities graph)) ->
              getEntity s' u id = getEntity s u id)
  /\ (forall id r0,
         In r0 (getRelations s u id) ->
         ~ In (fromEntityId r0, toEntityId r0)
              (map (fun r => (fromEntityId r, toEntityId r))
                   (relations graph)) ->
         In r0 (getRelations s' u id)).
Proof.
  intros s'. subst s'. unfold saveForUser. split.
  - intros id Hid. unfold getEntity.
    rewrite saveRelationsFrom_entities.
    destruct (entities graph) as [|e0 es0] eqn:E; [reflexivity|].
    rewrite <- E in *. unfold saveEntitiesBatch. rewrite E at 1.
    simpl. f_equal. apply findOne_bulkReplace_other.
    intros e He Heq. apply Hid. rewrite <- Heq. now apply in_map.
  - intros id r0 Hin Hfree.
    assert (Hbatch : In r0 (getRelations
                              (saveEntitiesBatch s u (entities graph) now)
                              u id)).
    { unfold getRelations in *. now destruct (entities graph). }
    revert Hbatch Hfree.
    generalize (saveEntitiesBatch s u (entities graph) now) as s0.
    generalize 0 as i.
    induction (relations graph) as [|r rels IH]; intros i s0 Hs0 Hfree;
      simpl; [assumption|].
    apply IH.
    + apply getRelations_saveRelation_keeps; [assumption|].
      simpl. intros Heq. apply Hfree. left. now symmetry.
    + intros H. apply Hfree. now right.
Qed.

(* ================================================================= *)
(** ** [cleanup] *)

Lemma fold_updateSummaryIndex (users : list string) :
  forall s,
    let s' := fold_left updateSummaryIndex users s in
    entitiesCollection s' = entitiesCollection s
    /\ relationsCollection s' = relationsCollection s
    /\ indexCollection s' = indexCollection s
    /\ pendingUpdates s' = pendingUpdates s ++ users.
Proof.
  induction users as [|x users IH]; intros s; simpl.
  - now rewrite app_nil_r.
  - destruct (IH (updateSummaryIndex s x)) as (He & Hr & Hi & Hp).
    rewrite He, Hr, Hi, Hp. simpl. now rewrite <- app_assoc.
Qed.

Lemma orphanFilter_false (c : list EntityDoc) (d : RelationDoc) :
  orphanFilter (distinct (map edoc_entityId c)) d = false
  <-> (exists e, In e c /\ edoc_entityId e = rdoc_fromEntityId d)
      /\ (exists e, In e c /\ edoc_entityId e = rdoc_toEntityId d).
Proof.
  unfold orphanFilter.
  rewrite orb_false_iff, !negb_false_iff, !has_true, !in_distinct,
          !in_map_iff.
  split; intros [(e1 & H1 & H2) (e2 & H3 & H4)]; split; eauto.
Qed.

(** X11.  [cleanup] keeps exactly the relation documents both of whose
    endpoints are the [entityId] of some entity document, of whichever
    user: the test has no [userId] member.  It changes no entity and no
    summary record, schedules one refresh for each listed user, and
    removes nothing more when run again. *)
Theorem cleanup_removes_orphaned_relations (s : Store) :
  let s' := cleanup s in
  entitiesCollection s' = entitiesCollection s
  /\ indexCollection s' = indexCollection s
  /\ (forall d,
         In d (relationsCollection s')
         <-> In d (relationsCollection s)
             /\ (exists e, In e (entitiesCollection s)
                           /\ edoc_entityId e = rdoc_fromEntityId d)
             /\ (exists e, In e (entitiesCollection s)
                           /\ edoc_entityId e = rdoc_toEntityId d))
  /\ pendingUpdates s' = pendingUpdates s ++ listUsers s
  /\ relationsCollection (cleanup s') = relationsCollection s'.
Proof.
  intros s'. subst s'. unfold cleanup.
  set (ids := distinct (map edoc_entityId (entitiesCollection s))).
  set (s1 := mkStore (entitiesCollection s)
                     (deleteMany (orphanFilter ids) (relationsCollection s))
                     (indexCollection s) (pendingUpdates s)).
  destruct (fold_updateSummaryIndex (listUsers s1) s1) as (He & Hr & Hi & Hp).
  cbv zeta in He, Hr, Hi, Hp.
  split; [exact He|]. split; [exact Hi|]. split; [|split; [exact Hp|]].
  - intros d. rewrite Hr. simpl. unfold deleteMany.
    rewrite filter_In, negb_true_iff. subst ids.
    now rewrite orphanFilter_false.
  - set (s2 := fold_left updateSummaryIndex (listUsers s1) s1) in *.
    set (ids2 := distinct (map edoc_entityId (entitiesCollection s2))).
    set (s3 := mkStore (entitiesCollection s2)
                       (deleteMany (orphanFilter ids2)
                                   (relationsCollection s2))
                       (indexCollection s2) (pendingUpdates s2)).
    destruct (fold_updateSummaryIndex (listUsers s3) s3) as (_ & Hr3 & _).
    cbv zeta in Hr3. rewrite Hr3. subst s3. simpl.
    subst ids2. rewrite He, Hr. simpl. fold ids.
    unfold deleteMany. apply filter_all.
    intros d Hd. now apply filter_In in Hd as [_ Hd].
Qed.

(* ================================================================= *)
(** ** The summary: histogram, staleness, convergence *)

Lemma countFor_bump (k k0 : string) (acc : list (string * nat)) :
  countFor k0 (bump k acc)
  = countFor k0 acc + (if k == k0 then 1 else 0).
Proof.
  induction acc as [|[k' n] acc IH]; simpl.
  - now destruct (k == k0).
  - destruct (k' == k) eqn:E; simpl.
    + apply String.eqb_eq in E. subst k'.
      destruct (k == k0); lia.
    + rewrite IH. destruct (k' == k0) eqn:E0; [|reflexivity].
      apply String.eqb_eq in E0. subst k'. rewrite String.eqb_sym, E. lia.
Qed.

Lemma keys_bump (k : string) (acc : list (string * nat)) :
  map fst (bump k acc)
  = if has (map fst acc) k then map fst acc else map fst acc ++ [k].
Proof.
  induction acc as [|[k' n] acc IH]; simpl; [reflexivity|].
  unfold has in *. simpl. rewrite (String.eqb_sym k k').
  destruct (k' == k); simpl; [reflexivity|].
  rewrite IH. now destruct (existsb (String.eqb k) (map fst acc)).
Qed.

Lemma sum_bump (k : string) (acc : list (string * nat)) :
  list_sum (map snd (bump k acc)) = S (list_sum (map snd acc)).
Proof.
  induction acc as [|[k' n] acc IH]; simpl; [reflexivity|].
  destruct (k' == k); simpl; [reflexivity|]. rewrite IH. lia.
Qed.

Lemma positive_bump (k : string) (acc : list (string * nat)) :
  Forall (fun p => 0 < snd p) acc ->
  Forall (fun p => 0 < snd p) (bump k acc).
Proof.
  induction acc as [|[k' n] acc IH]; intros H; simpl.
  - repeat constructor.
  - inversion H as [|? ? Hn Hacc]; subst.
    destruct (k' == k); constructor; simpl in *; auto; lia.
Qed.

(** The histogram after folding [bump] over [keys]. *)
Lemma fold_bump (keys : list string) :
  forall acc,
    let r := fold_left (fun a k => bump k a) keys acc in
    (NoDup (map fst acc) -> NoDup (map fst r))
    /\ (Forall (fun p => 0 < snd p) acc -> Forall (fun p => 0 < snd p) r)
    /\ (forall k, countFor k r
                  = countFor k acc + count_occ string_dec keys k)
    /\ list_sum (map snd r) = list_sum (map snd acc) + List.length keys.
Proof.
  induction keys as [|k keys IH]; intros acc; simpl.
  - repeat split; auto.
  - destruct (IH (bump k acc)) as (Hnd & Hpos & Hcount & Hsum).
    split; [|split; [|split]].
    + intros H. apply Hnd. rewrite keys_bump.
      destruct (has (map fst acc) k) eqn:E; [assumption|].
      apply has_false in E.
      apply NoDup_app; [assumption | repeat constructor; intros [] |].
      intros x Hx [<-|[]]. contradiction.
    + intros H. apply Hpos. now apply positive_bump.
    + intros k0. rewrite Hcount, countFor_bump.
      destruct (string_dec k k0) as [->|Hne].
      * rewrite String.eqb_refl. lia.
      * apply String.eqb_neq in Hne. rewrite Hne. lia.
    + rewrite Hsum, sum_bump. lia.
Qed.

Lemma In_countFor (acc : list (string * nat)) (k : string) (n : nat) :
  NoDup (map fst acc) -> In (k, n) acc -> countFor k acc = n.
Proof.
  induction acc as [|[k' n'] acc IH]; intros Hnd Hin; [destruct Hin|].
  simpl in Hnd. apply NoDup_cons_iff in Hnd as [Hk Hnd]. simpl.
  destruct Hin as [[= -> ->]|Hin].
  - now rewrite String.eqb_refl.
  - destruct (k' == k) eqn:E; [|now apply IH].
    apply String.eqb_eq in E. subst k'. exfalso. apply Hk.
    now apply (in_map fst) in Hin.
Qed.

Lemma countFor_In (acc : list (string * nat)) (k : string) :
  0 < countFor k acc -> In (k, countFor k acc) acc.
Proof.
  induction acc as [|[k' n'] acc IH]; simpl; [lia|].
  destruct (k' == k) eqn:E.
  - apply String.eqb_eq in E. subst k'. now left.
  - right. now apply IH.
Qed.

Lemma countFor_absent (acc : list (string * nat)) (k : string) :
  ~ In k (map fst acc) -> countFor k acc = 0.
Proof.
  induction acc as [|[k' n] acc IH]; simpl; [reflexivity|].
  intros H. destruct (k' == k) eqn:E.
  - apply String.eqb_eq in E. tauto.
  - apply IH. tauto.
Qed.

Lemma sum_without_key (acc : list (string * nat)) (k : string) :
  NoDup (map fst acc) ->
  list_sum (map snd (filter (fun g => negb (fst g == k)) acc))
  + countFor k acc
  = list_sum (map snd acc).
Proof.
  induction acc as [|[k' n] acc IH]; intros Hnd; simpl; [reflexivity|].
  simpl in Hnd. apply NoDup_cons_iff in Hnd as [Hk Hnd].
  destruct (k' == k) eqn:E; simpl.
  - apply String.eqb_eq in E. subst k'.
    rewrite <- (IH Hnd), (countFor_absent acc k Hk). lia.
  - rewrite <- (IH Hnd). lia.
Qed.

(** X12.  The [entityTypes] of a freshly computed summary have one entry
    per entity type of the user other than ["__proto__"]: such a type has
    an entry exactly when the user has an entity of that type, and the
    entry holds the number of the user's entities of that type.  The type
    ["__proto__"] never has an entry, so the entries add up to
    [totalEntities] less the number of the user's entities of that
    type. *)
Theorem generateSummary_entityTypes (s : Store) (u : string) (now : Date) :
  let g := generateSummary s u now in
  let types := map edoc_entityType
                   (find (entUserFilter u) (entitiesCollection s)) in
  NoDup (map fst (entityTypes g))
  /\ (forall t n, In (t, n) (entityTypes g)
                  <-> t <> "__proto__"
                      /\ n = count_occ string_dec types t /\ 0 < n)
  /\ (forall t, In t (map fst (entityTypes g))
                <-> In t types /\ t <> "__proto__")
  /\ list_sum (map snd (entityTypes g))
     + count_occ string_dec types "__proto__"
     = totalEntities g.
Proof.
  intros g types. subst g. simpl. fold types.
  unfold toPlainObject, groupCount.
  destruct (fold_bump types []) as (Hnd & Hpos & Hcount & Hsum).
  cbv zeta in Hnd, Hpos, Hcount, Hsum. simpl in Hcount, Hsum.
  specialize (Hnd (NoDup_nil _)). specialize (Hpos (Forall_nil _)).
  set (h := fold_left (fun a k => bump k a) types []) in *.
  assert (Hentry : forall t n, In (t, n) h
                               <-> n = count_occ string_dec types t /\ 0 < n).
  { intros t n. split.
    - intros Hin. split.
      + rewrite <- Hcount. symmetry. now apply In_countFor.
      + rewrite Forall_forall in Hpos. exact (Hpos _ Hin).
    - intros [-> Hn]. rewrite <- Hcount in *. now apply countFor_In. }
  assert (Hkept : forall t n,
             In (t, n) (filter (fun g => negb (fst g == "__proto__")) h)
             <-> t <> "__proto__"
                 /\ n = count_occ string_dec types t /\ 0 < n).
  { intros t n. rewrite filter_In, Hentry. simpl.
    rewrite negb_true_iff, String.eqb_neq. tauto. }
  assert (Htotal : list_sum
                     (map snd (filter (fun g => negb (fst g == "__proto__"))
                                      h))
                   + count_occ string_dec types "__proto__"
                   = countDocuments (entUserFilter u) (entitiesCollection s)).
  { rewrite <- Hcount, sum_without_key by assumption.
    rewrite Hsum. unfold countDocuments, types, find.
    now rewrite length_map. }
  split; [now apply NoDup_map_filter|]. split; [exact Hkept|].
  split; [|exact Htotal].
  intros t. rewrite in_map_iff. split.
  - intros ([t' n] & <- & Hin). apply Hkept in Hin as (Hne & -> & Hn).
    simpl. split; [|assumption].
    destruct (in_dec string_dec t' types) as [Hi|Hi]; [assumption|].
    apply (count_occ_not_In string_dec) in Hi. lia.
  - intros [Hin Hne]. apply (count_occ_In string_dec) in Hin.
    exists (t, count_occ string_dec types t). split; [reflexivity|].
    apply Hkept. repeat split; auto; lia.
Qed.

(** X13.  A cached summary is not touched by a write: when [u] has a
    summary record and [saveEntity(u, e)] stores a new entity, until the
    scheduled refresh runs [getUserSummary(u)] still returns the record
    as it was, so a [totalEntities] that was right before the save is one
    short after it. *)
Theorem getUserSummary_stale_after_saveEntity
        (s : Store) (u : string) (e : Entity) (now t : Date) (d : SummaryDoc) :
  findOne (idxUserFilter u) (indexCollection s) = Some d ->
  getEntity s u (entityId e) = None ->
  let s' := saveEntity s u e now in
  getUserSummary s' u t = summaryOfDoc d
  /\ getUserSummary s' u t = getUserSummary s u t
  /\ totalEntities (generateSummary s' u t)
     = S (totalEntities (generateSummary s u t))
  /\ (sdoc_totalEntities d = totalEntities (generateSummary s u t) ->
      S (totalEntities (getUserSummary s' u t))
      = List.length (entities (loadForUser s' u)))
  /\ pendingUpdates s' = pendingUpdates s ++ [u].
Proof.
  intros Hd Hnew s'.
  assert (Hcached : getUserSummary s' u t = summaryOfDoc d).
  { unfold getUserSummary. subst s'. simpl. now rewrite Hd. }
  assert (Hcount : totalEntities (generateSummary s' u t)
                   = S (totalEntities (generateSummary s u t))).
  { subst s'. simpl. unfold countDocuments.
    rewrite length_filter_replaceOne.
    - unfold getEntity, findOne in Hnew.
      now destruct (List.find (entityFilter u (entityId e))
                              (entitiesCollection s)).
    - intros x Hx. apply entityFilter_key in Hx. injection Hx as Hu _.
      unfold entUserFilter. rewrite Hu. apply String.eqb_refl.
    - unfold entUserFilter. simpl. apply String.eqb_refl. }
  split; [exact Hcached|]. split.
  - rewrite Hcached. unfold getUserSummary. now rewrite Hd.
  - split; [exact Hcount|]. split; [|reflexivity].
    intros Hright. rewrite Hcached. simpl. rewrite Hright.
    rewrite <- Hcount. simpl. unfold countDocuments, find.
    now rewrite length_map.
Qed.

Lemma generateSummary_same_collections (s s' : Store) (u : string) (t : Date) :
  entitiesCollection s' = entitiesCollection s ->
  relationsCollection s' = relationsCollection s ->
  generateSummary s' u t = generateSummary s u t.
Proof.
  intros He Hr. unfold generateSummary, recentDocs. now rewrite He, Hr.
Qed.

Lemma idxUserFilter_key (u : string) (d : SummaryDoc) :
  idxUserFilter u d = true <-> sdoc_userId d = u.
Proof. unfold idxUserFilter. apply String.eqb_eq. Qed.

Lemma runSummaryUpdate_step (s : Store) (v : string) (rest : list string)
      (t : Date) :
  pendingUpdates s = v :: rest ->
  let s' := runSummaryUpdate s t in
  entitiesCollection s' = entitiesCollection s
  /\ relationsCollection s' = relationsCollection s
  /\ pendingUpdates s' = rest
  /\ summaryRecordFresh s v (indexCollection s')
  /\ (forall u, u <> v ->
                findOne (idxUserFilter u) (indexCollection s')
                = findOne (idxUserFilter u) (indexCollection s))
  /\ (summaryIndexUnique (indexCollection s) ->
      summaryIndexUnique (indexCollection s')).
Proof.
  intros Hp. unfold runSummaryUpdate. rewrite Hp. simpl.
  repeat (split; [reflexivity|]). split; [|split].
  - eexists. exists t. unfold findOne. split.
    + apply (find_replaceOne_same sdoc_userId v);
        [apply idxUserFilter_key | reflexivity].
    + reflexivity.
  - intros u Hne. unfold findOne. apply find_replaceOne_other.
    + intros d Hd. apply idxUserFilter_key in Hd.
      unfold idxUserFilter. rewrite Hd. apply String.eqb_neq. congruence.
    + unfold idxUserFilter. simpl. apply String.eqb_neq. congruence.
  - intros Hu. apply (replaceOne_keeps_unique sdoc_userId v);
      auto using idxUserFilter_key.
Qed.

Lemma runSummaryUpdates_all (pending : list string) :
  forall s clock i,
    pendingUpdates s = pending ->
    let s' := runSummaryUpdates (List.length pending) s clock i in
    entitiesCollection s' = entitiesCollection s
    /\ relationsCollection s' = relationsCollection s
    /\ pendingUpdates s' = []
    /\ (forall u, summaryRecordFresh s u (indexCollection s) ->
                  summaryRecordFresh s u (indexCollection s'))
    /\ (forall u, In u pending ->
                  summaryRecordFresh s u (indexCollection s'))
    /\ (forall u, ~ In u pending ->
                  findOne (idxUserFilter u) (indexCollection s')
                  = findOne (idxUserFilter u) (indexCollection s))
    /\ (summaryIndexUnique (indexCollection s) ->
        summaryIndexUnique (indexCollection s')).
Proof.
  induction pending as [|v rest IH]; intros s clock i Hp; simpl.
  - repeat split; auto. intros u [].
  - destruct (runSummaryUpdate_step s v rest (clock i) Hp)
      as (He1 & Hr1 & Hp1 & Hfresh1 & Hother1 & Huniq1).
    cbv zeta in He1, Hr1, Hp1, Hfresh1, Hother1, Huniq1.
    set (s1 := runSummaryUpdate s (clock i)) in *.
    destruct (IH s1 clock (S i) Hp1)
      as (He & Hr & Hp' & Hkeep & Hnew & Hout & Huniq).
    cbv zeta in He, Hr, Hp', Hkeep, Hnew, Hout, Huniq.
    set (s' := runSummaryUpdates (List.length rest) s1 clock (S i)) in *.
    assert (Hsame : forall u c, summaryRecordFresh s1 u c
                                <-> summaryRecordFresh s u c).
    { intros u c. unfold summaryRecordFresh.
      split; intros (d & t & Hf & Hs); exists d, t; split; auto.
      - now rewrite <- (generateSummary_same_collections s s1).
      - now rewrite (generateSummary_same_collections s s1). }
    assert (Hstep : forall u, summaryRecordFresh s u (indexCollection s) ->
                              summaryRecordFresh s u (indexCollection s1)).
    { intros u Hu. destruct (string_dec u v) as [->|Hne]; [assumption|].
      destruct Hu as (d & t & Hf & Hs). exists d, t.
      split; [now rewrite Hother1 | assumption]. }
    split; [congruence|]. split; [congruence|]. split; [assumption|].
    split; [|split; [|split]].
    + intros u Hu. apply Hsame, Hkeep, Hsame. now apply Hstep.
    + intros u [<-|Hin].
      * apply Hsame, Hkeep, Hsame. assumption.
      * apply Hsame. now apply Hnew.
    + intros u Hnot. rewrite Hout by tauto. apply Hother1.
      intros ->. apply Hnot. now left.
    + auto.
Qed.

(** X14.  Once every queued refresh has run, and before the next write,
    the queue is empty, the entities and relations are as they were, and
    for every user that had a refresh queued [getUserSummary] returns
    what [generateSummary] computes on the store, up to its time stamp.
    The summary records of the other users are untouched, and the index
    collection still holds at most one record per user if it did. *)
Theorem drainSummaryUpdates_converges (s : Store) (clock : nat -> Date) :
  let s' := drainSummaryUpdates s clock in
  pendingUpdates s' = []
  /\ entitiesCollection s' = entitiesCollection s
  /\ relationsCollection s' = relationsCollection s
  /\ (forall u now, In u (pendingUpdates s) ->
                    exists t,
                      getUserSummary s' u now = generateSummary s' u t
                      /\ totalEntities (getUserSummary s' u now)
                         = List.length (entities (loadForUser s' u))
                      /\ totalRelations (getUserSummary s' u now)
                         = List.length (relations (loadForUser s' u)))
  /\ (forall u, ~ In u (pendingUpdates s) ->
                findOne (idxUserFilter u) (indexCollection s')
                = findOne (idxUserFilter u) (indexCollection s))
  /\ (summaryIndexUnique (indexCollection s) ->
      summaryIndexUnique (indexCollection s')).
Proof.
  intros s'. subst s'. unfold drainSummaryUpdates.
  destruct (runSummaryUpdates_all (pendingUpdates s) s clock 0 eq_refl)
    as (He & Hr & Hp & _ & Hnew & Hout & Huniq).
  cbv zeta in He, Hr, Hp, Hnew, Hout, Huniq.
  set (s' := runSummaryUpdates (List.length (pendingUpdates s)) s clock 0)
    in *.
  split; [assumption|]. split; [assumption|]. split; [assumption|].
  split; [|split; assumption].
  intros u now Hin. destruct (Hnew u Hin) as (d & t & Hf & Hs).
  exists t.
  assert (Hg : getUserSummary s' u now = generateSummary s' u t).
  { unfold getUserSummary. rewrite Hf, Hs.
    symmetry. now apply generateSummary_same_collections. }
  split; [exact Hg|]. rewrite Hg. simpl. unfold countDocuments, find.
  now rewrite !length_map.
Qed.

(* ================================================================= *)
(** ** The traversal: what it returns *)

Lemma getEntity_entityId (s : Store) (u id : string) (e : Entity) :
  getEntity s u id = Some e -> entityId e = id.
Proof.
  unfold getEntity, findOne.
  destruct (List.find (entityFilter u id) (entitiesCollection s)) eqn:F;
    [|discriminate].
  intros [= <-]. apply find_some in F as [_ F].
  apply entityFilter_key in F. now injection F.
Qed.

Lemma entityIds_of_nodes (s : Store) (u : string) (nodes : list string) :
  NoDup nodes ->
  NoDup (map entityId (flat_map (entityList s u) nodes))
  /\ forall id, In id (map entityId (flat_map (entityList s u) nodes)) ->
                In id nodes.
Proof.
  induction nodes as [|n nodes IH]; intros Hnd; simpl.
  - split; [constructor | tauto].
  - apply NoDup_cons_iff in Hnd as [Hn Hnd].
    destruct (IH Hnd) as [IH1 IH2]. unfold entityList at 1 3.
    destruct (getEntity s u n) as [e|] eqn:E; simpl.
    + rewrite (getEntity_entityId _ _ _ _ E). split.
      * constructor; [|assumption]. intros H. apply Hn. now apply IH2.
      * intros id [<-|H]; [now left | right; now apply IH2].
    + split; [assumption|]. intros id H. right. now apply IH2.
Qed.

(** X15.  Whatever the depth, [getConnectedEntities(u, X, depth)] returns
    no two entities with the same id; every entity it returns is the one
    [getEntity] returns for that id and user, and every relation it
    returns is one that [loadForUser] returns for the user. *)
Theorem getConnectedEntities_entities_distinct
        (s : Store) (u X : string) (depth : Z) :
  exists g,
    getConnectedEntities s u X depth = Some g
    /\ NoDup (map entityId (entities g))
    /\ (forall e, In e (entities g) -> getEntity s u (entityId e) = Some e)
    /\ (forall r, In r (relations g) -> In r (relations (loadForUser s u))).
Proof.
  destruct (getConnectedEntities_by_trace s u X depth)
    as (g & Hg & He & Hr & Hnd & _).
  exists g. split; [exact Hg|]. split; [|split].
  - rewrite He. now apply entityIds_of_nodes.
  - intros e Hin. rewrite He in Hin.
    apply in_flat_map in Hin as (id & _ & Hin).
    apply in_entityList in Hin.
    now rewrite (getEntity_entityId _ _ _ _ Hin).
  - intros r Hin. rewrite Hr in Hin.
    apply in_flat_map in Hin as (id & _ & Hin).
    apply in_getRelations in Hin as (d & Hd & Hu & _ & ->).
    simpl. apply in_map. apply filter_In. split; [assumption|].
    now apply String.eqb_eq.
Qed.

(** X16.  With a negative depth [getConnectedEntities] returns no entity
    and no relation, also when the start entity exists. *)
Theorem getConnectedEntities_negative_depth
        (s : Store) (u X : string) (depth : Z) :
  (depth < 0)%Z ->
  getConnectedEntities s u X depth = Some (mkGraph [] []).
Proof.
  intros Hneg. apply Z.ltb_lt in Hneg.
  assert (Hstep : bfsStep s u depth (bfsInit X) = mkBfs [] [] [] []).
  { apply (step_skip s u depth (bfsInit X) X 0%Z []); [reflexivity|].
    exact Hneg. }
  unfold getConnectedEntities, bfsFuel.
  set (n := S (2 * countDocuments (relUserFilter u) (relationsCollection s))
            * S (countDocuments (relUserFilter u) (relationsCollection s))).
  change (bfsLoop s u depth (S (S n)) (bfsInit X))
    with (bfsLoop s u depth (S n) (bfsStep s u depth (bfsInit X))).
  rewrite Hstep. reflexivity.
Qed.

(* ================================================================= *)
(** ** The traversal returns what lies within [depth] relations *)

Lemma adjacent_next (s : Store) (u p b : string) :
  adjacent s u p b
  <-> exists r, In r (getRelations s u p) /\ nextEntityId p r = b.
Proof.
  split.
  - intros (d & Hd & Hu & Hends). exists (documentToRelation d). split.
    + apply in_getRelations. exists d. repeat split; auto.
      destruct Hends as [[H _]|[_ H]]; auto.
    + unfold nextEntityId. simpl.
      destruct (rdoc_fromEntityId d == p) eqn:E.
      * apply String.eqb_eq in E.
        destruct Hends as [[_ H]|[H1 H2]]; congruence.
      * apply String.eqb_neq in E.
        destruct Hends as [[H _]|[H _]]; congruence.
  - intros (r & Hr & Hnext).
    apply in_getRelations in Hr as (d & Hd & Hu & Hends & ->).
    exists d. repeat split; auto. unfold nextEntityId in Hnext.
    simpl in Hnext. destruct (rdoc_fromEntityId d == p) eqn:E.
    + apply String.eqb_eq in E. now left.
    + apply String.eqb_neq in E. right. destruct Hends; [contradiction|].
      now split.
Qed.

Lemma StronglySorted_app {A} (R : A -> A -> Prop) (l1 l2 : list A) :
  StronglySorted R l1 -> StronglySorted R l2 ->
  (forall a b, In a l1 -> In b l2 -> R a b) ->
  StronglySorted R (l1 ++ l2).
Proof.
  induction l1 as [|x l1 IH]; intros H1 H2 H12; simpl; [assumption|].
  inversion H1 as [|? ? Hs Hall]; subst. constructor.
  - apply IH; auto. intros a b Ha Hb. apply H12; [now right | assumption].
  - apply Forall_app. split; [assumption|].
    apply Forall_forall. intros b Hb. apply H12; [now left | assumption].
Qed.

Lemma ordered_head_least (cur : string) (c0 : Z) (q : list (string * Z)) :
  ordered ((cur, c0) :: q) ->
  forall id cd, In (id, cd) q -> (c0 <= cd <= c0 + 1)%Z.
Proof.
  intros [Hs Hb] id cd Hin. split.
  - simpl in Hs. inversion Hs as [|? ? _ Hall]; subst.
    rewrite Forall_forall in Hall. apply Hall.
    now apply (in_map snd) in Hin.
  - apply (Hb cur c0 id cd eq_refl). now right.
Qed.

Lemma ordered_tail (cur : string) (c0 : Z) (q : list (string * Z)) :
  ordered ((cur, c0) :: q) -> ordered q.
Proof.
  intros Ho. pose proof (ordered_head_least _ _ _ Ho) as Hq.
  destruct Ho as [Hs _]. split.
  - simpl in Hs. now inversion Hs.
  - intros id1 c1 id cd Hhd Hin. destruct q as [|[i c] q]; [destruct Hin|].
    injection Hhd as -> ->.
    pose proof (Hq id1 c1 (or_introl eq_refl)).
    pose proof (Hq id cd Hin). lia.
Qed.

Lemma ordered_push (cur : string) (c0 : Z) (q : list (string * Z))
      (v : list string) (ers : list Relation) :
  ordered ((cur, c0) :: q) -> ordered (q ++ pushes v cur c0 ers).
Proof.
  intros Ho. pose proof (ordered_head_least _ _ _ Ho) as Hq.
  pose proof (ordered_tail _ _ _ Ho) as [Hs _].
  assert (Hp : forall id cd, In (id, cd) (pushes v cur c0 ers) ->
                             cd = (c0 + 1)%Z).
  { intros id cd Hin. unfold pushes in Hin.
    now apply in_map_iff in Hin as (x & [= _ <-] & _). }
  split.
  - rewrite map_app. apply StronglySorted_app; [assumption| |].
    + unfold pushes. rewrite map_map. simpl.
      induction (filter _ _) as [|x l IH]; simpl; constructor; auto.
      apply Forall_forall. intros b Hb.
      apply in_map_iff in Hb as (y & <- & _). lia.
    + intros a b Ha Hb.
      apply in_map_iff in Ha as ([i c] & <- & Ha).
      apply in_map_iff in Hb as ([j c'] & <- & Hb). simpl.
      specialize (Hq i c Ha). rewrite (Hp j c' Hb). lia.
  - intros id1 c1 id cd Hhd Hin.
    assert (Hc1 : (c0 <= c1)%Z).
    { destruct q as [|[i c] q]; simpl in Hhd.
      - destruct (pushes v cur c0 ers) as [|[i c] l] eqn:E; [discriminate|].
        injection Hhd as -> ->.
        rewrite (Hp id1 c1); [lia | now left].
      - injection Hhd as -> ->.
        apply (Hq id1 c1). now left. }
    apply in_app_or in Hin as [Hin|Hin].
    + specialize (Hq id cd Hin). lia.
    + rewrite (Hp id cd Hin). lia.
Qed.

Section Reach.
Variable s : Store.
Variable u : string.
Variable depth : Z.
Variable X : string.

Local Abbreviation step := (bfsStep s u depth).
Local Abbreviation loop := (bfsLoop s u depth).
Local Abbreviation trace := (bfsTrace s u depth).

Ltac iter_cases st cur cd q Hq Hv Hd :=
  destruct (queue st) as [|[cur cd] q] eqn:Hq;
  [| destruct (has (visited st) cur || (depth <? cd)%Z) eqn:Hv;
     [| destruct (cd <? depth)%Z eqn:Hd ] ].

Lemma step_ordered (st : BfsState) :
  ordered (queue st) -> ordered (queue (step st)).
Proof.
  intros Ho. iter_cases st cur cd q Hq Hv Hd.
  - unfold bfsStep. rewrite Hq. now rewrite Hq.
  - rewrite (step_skip s u depth st cur cd q Hq Hv). simpl.
    now apply ordered_tail in Ho.
  - rewrite (step_expand s u depth st cur cd q Hq Hv Hd). simpl.
    now apply ordered_push.
  - rewrite (step_leaf s u depth st cur cd q Hq Hv Hd). simpl.
    now apply ordered_tail in Ho.
Qed.

(** Every visited node lies as many relations away as its depth says. *)
Lemma trace_reached (fuel : nat) :
  forall st,
    (forall id cd, In (id, cd) (queue st) -> reached s u X id cd) ->
    forall n k, In (n, k) (trace fuel st) -> reached s u X n k.
Proof.
  induction fuel as [|fuel IH]; intros st Hst n k Hin; simpl in Hin;
    [destruct Hin|].
  iter_cases st cur cd q Hq Hv Hd; [destruct Hin| | |].
  - apply (IH (step st)); [|exact Hin].
    rewrite (step_skip s u depth st cur cd q Hq Hv). simpl.
    intros id cd' Hid. apply Hst. now right.
  - destruct Hin as [[= -> ->]|Hin]; [apply Hst; now left|].
    apply (IH (step st)); [|exact Hin].
    rewrite (step_expand s u depth st cur cd q Hq Hv Hd). simpl.
    intros id cd' Hid. apply in_app_or in Hid as [Hid|Hid].
    + apply Hst. now right.
    + unfold pushes in Hid. apply in_map_iff in Hid as (x & [= <- <-] & Hx).
      apply filter_In in Hx as [Hx _].
      apply in_map_iff in Hx as (r & Hnext & Hr).
      destruct (Hst cur cd (or_introl eq_refl)) as (m & -> & Hw).
      exists (S m). split; [lia|].
      apply (walk_step s u X m cur x Hw). apply adjacent_next. eauto.
  - destruct Hin as [[= -> ->]|Hin]; [apply Hst; now left|].
    apply (IH (step st)); [|exact Hin].
    rewrite (step_leaf s u depth st cur cd q Hq Hv Hd). simpl.
    intros id cd' Hid. apply Hst. now right.
Qed.

(** A queued item within the depth bound is visited no deeper than it is
    queued. *)
Lemma queue_visited_in_time (fuel : nat) :
  forall st st',
    loop fuel st = Some st' -> ordered (queue st) ->
    forall id cd, In (id, cd) (queue st) -> (cd <= depth)%Z ->
      In id (visited st)
      \/ exists k, (k <= cd)%Z /\ In (id, k) (trace fuel st).
Proof.
  induction fuel as [|fuel IH]; intros st st' H Ho id cd0 Hin Hle;
    simpl in H; [discriminate|].
  pose proof (step_ordered st Ho) as Ho'. simpl.
  iter_cases st cur cd q Hq Hv Hd; [destruct Hin| | |].
  - rewrite (step_skip s u depth st cur cd q Hq Hv) in *. simpl in *.
    destruct Hin as [[= -> ->]|Hin].
    + apply orb_true_iff in Hv as [Hv|Hv].
      * left. now apply has_true.
      * apply Z.ltb_lt in Hv. lia.
    + exact (IH _ _ H Ho' id cd0 Hin Hle).
  - pose proof (ordered_head_least _ _ _ Ho) as Hleast.
    rewrite (step_expand s u depth st cur cd q Hq Hv Hd) in *. simpl in *.
    destruct Hin as [[= -> ->]|Hin].
    + right. exists cd0. split; [lia | now left].
    + destruct (IH _ _ H Ho' id cd0) as [Hvis|(k & Hk & Hin')];
        [apply in_or_app; now left | assumption | |].
      * simpl in Hvis. apply in_app_or in Hvis as [Hvis|[<-|[]]];
          [now left|].
        right. exists cd. split; [apply (Hleast cur cd0 Hin) | now left].
      * right. exists k. split; [assumption | now right].
  - pose proof (ordered_head_least _ _ _ Ho) as Hleast.
    rewrite (step_leaf s u depth st cur cd q Hq Hv Hd) in *. simpl in *.
    destruct Hin as [[= -> ->]|Hin].
    + right. exists cd0. split; [lia | now left].
    + destruct (IH _ _ H Ho' id cd0 Hin Hle) as [Hvis|(k & Hk & Hin')].
      * simpl in Hvis. apply in_app_or in Hvis as [Hvis|[<-|[]]];
          [now left|].
        right. exists cd. split; [apply (Hleast cur cd0 Hin) | now left].
      * right. exists k. split; [assumption | now right].
Qed.

(** The other endpoint of a relation of a node visited below the depth
    bound is visited at most one level deeper. *)
Lemma neighbours_visited_in_time (fuel : nat) :
  forall st st',
    loop fuel st = Some st' -> ordered (queue st) ->
    forall n k, In (n, k) (trace fuel st) -> (k < depth)%Z ->
    forall r, In r (getRelations s u n) ->
      In (nextEntityId n r) (visited st)
      \/ exists k', (k' <= k + 1)%Z
                    /\ In (nextEntityId n r, k') (trace fuel st).
Proof.
  induction fuel as [|fuel IH]; intros st st' H Ho n k Hin Hlt r Hr;
    simpl in H; [discriminate|].
  pose proof (step_ordered st Ho) as Ho'. simpl in Hin |- *.
  iter_cases st cur cd q Hq Hv Hd; [destruct Hin| | |].
  - rewrite (step_skip s u depth st cur cd q Hq Hv) in *.
    destruct (IH _ _ H Ho' n k Hin Hlt r Hr) as [Hvis|(k' & Hk & Hin')];
      [now left|].
    right. exists k'. now split.
  - pose proof (ordered_head_least _ _ _ Ho) as Hleast.
    assert (Hlow : forall m j, In (m, j) (trace fuel (step st)) ->
                               (cd <= j)%Z).
    { apply trace_depth_lower.
      rewrite (step_expand s u depth st cur cd q Hq Hv Hd). simpl.
      intros id c Hid. apply in_app_or in Hid as [Hid|Hid].
      - apply (Hleast id c Hid).
      - unfold pushes in Hid.
        apply in_map_iff in Hid as (x & [= _ <-] & _). lia. }
    destruct Hin as [[= -> ->]|Hin].
    + destruct (has (visited st ++ [n]) (nextEntityId n r)) eqn:Hn.
      * apply has_true in Hn. apply in_app_or in Hn as [Hn|[Hn|[]]];
          [now left|].
        right. exists k. split; [lia|]. left. now rewrite <- Hn.
      * assert (Hpush : In (nextEntityId n r, (k + 1)%Z)
                           (queue (step st))).
        { rewrite (step_expand s u depth st n k q Hq Hv Hd). simpl.
          apply in_or_app. right. unfold pushes. apply in_map_iff.
          exists (nextEntityId n r). split; [reflexivity|].
          apply filter_In. split; [now apply in_map | now rewrite Hn]. }
        destruct (queue_visited_in_time
                    fuel _ _ H Ho' _ _ Hpush ltac:(lia))
          as [Hvis|(k' & Hk & Hin')].
        -- rewrite (step_expand s u depth st n k q Hq Hv Hd) in Hvis.
           simpl in Hvis. apply has_false in Hn. contradiction.
        -- right. exists k'. split; [assumption | now right].
    + destruct (IH _ _ H Ho' n k Hin Hlt r Hr) as [Hvis|(k' & Hk & Hin')].
      * rewrite (step_expand s u depth st cur cd q Hq Hv Hd) in Hvis.
        simpl in Hvis. apply in_app_or in Hvis as [Hvis|[Hc|[]]];
          [now left|].
        right. exists cd. specialize (Hlow n k Hin).
        split; [lia|]. left. now rewrite Hc.
      * right. exists k'. split; [assumption | now right].
  - pose proof (ordered_head_least _ _ _ Ho) as Hleast.
    assert (Hlow : forall m j, In (m, j) (trace fuel (step st)) ->
                               (cd <= j)%Z).
    { apply trace_depth_lower.
      rewrite (step_leaf s u depth st cur cd q Hq Hv Hd). simpl.
      intros id c Hid. apply (Hleast id c Hid). }
    destruct Hin as [[= -> ->]|Hin]; [apply Z.ltb_ge in Hd; lia|].
    destruct (IH _ _ H Ho' n k Hin Hlt r Hr) as [Hvis|(k' & Hk & Hin')].
    + rewrite (step_leaf s u depth st cur cd q Hq Hv Hd) in Hvis.
      simpl in Hvis. apply in_app_or in Hvis as [Hvis|[Hc|[]]];
        [now left|].
      right. exists cd. specialize (Hlow n k Hin).
      split; [lia|]. left. now rewrite Hc.
    + right. exists k'. split; [assumption | now right].
Qed.

End Reach.

Lemma connectedTrace_reached (s : Store) (u X : string) (depth : Z) :
  forall n k, In (n, k) (connectedTrace s u X depth) ->
              exists m, k = Z.of_nat m /\ walk s u X m n.
Proof.
  apply (trace_reached s u depth X).
  intros id cd [[= <- <-]|[]]. exists 0. split; [reflexivity | constructor].
Qed.

Lemma ordered_init (X : string) : ordered (queue (bfsInit X)).
Proof.
  split; simpl.
  - repeat constructor.
  - intros id0 c0 id cd [= <- <-] [[= <- <-]|[]]. lia.
Qed.

Lemma walk_visited (s : Store) (u X : string) (depth : Z) :
  forall n y, walk s u X n y -> (Z.of_nat n <= depth)%Z ->
              exists k, (k <= Z.of_nat n)%Z
                        /\ In (y, k) (connectedTrace s u X depth).
Proof.
  destruct (bfsLoop_terminates s u depth X) as [st' Hloop].
  induction 1 as [|n p b Hw IH Hadj]; intros Hle.
  - exists 0%Z. split; [lia|].
    destruct (connectedTrace_start s u X depth) as (rest & -> & _);
      [lia | now left].
  - destruct IH as (k & Hk & Hin); [lia|].
    apply adjacent_next in Hadj as (r & Hr & <-).
    destruct (neighbours_visited_in_time
                s u depth (bfsFuel s u) _ _ Hloop (ordered_init X)
                p k Hin ltac:(lia) r Hr) as [[]|(k' & Hk' & Hin')].
    exists k'. split; [lia | exact Hin'].
Qed.

(** The result of a traversal, in terms of walks along relations. *)
Lemma within_depth_characterised
      (s : Store) (u X : string) (depth : Z) (g : KnowledgeGraph) :
  getConnectedEntities s u X depth = Some g ->
  (forall e,
      In e (entities g)
      <-> exists y n, walk s u X n y /\ (Z.of_nat n <= depth)%Z
                      /\ getEntity s u y = Some e)
  /\ (forall r,
         In r (relations g)
         <-> exists y n, walk s u X n y /\ (Z.of_nat n < depth)%Z
                         /\ In r (getRelations s u y)).
Proof.
  intros Hget.
  destruct (getConnectedEntities_by_trace s u X depth)
    as (g' & Hg & He & Hr & _ & Hup & _).
  rewrite Hget in Hg. injection Hg as <-. split.
  - intros e. rewrite He, in_flat_map. split.
    + intros (y & Hy & Hin). apply in_map_iff in Hy as ([y' k] & <- & Hy).
      destruct (connectedTrace_reached s u X depth y' k Hy) as (n & -> & Hw).
      exists y', n. split; [assumption|].
      split; [exact (Hup y' _ Hy) | now apply in_entityList].
    + intros (y & n & Hw & Hle & Hget').
      destruct (walk_visited s u X depth n y Hw Hle) as (k & _ & Hin).
      exists y. split; [|now apply in_entityList].
      apply in_map_iff. now exists (y, k).
  - intros r. rewrite Hr, in_flat_map. split.
    + intros (y & Hy & Hin). apply in_expandedNodes in Hy as (k & Hy & Hlt).
      destruct (connectedTrace_reached s u X depth y k Hy) as (n & -> & Hw).
      exists y, n. auto.
    + intros (y & n & Hw & Hlt & Hin).
      destruct (walk_visited s u X depth n y Hw ltac:(lia)) as (k & Hk & Hy).
      exists y. split; [|assumption].
      apply in_expandedNodes. exists k. split; [assumption | lia].
Qed.

(** X17.  [getConnectedEntities(u, X, depth)] returns exactly the
    entities stored for the ids that lie at most [depth] relations of [u]
    away from [X], relations being followed in both directions, and
    exactly the relations of the ids that lie fewer than [depth]
    relations away. *)
Theorem getConnectedEntities_within_depth
        (s : Store) (u X : string) (depth : Z) :
  exists g,
    getConnectedEntities s u X depth = Some g
    /\ (forall e,
           In e (entities g)
           <-> exists y n, walk s u X n y /\ (Z.of_nat n <= depth)%Z
                           /\ getEntity s u y = Some e)
    /\ (forall r,
           In r (relations g)
           <-> exists y n, walk s u X n y /\ (Z.of_nat n < depth)%Z
                           /\ In r (getRelations s u y)).
Proof.
  destruct (getConnectedEntities_total s u X depth) as [g Hg].
  exists g. split; [exact Hg|].
  now apply within_depth_characterised.
Qed.

Lemma adjacent_sym (s : Store) (u a b : string) :
  adjacent s u a b -> adjacent s u b a.
Proof.
  intros (d & Hd & Hu & H). exists d. repeat split; auto. tauto.
Qed.

Lemma walk_step_left (s : Store) (u a p : string) :
  adjacent s u a p ->
  forall n b, walk s u p n b -> walk s u a (S n) b.
Proof.
  intros Hadj n b Hw. induction Hw as [|n q b Hw IH Hqb].
  - apply (walk_step s u a 0 a); [constructor | assumption].
  - apply (walk_step s u a (S n) q); assumption.
Qed.

Lemma walk_sym (s : Store) (u a b : string) (n : nat) :
  walk s u a n b -> walk s u b n a.
Proof.
  induction 1 as [|n p b Hw IH Hadj]; [constructor|].
  apply (walk_step_left s u b p); [now apply adjacent_sym | assumption].
Qed.

(** X22.  A deeper traversal returns at least what a shallower one
    returns; and the traversal is symmetric: the entity of [Y] is
    returned from [X] at some depth exactly when the entity of [X] is
    returned from [Y] at that depth. *)
Theorem getConnectedEntities_monotone_symmetric
        (s : Store) (u X Y : string) (depth depth' : Z) :
  (forall g g',
      (depth <= depth')%Z ->
      getConnectedEntities s u X depth = Some g ->
      getConnectedEntities s u X depth' = Some g' ->
      incl (entities g) (entities g') /\ incl (relations g) (relations g'))
  /\ (forall gX gY eX eY,
         getConnectedEntities s u X depth = Some gX ->
         getConnectedEntities s u Y depth = Some gY ->
         getEntity s u X = Some eX ->
         getEntity s u Y = Some eY ->
         (In eY (entities gX) <-> In eX (entities gY))).
Proof.
  split.
  - intros g g' Hle Hg Hg'.
    destruct (within_depth_characterised _ _ _ _ _ Hg) as [He Hr].
    destruct (within_depth_characterised _ _ _ _ _ Hg') as [He' Hr'].
    split.
    + intros e Hin. apply He'. apply He in Hin as (y & n & Hw & Hn & Hget).
      exists y, n. repeat split; auto. lia.
    + intros r Hin. apply Hr'. apply Hr in Hin as (y & n & Hw & Hn & Hget).
      exists y, n. repeat split; auto. lia.
  - intros gX gY eX eY HgX HgY HX HY.
    destruct (within_depth_characterised _ _ _ _ _ HgX) as [HeX _].
    destruct (within_depth_characterised _ _ _ _ _ HgY) as [HeY _].
    rewrite HeX, HeY.
    split; intros (y & n & Hw & Hn & Hget).
    + pose proof (getEntity_entityId _ _ _ _ Hget) as E1.
      pose proof (getEntity_entityId _ _ _ _ HY) as E2.
      assert (Hy : y = Y) by congruence. rewrite Hy in Hw.
      exists X, n. repeat split; auto. now apply walk_sym.
    + pose proof (getEntity_entityId _ _ _ _ Hget) as E1.
      pose proof (getEntity_entityId _ _ _ _ HX) as E2.
      assert (Hy : y = X) by congruence. rewrite Hy in Hw.
      exists Y, n. repeat split; auto. now apply walk_sym.
Qed.

(* ================================================================= *)
(** ** The derived [relationId] *)



(* ================================================================= *)
(** ** The storage factory *)

(** X20.  [validateConfig] and [createUserStorage] agree for the types
    ['json'] and ['mongodb'] only: a validated configuration of these
    types reaches its constructor.  A ['paginated-graph'] configuration
    is always validated, yet [createUserStorage] calls the constructor of
    [PaginatedGraphStorage] only when the [paginatedGraph] member is
    present and the default data is an object with an [entities] or a
    [relations] property, and throws otherwise.  For any other type
    [createUserStorage] throws, while [validateConfig] accepts the type
    unless it is empty. *)
Theorem validateConfig_and_createUserStorage
        (config : UnifiedStorageConfig) (defaultData : JsValue) :
  (validateConfig config = true ->
   storageType config = "json" \/ storageType config = "mongodb" ->
   exists inst, createUserStorage config defaultData = inl inst)
  /\ (storageType config = "paginated-graph" ->
      validateConfig config = true
      /\ forall inst,
          createUserStorage config defaultData = inl inst
          <-> exists c, paginatedGraph config = Some c
                        /\ looksLikeGraph defaultData = true
                        /\ inst = NewPaginatedGraphStorage
                                    (graphConnectionString c)
                                    (graphDatabaseName c)
                                    (graphCollectionPrefix c))
  /\ (storageType config <> "json" -> storageType config <> "mongodb" ->
      storageType config <> "paginated-graph" ->
      createUserStorage config defaultData
      = inr ("Unknown storage type: " ++ storageType config)%string
      /\ (validateConfig config = true <-> storageType config <> "")).
Proof.
  unfold validateConfig, createUserStorage. split; [|split].
  - intros Hv [Ht|Ht]; rewrite Ht in *; simpl in *.
    + destruct (json config) as [c|]; [eauto | discriminate].
    + destruct (mongodb config) as [c|]; [eauto | discriminate].
  - intros Ht. rewrite Ht. simpl. split; [reflexivity|].
    intros inst. destruct (paginatedGraph config) as [c|].
    + destruct (looksLikeGraph defaultData); split.
      * intros [= <-]. eauto.
      * intros (c' & [= <-] & _ & ->). reflexivity.
      * discriminate.
      * intros (c' & _ & H & _). discriminate.
    + split; [discriminate|]. intros (c' & H & _). discriminate.
  - intros H1 H2 H3.
    apply String.eqb_neq in H1, H2, H3. rewrite H1, H2, H3. simpl.
    split; [reflexivity|].
    destruct (storageType config == "") eqn:E.
    + apply String.eqb_eq in E. split; [discriminate | congruence].
    + apply String.eqb_neq in E. tauto.
Qed.

Lemma append_inv_head (p a b : string) :
  (p ++ a)%string = (p ++ b)%string -> a = b.
Proof.
  induction p as [|c p IH]; simpl; [auto|]. intros [= E]. auto.
Qed.

(** X21.  Whatever the prefix, the constructor of [PaginatedGraphStorage]
    opens three collections with three different names, so entities,
    relations and summary records never share a collection. *)
Theorem collectionNames_distinct (collectionPrefix : option string) :
  NoDup (collectionNames collectionPrefix)
  /\ List.length (collectionNames collectionPrefix) = 3.
Proof.
  split; [|reflexivity]. unfold collectionNames.
  repeat constructor; simpl; intuition;
    match goal with
    | H : (_ ++ _)%string = (_ ++ _)%string |- _ =>
      apply append_inv_head in H; discriminate H
    end.
Qed.

(* ================================================================= *)
(** ** What every history of calls keeps *)

Lemma indexed_saveRelationsFrom (rels : list Relation) :
  forall s u clock i,
    indexed s -> indexed (saveRelationsFrom s u rels clock i).
Proof.
  induction rels as [|r rels IH]; intros s u clock i H; simpl; [assumption|].
  apply IH. now apply indexed_saveRelation.
Qed.

Lemma saveRelationsFrom_index (rels : list Relation) :
  forall s u clock i,
    indexCollection (saveRelationsFrom s u rels clock i) = indexCollection s.
Proof.
  induction rels as [|r rels IH]; intros s u clock i; simpl; [reflexivity|].
  now rewrite IH.
Qed.

Lemma indexed_cleanup (s : Store) : indexed s -> indexed (cleanup s).
Proof.
  intros [He Hr]. unfold cleanup.
  match goal with
  | |- indexed (fold_left updateSummaryIndex ?users ?s1) =>
    destruct (fold_updateSummaryIndex users s1) as (E1 & E2 & _)
  end.
  cbv zeta in E1, E2. split.
  - unfold entityIndexUnique. now rewrite E1.
  - unfold relationIndexUnique. rewrite E2. simpl.
    now apply NoDup_map_filter.
Qed.

Lemma cleanup_index_unchanged (s : Store) :
  indexCollection (cleanup s) = indexCollection s.
Proof.
  unfold cleanup.
  match goal with
  | |- indexCollection (fold_left updateSummaryIndex ?users ?s1) = _ =>
    destruct (fold_updateSummaryIndex users s1) as (_ & _ & E & _)
  end.
  exact E.
Qed.

Lemma perform_keeps_indexes (s : Store) (op : Operation) :
  indexed s /\ summaryIndexUnique (indexCollection s) ->
  indexed (perform s op)
  /\ summaryIndexUnique (indexCollection (perform s op)).
Proof.
  intros [Hi Hu]. destruct op; simpl.
  - split; [now apply indexed_saveEntity | assumption].
  - split; [now apply indexed_saveEntitiesBatch | now destruct es].
  - split; [now apply indexed_deleteEntity | assumption].
  - split; [now apply indexed_saveRelation | assumption].
  - split; [now apply indexed_deleteRelation | assumption].
  - unfold saveForUser. split.
    + now apply indexed_saveRelationsFrom, indexed_saveEntitiesBatch.
    + rewrite saveRelationsFrom_index. now destruct (entities graph).
  - split; [now apply indexed_clearForUser|]. simpl.
    now apply NoDup_map_filter.
  - split; [now apply indexed_cleanup|].
    now rewrite cleanup_index_unchanged.
  - split; [now apply indexed_runSummaryUpdate|].
    unfold runSummaryUpdate. destruct (pendingUpdates s) as [|v rest];
      [assumption|]. simpl.
    apply (replaceOne_keeps_unique sdoc_userId v);
      auto using idxUserFilter_key.
Qed.

(** X23.  After any history of calls of the write methods and of runs of
    queued refreshes, starting from empty collections, the three unique
    indexes hold: no two entity documents share [(userId, entityId)], no
    two relation documents share [(fromEntityId, toEntityId)], and no two
    summary records share [userId]. *)
Theorem unique_indexes_always_hold (history : list Operation) :
  indexed (storeAfter history)
  /\ summaryIndexUnique (indexCollection (storeAfter history)).
Proof.
  unfold storeAfter.
  assert (H : indexed emptyStore
              /\ summaryIndexUnique (indexCollection emptyStore))
    by (split; [apply indexed_empty | constructor]).
  revert H. generalize emptyStore as s.
  induction history as [|op history IH]; intros s H; simpl; [exact H|].
  apply IH. now apply perform_keeps_indexes.
Qed.

(** X24.  For entities the last write wins: saving [e1] and then [e2]
    with the same id leaves the entity collection as saving [e2] alone
    does, and the fetch returns [e2] as stored at the second save; saving
    the same entity twice at the same instant is the same as saving it
    once. *)
Theorem saveEntity_last_write_wins
        (s : Store) (u : string) (e1 e2 : Entity) (now1 now2 : Date) :
  entityId e1 = entityId e2 ->
  let s2 := saveEntity (saveEntity s u e1 now1) u e2 now2 in
  entitiesCollection s2 = entitiesCollection (saveEntity s u e2 now2)
  /\ getEntity s2 u (entityId e1) = Some (storedEntity e2 now2)
  /\ List.length (entities (loadForUser s2 u))
     = List.length (entities (loadForUser (saveEntity s u e1 now1) u))
  /\ (e1 = e2 -> now1 = now2 ->
      entitiesCollection s2 = entitiesCollection (saveEntity s u e1 now1)).
Proof.
  intros Hid s2.
  assert (Hcol : entitiesCollection s2
                 = entitiesCollection (saveEntity s u e2 now2)).
  { subst s2. simpl. rewrite Hid.
    apply (replaceOne_twice (fun d => (edoc_userId d, edoc_entityId d))
                            (u, entityId e2));
      [apply entityFilter_key | simpl; now rewrite Hid]. }
  split; [exact Hcol|]. split; [|split].
  - subst s2. rewrite Hid. apply getEntity_saveEntity.
  - subst s2. simpl. unfold find. rewrite !length_map.
    rewrite length_filter_replaceOne.
    + rewrite <- Hid.
      now rewrite (find_replaceOne_same
                     (fun d => (edoc_userId d, edoc_entityId d))
                     (u, entityId e1))
        by auto using entityFilter_key.
    + intros x Hx. apply entityFilter_key in Hx. injection Hx as Hu _.
      unfold entUserFilter. rewrite Hu. apply String.eqb_refl.
    + unfold entUserFilter. simpl. apply String.eqb_refl.
  - intros <- <-. rewrite Hcol. reflexivity.
Qed.

End Properties.

(* ================================================================= *)
(** * Examples *)

(** The examples run on [asciiRuntime]. *)
#[export] Existing Instance asciiRuntime.

(** The statement of C1 on two saves of different type into the empty
    store. *)
Lemma saveRelation_keyed_by_endpoint_pair_witness :
  indexed emptyStore
  /\ let r1 := plainRelation "A" "knows" "B" in
     let r2 := plainRelation "A" "likes" "B" in
     let s2 := saveRelation (saveRelation emptyStore "u" r1 1%Z) "u" r2 2%Z in
     find (pairFilter "A" "B") (relationsCollection s2)
     = [relationDocument "u" r2 2%Z]
     /\ countDocuments (pairFilter "A" "B") (relationsCollection s2) = 1.
Proof.
  split; [exact indexed_empty|].
  pose proof (saveRelation_keyed_by_endpoint_pair
                emptyStore "u" (plainRelation "A" "knows" "B")
                (plainRelation "A" "likes" "B") 1%Z 2%Z
                indexed_empty eq_refl eq_refl) as H.
  simpl in H. destruct H as (H1 & H2 & _). split; [exact H1 | exact H2].
Defined.

(** The statement of C3 on a first save without metadata followed by a
    save that hands the stored creation time back. *)
Lemma saveEntity_createdAt_from_caller_witness :
  let s := saveEntity emptyStore "u" (plainEntity "A" "person") 1%Z in
  let e := mkEntity "A" "A" "person" []
                    (Some (mkEntityMetadata 1%Z 1%Z None None)) None None in
  fetchedCreatedAt s "u" "A" = Some 1%Z
  /\ suppliedCreatedAt e = Some 1%Z
  /\ fetchedCreatedAt (saveEntity s "u" e 5%Z) "u" "A" = Some 1%Z
  /\ fetchedUpdatedAt (saveEntity s "u" e 5%Z) "u" "A" = Some 5%Z.
Proof.
  intros s e.
  destruct (saveEntity_createdAt_from_caller s "u" e 5%Z) as (_ & H & _ & Hu).
  split; [reflexivity|]. split; [reflexivity|].
  split; [apply (H 1%Z); reflexivity | exact Hu].
Defined.

(** C3 as stated fails: an entity stored with creation time 1 and saved
    again, by a caller that supplies no metadata, at time 5 is stored with
    creation time 5. *)
Lemma saveEntity_createdAt_not_preserved :
  let s := saveEntity emptyStore "u" (plainEntity "A" "person") 1%Z in
  let s' := saveEntity s "u" (plainEntity "A" "person") 5%Z in
  fetchedCreatedAt s "u" "A" = Some 1%Z
  /\ fetchedCreatedAt s' "u" "A" = Some 5%Z
  /\ fetchedCreatedAt s' "u" "A" <> fetchedCreatedAt s "u" "A".
Proof. repeat split. discriminate. Qed.

(** The statement of C7 on a batch of two entities saved into the empty
    store. *)
Lemma save_then_fetch_entity_witness :
  let e := mkEntity "A" "Alice" "Person" ["Likes Tea"] None None
                    (Some "ignored") in
  let after := [plainEntity "B" "place"] in
  (forall e', In e' after -> entityId e' <> entityId e)
  /\ getEntity (saveEntitiesBatch emptyStore "u" ([] ++ e :: after) 5%Z)
               "u" "A"
     = Some (mkEntity "A" "Alice" "Person" ["Likes Tea"]
                      (Some (mkEntityMetadata 5%Z 5%Z None None)) (Some [])
                      (Some "alice person likes tea")).
Proof.
  intros e after.
  assert (H : forall e', In e' after -> entityId e' <> entityId e).
  { intros e' [<-|[]]. discriminate. }
  split; [exact H|].
  destruct (save_then_fetch_entity emptyStore "u" e 5%Z [] after H)
    as (_ & Hb & _).
  exact Hb.
Defined.

(** C7 as stated fails: an entity saved without [metadata] and [tags]
    comes back with a [createdAt] and with empty [tags], so it differs
    from what was saved in more than [searchText] and [updatedAt]. *)
Lemma save_then_fetch_entity_differs :
  let e := plainEntity "A" "person" in
  exists fetched,
    getEntity (saveEntity emptyStore "u" e 5%Z) "u" "A" = Some fetched
    /\ ~ sameExceptSearchTextAndUpdatedAt e fetched.
Proof.
  intros e. exists (storedEntity e 5%Z). split; [reflexivity|].
  intros (_ & _ & _ & _ & Htags & _). discriminate Htags.
Qed.

Lemma deleteEntity_cascades_witness :
  indexed scenarioStore
  /\ getRelations scenarioStore "u" "A" <> []
  /\ getRelations (deleteEntity scenarioStore "u" "B") "u" "B" = []
  /\ getEntity (deleteEntity scenarioStore "u" "B") "u" "B" = None.
Proof.
  split; [exact indexed_scenarioStore|].
  split; [discriminate|].
  exact (proj2 (deleteEntity_cascades scenarioStore "u" "B"
                                      indexed_scenarioStore)).
Defined.

(** The statement of C9 on the scenario store: [A] is found, [Z] is
    omitted. *)
Lemma get_operations_absence_witness :
  indexed scenarioStore
  /\ getEntity scenarioStore "u" "Z" = None
  /\ getRelations scenarioStore "u" "Z" = []
  /\ (forall e, In e (getEntitiesBatch scenarioStore "u" ["A"; "Z"]) ->
                entityId e <> "Z")
  /\ (forall e, In e (getEntitiesBatch scenarioStore "u" ["A"; "Z"])
                <-> exists id, In id ["A"; "Z"]
                               /\ getEntity scenarioStore "u" id = Some e).
Proof.
  destruct (get_operations_absence scenarioStore "u") as (_ & _ & H3 & H4).
  split; [exact indexed_scenarioStore|].
  split; [reflexivity|]. split; [reflexivity|].
  split; [exact (H4 ["A"; "Z"] "Z" eq_refl)|].
  exact (H3 indexed_scenarioStore ["A"; "Z"]).
Defined.

(** The statement of C8 on the scenario store, whose index collection is
    still empty, and on the same store once the oldest pending refresh
    has run. *)
Lemma getUserSummary_cached_or_fresh_witness :
  findOne (idxUserFilter "u") (indexCollection scenarioStore) = None
  /\ totalEntities (getUserSummary scenarioStore "u" 9%Z) = 2
  /\ recentEntities (getUserSummary scenarioStore "u" 9%Z) = ["B"; "A"]
  /\ getUserSummary (runSummaryUpdate scenarioStore 7%Z) "u" 9%Z
     = mkSummary 2 1 [("person", 1); ("place", 1)] ["B"; "A"] []
                 ["B"; "A"] 7%Z.
Proof.
  destruct (getUserSummary_cached_or_fresh scenarioStore "u" 9%Z)
    as [_ Hfresh].
  destruct (Hfresh eq_refl) as (_ & Hn & _ & _ & Hr & _).
  destruct (getUserSummary_cached_or_fresh
              (runSummaryUpdate scenarioStore 7%Z) "u" 9%Z) as [Hcached _].
  split; [reflexivity|].
  split; [exact Hn|]. split; [exact Hr|].
  exact (Hcached _ eq_refl).
Defined.

(** The statement of C6 on the scenario store, for the stored entity [A]
    and for the absent id [Z]. *)
Lemma getConnectedEntities_depth_zero_witness :
  getEntity scenarioStore "u" "Z" = None
  /\ getConnectedEntities scenarioStore "u" "Z" 0 = Some (mkGraph [] [])
  /\ getConnectedEntities scenarioStore "u" "A" 0
     = Some (mkGraph [storedEntity (plainEntity "A" "person") 1%Z] []).
Proof.
  destruct (getConnectedEntities_depth_zero scenarioStore "u" "Z")
    as (_ & _ & Habsent).
  destruct (getConnectedEntities_depth_zero scenarioStore "u" "A")
    as (_ & Hpresent & _).
  split; [reflexivity|]. split; [exact (Habsent eq_refl)|].
  exact (Hpresent _ eq_refl).
Defined.

(** With relations that dangle from an absent start id and a depth of 1
    or more, the result is not empty. *)
Lemma getConnectedEntities_absent_start_dangling :
  let s := saveRelation (saveEntity emptyStore "u" (plainEntity "B" "place")
                                    1%Z)
                        "u" (plainRelation "A" "visited" "B") 2%Z in
  getEntity s "u" "A" = None
  /\ exists g, getConnectedEntities s "u" "A" 1 = Some g
               /\ List.length (entities g) = 1
               /\ List.length (relations g) = 1.
Proof. split; [reflexivity|]. eexists. now split. Qed.

(** The statement of C5 on the triangle: from [A] at depth 1 the edge
    [B -> C] between the two neighbours is left out. *)
Lemma getConnectedEntities_depth_one_and_frontier_witness :
  getEntity triangleStore "u" "A"
  = Some (storedEntity (plainEntity "A" "person") 1%Z)
  /\ exists g,
      getConnectedEntities triangleStore "u" "A" 1 = Some g
      /\ relations g = getRelations triangleStore "u" "A"
      /\ map entityId (entities g) = ["A"; "B"; "C"]
      /\ forall r, fromEntityId r = "B" -> toEntityId r = "C" ->
                   ~ In r (relations g).
Proof.
  split; [reflexivity|].
  destruct (getConnectedEntities_depth_one_and_frontier
              triangleStore "u" "A" _ eq_refl)
    as [(g & Hg & _ & Hr & _ & Hout) _].
  exists g. split; [exact Hg|]. split; [exact Hr|]. split.
  - assert (E : Some g = getConnectedEntities triangleStore "u" "A" 1)
      by now symmetry.
    vm_compute in E. injection E as ->. reflexivity.
  - intros r Hf Ht. apply Hout; rewrite ?Hf, ?Ht; discriminate.
Defined.

(** The statement of C10 on the scenario store: from [A] at depth 2 both
    [A] and [B] are expanded and the edge between them is returned
    twice. *)
Lemma getConnectedEntities_relations_not_deduplicated_witness :
  let r := documentToRelation
             (relationDocument "u" (plainRelation "A" "visited" "B") 3%Z) in
  indexed scenarioStore
  /\ In r (relations (loadForUser scenarioStore "u"))
  /\ exists g,
      getConnectedEntities scenarioStore "u" "A" 2 = Some g
      /\ occurrences r (relations g) = 2
      /\ ~ NoDup (relations g).
Proof.
  intros r.
  split; [exact indexed_scenarioStore|].
  split; [now left|].
  destruct (getConnectedEntities_relations_not_deduplicated
              scenarioStore "u" "A" 2 indexed_scenarioStore)
    as (g & Hg & _ & _ & _ & Htwo & _).
  exists g. split; [exact Hg|].
  apply (Htwo r).
  - now left.
  - discriminate.
  - vm_compute. now left.
  - vm_compute. right. now left.
Defined.

(** C10 as stated fails: at depth 2 both endpoints of the edge from [A]
    to itself are expanded, and the edge is returned once, not twice. *)
Lemma getConnectedEntities_self_loop_once :
  let r := documentToRelation
             (relationDocument "u" (plainRelation "A" "self" "A") 2%Z) in
  let expanded := expandedNodes 2 (connectedTrace selfLoopStore "u" "A" 2) in
  indexed selfLoopStore
  /\ In r (relations (loadForUser selfLoopStore "u"))
  /\ In (fromEntityId r) expanded
  /\ In (toEntityId r) expanded
  /\ exists g,
      getConnectedEntities selfLoopStore "u" "A" 2 = Some g
      /\ relations g = [r]
      /\ occurrences r (relations g) = 1
      /\ occurrences r (relations g) <> 2.
Proof.
  intros r expanded.
  split; [apply indexed_saveRelation, indexed_saveEntity, indexed_empty|].
  split; [now left|].
  split; [vm_compute; now left|].
  split; [vm_compute; now left|].
  eexists. split; [vm_compute; reflexivity|].
  split; [reflexivity|]. split; [reflexivity | discriminate].
Qed.

(** The statement of X2 on the scenario store: deleting the absent entity
    [Z] keeps all three documents. *)
Lemma deleteEntity_touches_one_entity_witness :
  getEntity scenarioStore "u" "Z" = None
  /\ entitiesCollection (deleteEntity scenarioStore "u" "Z")
     = entitiesCollection scenarioStore
  /\ getEntity (deleteEntity scenarioStore "u" "B") "u" "A"
     = getEntity scenarioStore "u" "A".
Proof.
  destruct (deleteEntity_touches_one_entity scenarioStore "u" "Z")
    as (_ & _ & Hz).
  destruct (deleteEntity_touches_one_entity scenarioStore "u" "B")
    as (Hb & _).
  split; [reflexivity|]. split; [exact (Hz eq_refl)|].
  apply Hb. discriminate.
Defined.

(** The statement of X1 on the scenario store: a third entity [C]. *)
Lemma saveEntity_touches_one_entity_witness :
  ("u", "A") <> ("u", "C")
  /\ getEntity (saveEntity scenarioStore "u" (plainEntity "C" "place") 9%Z)
               "u" "A"
     = getEntity scenarioStore "u" "A".
Proof.
  split; [discriminate|].
  destruct (saveEntity_touches_one_entity
              scenarioStore "u" (plainEntity "C" "place") 9%Z) as (H & _).
  apply H. discriminate.
Defined.

(** The statement of X4 on the scenario store, with a repeated id. *)
Lemma getEntitiesBatch_no_repeats_witness :
  indexed scenarioStore
  /\ NoDup (getEntitiesBatch scenarioStore "u" ["A"; "A"; "B"])
  /\ List.length (getEntitiesBatch scenarioStore "u" ["A"; "A"; "B"]) <= 3.
Proof.
  destruct (getEntitiesBatch_no_repeats scenarioStore "u" ["A"; "A"; "B"]
                                        indexed_scenarioStore)
    as (_ & Hnd & Hlen & _).
  split; [exact indexed_scenarioStore|]. split; [exact Hnd | exact Hlen].
Defined.

(** The statement of X3 on a batch of two and on the empty batch. *)
Lemma saveEntitiesBatch_as_single_saves_witness :
  saveEntitiesBatch scenarioStore "u" [] 9%Z = scenarioStore
  /\ pendingUpdates
       (saveEntitiesBatch emptyStore "u"
                          [plainEntity "A" "x"; plainEntity "B" "y"] 9%Z)
     = ["u"].
Proof.
  destruct (saveEntitiesBatch_as_single_saves scenarioStore "u" [] 9%Z)
    as (_ & _ & _ & _ & _ & Hnil).
  destruct (saveEntitiesBatch_as_single_saves
              emptyStore "u" [plainEntity "A" "x"; plainEntity "B" "y"] 9%Z)
    as (_ & _ & _ & Hp & _).
  split; [exact (Hnil eq_refl) | exact Hp].
Defined.


(** The statement of X6 on two opposite edges: deleting [A -> B] keeps
    [B -> A]. *)
Lemma deleteRelation_removes_one_directed_edge_witness :
  indexed twoWayStore
  /\ map relationType
         (getRelations (deleteRelation twoWayStore "u" "A" "B") "u" "A")
     = ["back"]
  /\ forall r0,
      In r0 (getRelations (deleteRelation twoWayStore "u" "A" "B") "u" "A")
      -> (fromEntityId r0, toEntityId r0) <> ("A", "B").
Proof.
  assert (Hidx : indexed twoWayStore)
    by (unfold twoWayStore;
        auto using indexed_saveRelation, indexed_empty).
  destruct (deleteRelation_removes_one_directed_edge
              twoWayStore "u" "A" "B" Hidx) as (H & _).
  split; [exact Hidx|]. split; [reflexivity|].
  intros r0 Hr0. now apply (H "A" r0).
Defined.

(** The statement of X7 on a user who holds one relation and no entity. *)
Lemma listUsers_and_existsForUser_witness :
  let s := saveRelation emptyStore "u" (plainRelation "A" "x" "B") 1%Z in
  (forall d, In d (entitiesCollection s) -> edoc_userId d <> "u")
  /\ relations (loadForUser s "u") <> []
  /\ existsForUser s "u" = false
  /\ ~ In "u" (listUsers s).
Proof.
  intros s.
  assert (H : forall d, In d (entitiesCollection s) -> edoc_userId d <> "u")
    by (intros d []).
  destruct (listUsers_and_existsForUser s "u") as (_ & _ & _ & Hnone).
  split; [exact H|]. split; [discriminate|]. exact (Hnone H).
Defined.

(** The statement of X8 on the scenario store, whose first queued refresh
    is for ["u"]. *)
Lemma clearForUser_empties_user_witness :
  pendingUpdates scenarioStore = "u" :: ["u"; "u"]
  /\ loadForUser (clearForUser scenarioStore "u") "u" = mkGraph [] []
  /\ findOne (idxUserFilter "u")
             (indexCollection
                (runSummaryUpdate (clearForUser scenarioStore "u") 7%Z))
     = Some (mkSummaryDoc "u" 0 0 [] [] [] [] 7%Z).
Proof.
  destruct (clearForUser_empties_user scenarioStore "u" 9%Z)
    as (Hl & _ & _ & _ & _ & _ & _ & Hrun).
  split; [reflexivity|]. split; [exact Hl|].
  exact (Hrun ["u"; "u"] 7%Z eq_refl).
Defined.

(** The statement of X9 on the graph of the scenario, saved with a
    [relationId] of the caller's. *)
Lemma saveForUser_then_loadForUser_witness :
  let es := [plainEntity "A" "person"; plainEntity "B" "place"] in
  let rels := [mkRelation "mine" "A" "B" "visited" None None] in
  NoDup (map entityId es)
  /\ NoDup (map (fun r => (fromEntityId r, toEntityId r)) rels)
  /\ Permutation
       (map relationId
            (relations
               (loadForUser
                  (saveForUser emptyStore "u" (mkGraph es rels) 1%Z
                               (fun _ => 2%Z)) "u")))
       ["A-visited-B"].
Proof.
  intros es rels.
  assert (H1 : NoDup (map entityId es)).
  { repeat constructor; simpl; intuition discriminate. }
  assert (H2 : NoDup (map (fun r => (fromEntityId r, toEntityId r)) rels)).
  { repeat constructor; simpl; intuition. }
  destruct (saveForUser_then_loadForUser "u" es rels 1%Z (fun _ => 2%Z)
                                         H1 H2) as (_ & _ & Hid & _).
  split; [exact H1|]. split; [exact H2 | exact Hid].
Defined.

(** The statement of X10 on the scenario store: saving a graph that holds
    only [C] keeps [A]. *)
Lemma saveForUser_keeps_the_rest_witness :
  let g := mkGraph [plainEntity "C" "place"] [] in
  ~ In "A" (map entityId (entities g))
  /\ getEntity (saveForUser scenarioStore "u" g 9%Z (fun _ => 9%Z)) "u" "A"
     = getEntity scenarioStore "u" "A".
Proof.
  intros g.
  assert (H : ~ In "A" (map entityId (entities g)))
    by (simpl; intuition discriminate).
  destruct (saveForUser_keeps_the_rest scenarioStore "u" g 9%Z
                                       (fun _ => 9%Z)) as (Hkeep & _).
  split; [exact H | exact (Hkeep "A" H)].
Defined.

(** The statement of X11 on [crossUserStore]: the edge of ["u"] between
    the entities of ["v"] survives, the edge to [Z] goes, and only ["v"]
    gets a refresh. *)
Lemma cleanup_removes_orphaned_relations_witness :
  map rdoc_relationType (relationsCollection (cleanup crossUserStore))
  = ["kept"]
  /\ map rdoc_userId (relationsCollection (cleanup crossUserStore)) = ["u"]
  /\ pendingUpdates (cleanup crossUserStore)
     = pendingUpdates crossUserStore ++ ["v"].
Proof.
  destruct (cleanup_removes_orphaned_relations crossUserStore)
    as (_ & _ & _ & Hp & _).
  split; [reflexivity|]. split; [reflexivity | exact Hp].
Defined.

(** The statement of X13 on the refreshed scenario store and a third
    entity [C]. *)
Lemma getUserSummary_stale_after_saveEntity_witness :
  let d := mkSummaryDoc "u" 2 1 [("person", 1); ("place", 1)] ["B"; "A"] []
                        ["B"; "A"] 4%Z in
  let s' := saveEntity refreshedStore "u" (plainEntity "C" "place") 5%Z in
  findOne (idxUserFilter "u") (indexCollection refreshedStore) = Some d
  /\ getEntity refreshedStore "u" "C" = None
  /\ totalEntities (getUserSummary s' "u" 6%Z) = 2
  /\ List.length (entities (loadForUser s' "u")) = 3.
Proof.
  intros d s'.
  assert (H1 : findOne (idxUserFilter "u") (indexCollection refreshedStore)
               = Some d) by reflexivity.
  assert (H2 : getEntity refreshedStore "u" "C" = None) by reflexivity.
  destruct (getUserSummary_stale_after_saveEntity
              refreshedStore "u" (plainEntity "C" "place") 5%Z 6%Z d H1 H2)
    as (Hc & _ & _ & Hshort & _).
  split; [exact H1|]. split; [exact H2|].
  fold s' in Hc, Hshort. specialize (Hshort eq_refl).
  split; [now rewrite Hc|]. rewrite <- Hshort. now rewrite Hc.
Defined.

(** The statement of X14 on the scenario store. *)
Lemma drainSummaryUpdates_converges_witness :
  In "u" (pendingUpdates scenarioStore)
  /\ pendingUpdates refreshedStore = []
  /\ totalEntities (getUserSummary refreshedStore "u" 9%Z) = 2
  /\ totalRelations (getUserSummary refreshedStore "u" 9%Z) = 1.
Proof.
  assert (Hin : In "u" (pendingUpdates scenarioStore)) by now left.
  destruct (drainSummaryUpdates_converges scenarioStore (fun _ => 4%Z))
    as (Hp & _ & _ & Hconv & _).
  destruct (Hconv "u" 9%Z Hin) as (t & _ & He & Hr).
  split; [exact Hin|]. split; [exact Hp|].
  split; [exact He | exact Hr].
Defined.

(** The statement of X16 on the scenario store, from the stored entity
    [A]. *)
Lemma getConnectedEntities_negative_depth_witness :
  (-1 < 0)%Z
  /\ getEntity scenarioStore "u" "A" <> None
  /\ getConnectedEntities scenarioStore "u" "A" (-1) = Some (mkGraph [] []).
Proof.
  split; [lia|]. split; [discriminate|].
  apply getConnectedEntities_negative_depth. lia.
Defined.

(** The statement of X17 on the triangle: from [A], the entity [C] lies
    one relation away and the relation [B -> C] is returned from depth 2
    on. *)
Lemma getConnectedEntities_within_depth_witness :
  walk triangleStore "u" "A" 1 "B"
  /\ exists g,
      getConnectedEntities triangleStore "u" "A" 2 = Some g
      /\ forall r, In r (getRelations triangleStore "u" "B") ->
                   In r (relations g).
Proof.
  assert (Hw : walk triangleStore "u" "A" 1 "B").
  { apply (walk_step _ _ _ 0 "A"); [constructor|].
    eexists. split; [left; reflexivity|]. split; [reflexivity|].
    left. split; reflexivity. }
  split; [exact Hw|].
  destruct (getConnectedEntities_within_depth triangleStore "u" "A" 2)
    as (g & Hg & _ & Hr).
  exists g. split; [exact Hg|].
  intros r Hin. apply Hr. exists "B", 1. split; [exact Hw|].
  split; [lia | exact Hin].
Defined.

(** The statement of X22 on the scenario store, between [A] and [B] at
    depth 1. *)
Lemma getConnectedEntities_monotone_symmetric_witness :
  let eA := storedEntity (plainEntity "A" "person") 1%Z in
  let eB := storedEntity (plainEntity "B" "place") 2%Z in
  exists gA gB,
    getConnectedEntities scenarioStore "u" "A" 1 = Some gA
    /\ getConnectedEntities scenarioStore "u" "B" 1 = Some gB
    /\ getEntity scenarioStore "u" "A" = Some eA
    /\ getEntity scenarioStore "u" "B" = Some eB
    /\ (In eB (entities gA) <-> In eA (entities gB)).
Proof.
  intros eA eB.
  destruct (getConnectedEntities_total scenarioStore "u" "A" 1) as [gA HA].
  destruct (getConnectedEntities_total scenarioStore "u" "B" 1) as [gB HB].
  exists gA, gB. split; [exact HA|]. split; [exact HB|].
  split; [reflexivity|]. split; [reflexivity|].
  destruct (getConnectedEntities_monotone_symmetric
              scenarioStore "u" "A" "B" 1 1) as [_ Hsym].
  exact (Hsym gA gB eA eB HA HB eq_refl eq_refl).
Defined.


(** The statement of X20 on a validated ['paginated-graph'] configuration
    without its [paginatedGraph] member. *)
Lemma validateConfig_and_createUserStorage_witness :
  let config := mkUnifiedStorageConfig "paginated-graph" None None None
                                       None None in
  storageType config = "paginated-graph"
  /\ validateConfig config = true
  /\ createUserStorage config (JsObject ["entities"; "relations"])
     = inr "Paginated graph storage selected but no configuration provided".
Proof.
  intros config.
  destruct (validateConfig_and_createUserStorage
              config (JsObject ["entities"; "relations"]))
    as (_ & Hgraph & _).
  destruct (Hgraph eq_refl) as [Hv _].
  split; [reflexivity|]. split; [exact Hv | reflexivity].
Defined.

(** The statement of X24 on an entity saved under two types. *)
Lemma saveEntity_last_write_wins_witness :
  entityId (plainEntity "A" "person") = entityId (plainEntity "A" "robot")
  /\ getEntity (saveEntity
                  (saveEntity emptyStore "u" (plainEntity "A" "person") 1%Z)
                  "u" (plainEntity "A" "robot") 2%Z) "u" "A"
     = Some (storedEntity (plainEntity "A" "robot") 2%Z).
Proof.
  split; [reflexivity|].
  destruct (saveEntity_last_write_wins
              emptyStore "u" (plainEntity "A" "person")
              (plainEntity "A" "robot") 1%Z 2%Z eq_refl) as (_ & H & _).
  exact H.
Defined.

(** The statement of X12 on two persons and one entity of type
    ["__proto__"]: the one entry counts the persons, three entities are
    counted in all. *)
Lemma generateSummary_entityTypes_witness :
  let g := generateSummary protoStore "u" 2%Z in
  entityTypes g = [("person", 2)]
  /\ totalEntities g = 3
  /\ list_sum (map snd (entityTypes g)) + 1 = totalEntities g.
Proof.
  split; [reflexivity|]. split; [reflexivity|].
  destruct (generateSummary_entityTypes protoStore "u" 2%Z)
    as (_ & _ & _ & H).
  exact H.
Defined.
